(** * oml_integration: the LightboxTV -> Open Media Logic integration service

    A shallow embedding of [src/modules/lightbox/services/integration.service.ts]
    (class [IntegrationService]) together with the configuration it reads
    ([EnvConfig.getOmlConfig]) and the HTTP entry point that drives it
    ([IntegrationController.publishCampaign]), and of the methods in which the
    earlier stand-alone trigger of the repository ([class
    LightboxCampaignTrigger]) differs from the service.

    The service is a sequential workflow over a third-party client
    ([OpenMediaLogicClient] of the package [oml_sdk]).  The client and the
    platform behind it are not part of the repository; they are modelled as a
    deterministic oracle: every method answers from the history of the requests
    issued so far and from its arguments, and either returns a value or throws
    an [Error].  The service itself is modelled in a state-and-exception monad
    whose state holds the two mutable fields of the instance ([mappingCache],
    [progressLog]) and the part of the outside world the service acts on (the
    requests it issued, the console, the clock).  As in JavaScript, a thrown
    error does not roll the state back.

    Numbers are integers ([Z]); a field that the code reads through
    [x.id as number] or [x?.id] may be [undefined] at run time and has type
    [option Z]. *)

From Stdlib Require Import ZArith List String Ascii Bool Lia DecimalString.
Import ListNotations.
Local Open Scope Z_scope.
Local Open Scope list_scope.
Local Open Scope string_scope.

Set Implicit Arguments.

(** ** JavaScript values and helpers *)

(** [new Error(message)]. *)
Record Error : Type := mkError { message : string }.

(** Template-literal rendering of an integer number. *)
Definition string_of_Z (z : Z) : string := NilZero.string_of_int (Z.to_int z).

(** Template-literal rendering of a possibly undefined number. *)
Definition string_of_number (n : option Z) : string :=
  match n with
  | Some z => string_of_Z z
  | None => "undefined"
  end.

(** [a === b] for a possibly undefined number [a] and a number [b]. *)
Definition strict_eq (a : option Z) (b : Z) : bool :=
  match a with
  | Some x => Z.eqb x b
  | None => false
  end.

(** [a === b] for two possibly undefined numbers. *)
Definition strict_eq_opt (a b : option Z) : bool :=
  match a, b with
  | Some x, Some y => Z.eqb x y
  | None, None => true
  | _, _ => false
  end.

Definition newline : string := String (ascii_of_nat 10) EmptyString.
Definition dquote : string := String (ascii_of_nat 34) EmptyString.

(** [value || defaultValue] for a possibly undefined string: an undefined or
    empty string gives the default. *)
Definition or_default (value : option string) (defaultValue : string) : string :=
  match value with
  | Some v => if String.eqb v EmptyString then defaultValue else v
  | None => defaultValue
  end.

(** [xs.join(sep)]. *)
Definition join (sep : string) (xs : list string) : string := String.concat sep xs.

(** [xs.slice(-n)]: the last [n] elements (all of them when there are fewer). *)
Definition slice_last {A : Type} (n : nat) (xs : list A) : list A :=
  skipn (List.length xs - n) xs.

(** [xs.slice(0, n)]. *)
Definition slice_first {A : Type} (n : nat) (xs : list A) : list A := firstn n xs.

(** [xs.length] as a number. *)
Definition js_length {A : Type} (xs : list A) : Z := Z.of_nat (List.length xs).

(** The values the service puts into JSON text: integers, strings, booleans,
    and a decimal literal kept as written. *)
Inductive JsonValue : Type :=
| JNumber (z : Z)
| JDecimal (literal : string)
| JString (text : string)
| JBool (b : bool).

Definition json_value (v : JsonValue) : string :=
  match v with
  | JNumber z => string_of_Z z
  | JDecimal literal => literal
  | JString text => dquote ++ text ++ dquote
  | JBool true => "true"
  | JBool false => "false"
  end.

(** [JSON.stringify] of an object literal: a field whose value is [undefined]
    is left out. *)
Definition json_field (kv : string * option JsonValue) : list string :=
  match snd kv with
  | Some v => [dquote ++ fst kv ++ dquote ++ ":" ++ json_value v]
  | None => []
  end.

Definition JSON_stringify (fields : list (string * option JsonValue)) : string :=
  "{" ++ join "," (flat_map json_field fields) ++ "}".

(** [new Set<number>()] with [add] and [Array.from]: insertion order, first
    occurrence kept. *)
Definition Set_add (s : list Z) (x : Z) : list Z :=
  if existsb (Z.eqb x) s then s else (s ++ [x])%list.

(** The JavaScript [Map]: keys are unique and iteration follows insertion
    order; [set] on a present key replaces the value in place. *)
Module JsMap.
Section WithKey.
Context {K V : Type} (eqb : K -> K -> bool).

Definition t : Type := list (K * V).

Definition empty : t := [].

Fixpoint get (m : t) (k : K) : option V :=
  match m with
  | [] => None
  | (k', v) :: rest => if eqb k' k then Some v else get rest k
  end.

Definition has (m : t) (k : K) : bool :=
  match get m k with
  | Some _ => true
  | None => false
  end.

Fixpoint set (m : t) (k : K) (v : V) : t :=
  match m with
  | [] => [(k, v)]
  | (k', v') :: rest =>
      if eqb k' k then (k', v) :: rest else (k', v') :: set rest k v
  end.

Definition entries (m : t) : list (K * V) := m.

Definition keys (m : t) : list K := map fst m.

End WithKey.
End JsMap.

Arguments JsMap.t : clear implicits.

(** ** Data of the LightboxTV side *)

Module Placement.
Record t : Type := {
  id : Z;
  campaign_id : Z;
  channel_id : Z;
  brand_id : Z;
  target_audience_id : Z;
  start_date : string;
  end_date : string;
  budget : Z;
  priority : Z;
  creative_ids : list Z
}.
End Placement.

Module Campaign.
Record t : Type := {
  id : Z;
  name : string;
  start_date : string;
  end_date : string;
  budget : Z;
  advertiser_id : Z;
  status : string;
  creative_ids : list Z;
  placements : list Placement.t
}.
End Campaign.

Module Creative.
Record t : Type := {
  id : Z;
  name : string;
  duration : Z;
  file_url : string;
  format : string;
  brand_id : Z;
  advertiser_id : Z
}.
End Creative.

(** ** Data of the OML side

    The record types of [oml_sdk] are not in the repository; each is modelled
    with the fields the service reads. *)

(** An advertiser, brand, channel or target audience of a dictionary listing. *)
Module Entity.
Record t : Type := { id : option Z; name : string }.
End Entity.

Module Commercial.
Record t : Type := { id : option Z; name : string; duration : Z }.
End Commercial.

Module Mediaplan.
Record t : Type := {
  id : option Z;
  commercials : option (list Commercial.t);
  date_from : string;
  date_to : string
}.
End Mediaplan.

Module Spot.
Record t : Type := { id : option Z; commercial_id : option Z }.
End Spot.

Module Block.
Record t : Type := {
  id : option Z;
  channel_id : option Z;
  date_start_at : string;
  spots : option (list Spot.t)
}.
End Block.

(** A slot record of the booking grid ([BlockWithGrps]). *)
Module BlockWithGrps.
Record t : Type := {
  block_id : option Z;
  block_date_start_at : string;
  block_duration : Z
}.
End BlockWithGrps.

Module ProgramRelease.
Record t : Type := {
  program_release_id : Z;
  blocks : option (list BlockWithGrps.t)
}.
End ProgramRelease.

(** [bookingResponse.data.grid]: an object keyed by date.  The list is the
    object in the order of [Object.keys]; a value may be null. *)
Definition Grid : Type := list (string * option (list ProgramRelease.t)).

(** [grid[date]]. *)
Fixpoint grid_get (grid : Grid) (date : string) : option (list ProgramRelease.t) :=
  match grid with
  | [] => None
  | (d, v) :: rest => if String.eqb d date then v else grid_get rest date
  end.

(** The payload of [addSpotToBlock].  The coefficient is a decimal literal
    that the code only passes on. *)
Module SpotData.
Record t : Type := {
  commercial_id : option Z;
  mediaplan_id : option Z;
  position : option string;
  priority : option Z;
  auction_coeff : option string;
  force : option bool
}.
End SpotData.

(** ** The external platform *)

(** A request issued through the client. *)
Inductive Call : Type :=
| Login (login password : string)
| GetAdvertisers
| GetBrands
| GetChannels
| GetTargetAudiences
| GetChannelBooking (channel_id : option Z) (start_date end_date : string)
| GetBlockById (id : option Z)
| GetCommercials (per_page : option Z)
| GetMediaplans (per_page : Z)
| AddSpotToBlock (block_id : option Z) (data : SpotData.t) (flag : option bool).

(** The client and the platform behind it.  The first argument of every
    method is the list of requests issued before this one. *)
Record OpenMediaLogicClient : Type := {
  login : list Call -> string -> string -> Error + unit;
  getAdvertisers : list Call -> Error + list Entity.t;
  getBrands : list Call -> Error + list Entity.t;
  getChannels : list Call -> Error + list Entity.t;
  getTargetAudiences : list Call -> Error + list Entity.t;
  getChannelBooking : list Call -> option Z -> string -> string -> Error + Grid;
  getBlockById : list Call -> option Z -> Error + Block.t;
  getCommercials : list Call -> option Z -> Error + list Commercial.t;
  getMediaplans : list Call -> Z -> Error + list Mediaplan.t;
  addSpotToBlock : list Call -> option Z -> SpotData.t -> option bool -> Error + Block.t;
  getToken : list Call -> option string
}.

(** ** Progress entries and results *)

Module IntegrationProgress.
Record t : Type := {
  step : string;
  progress : Z;
  message : string;
  timestamp : string
}.
End IntegrationProgress.

Inductive Status : Type := complete | partial | failed.

Record IntegrationResult : Type := {
  success : bool;
  status : Status;
  project_id : option Z;
  order_id : option Z;
  mediaplan_ids : option (list (option Z));
  commercial_ids : option (list (option Z));
  spot_ids : option (list (option Z));
  error : option string;
  details : option string
}.

(** ** State and the monad of the service *)

Inductive ConsoleLine : Type :=
| console_log (line : string)
| console_log_spot (value : option Spot.t)
| console_error (line : string).

(** What the service does to the outside: the requests issued so far (oldest
    first), the console output, and the number of clock readings. *)
Record World : Type := {
  calls : list Call;
  console : list ConsoleLine;
  ticks : nat
}.

(** The mutable fields of one instance, and the world. *)
Record State : Type := {
  mappingCache : JsMap.t string (JsMap.t Z (option Z));
  progressLog : list IntegrationProgress.t;
  world : World
}.

Definition M (A : Type) : Type := State -> (Error + A) * State.

Definition ret {A : Type} (a : A) : M A := fun s => (inr a, s).

Definition bind {A B : Type} (c : M A) (k : A -> M B) : M B :=
  fun s =>
    match c s with
    | (inr a, s') => k a s'
    | (inl e, s') => (inl e, s')
    end.

Definition throw {A : Type} (e : Error) : M A := fun s => (inl e, s).

Definition try_catch {A : Type} (body : M A) (handler : Error -> M A) : M A :=
  fun s =>
    match body s with
    | (inr a, s') => (inr a, s')
    | (inl e, s') => handler e s'
    end.

Declare Scope service_scope.
Delimit Scope service_scope with service.
Notation "x <- c1 ;; c2" := (bind c1 (fun x => c2))
  (at level 61, c1 at next level, right associativity) : service_scope.
Notation "c1 ;; c2" := (bind c1 (fun _ => c2))
  (at level 61, right associativity) : service_scope.
Local Open Scope service_scope.

(** [for (const x of xs) body(x)]. *)
Fixpoint for_of {A : Type} (xs : list A) (body : A -> M unit) : M unit :=
  match xs with
  | [] => ret tt
  | x :: rest => body x ;; for_of rest body
  end.

(** [for (const x of xs)] around a body that updates local variables (an
    array it pushes onto, or variables it assigns); [acc] is their value. *)
Fixpoint for_of_with {A B : Type} (xs : list A) (body : A -> B -> M B) (acc : B) : M B :=
  match xs with
  | [] => ret acc
  | x :: rest => acc' <- body x acc ;; for_of_with rest body acc'
  end.

Definition set_world (w : World) (s : State) : State :=
  {| mappingCache := mappingCache s; progressLog := progressLog s; world := w |}.

(** The state after a line went to the console. *)
Definition printed (line : ConsoleLine) (s : State) : State :=
  set_world {| calls := calls (world s);
               console := (console (world s) ++ [line])%list;
               ticks := ticks (world s) |} s.

Definition print (line : ConsoleLine) : M unit := fun s => (inr tt, printed line s).

(** The state after a request was issued. *)
Definition issued (c : Call) (s : State) : State :=
  set_world {| calls := (calls (world s) ++ [c])%list;
               console := console (world s);
               ticks := ticks (world s) |} s.

(** Issue a request: the platform answers from the history, and the request
    joins the history whether it succeeds or throws. *)
Definition request {A : Type} (c : Call) (respond : list Call -> Error + A) : M A :=
  fun s => (respond (calls (world s)), issued c s).

(** ** Configuration: [IntegrationConfig] and [EnvConfig] *)

(** The numeric settings ([yearId], the default type ids, [maxRetries]) are
    read by no method of the service and are left out. *)
Record IntegrationConfig : Type := {
  omlBaseUrl : string;
  omlUsername : string;
  omlPassword : string;
  progressCallback : option (IntegrationProgress.t -> M unit)
}.

(** The progress callback of [EnvConfig] and of the usage example:
    [console.log] of one formatted line. *)
Definition consoleProgress (progress : IntegrationProgress.t) : M unit :=
  print (console_log
           ("[" ++ IntegrationProgress.timestamp progress ++ "] "
            ++ IntegrationProgress.step progress ++ " ("
            ++ string_of_Z (IntegrationProgress.progress progress) ++ "%): "
            ++ IntegrationProgress.message progress)).

Module EnvConfig.

(** [process.env[key] || defaultValue]. *)
Definition get (processEnv : string -> option string) (key defaultValue : string) : string :=
  or_default (processEnv key) defaultValue.

Definition getOmlConfig (processEnv : string -> option string) : IntegrationConfig :=
  {| omlBaseUrl := get processEnv "OML_BASE_URL" "https://ge-api.omldev.org";
     omlUsername := get processEnv "OML_USERNAME" EmptyString;
     omlPassword := get processEnv "OML_PASSWORD" EmptyString;
     progressCallback := Some consoleProgress |}.

End EnvConfig.

(** ** The service: [class IntegrationService] *)

Module IntegrationService.
Section Methods.

(** [this.omlClient], the clock behind [new Date().toISOString()] (the [n]-th
    reading gives [now n]) and [this.config]. *)
Variable omlClient : OpenMediaLogicClient.
Variable now : nat -> string.
Variable config : IntegrationConfig.

(** The constructor: four empty tables and an empty progress log. *)
Definition constructor (w : World) : State :=
  {| mappingCache :=
       JsMap.set String.eqb
         (JsMap.set String.eqb
            (JsMap.set String.eqb
               (JsMap.set String.eqb JsMap.empty "advertisers" JsMap.empty)
               "brands" JsMap.empty)
            "channels" JsMap.empty)
         "targetAudiences" JsMap.empty;
     progressLog := [];
     world := w |}.

(** [new Date().toISOString()]. *)
Definition toISOString : M string :=
  fun s =>
    let w := world s in
    (inr (now (ticks w)),
     set_world {| calls := calls w; console := console w; ticks := S (ticks w) |} s).

Definition logProgress (step : string) (progress : Z) (message : string) : M unit :=
  timestamp <- toISOString ;;
  let progressEntry :=
    {| IntegrationProgress.step := step;
       IntegrationProgress.progress := progress;
       IntegrationProgress.message := message;
       IntegrationProgress.timestamp := timestamp |} in
  (fun s => (inr tt, {| mappingCache := mappingCache s;
                        progressLog := (progressLog s ++ [progressEntry])%list;
                        world := world s |})) ;;
  match progressCallback config with
  | Some callback => callback progressEntry
  | None => ret tt
  end.

Definition format_progress (p : IntegrationProgress.t) : string :=
  "- " ++ IntegrationProgress.timestamp p ++ ": " ++ IntegrationProgress.step p
  ++ " (" ++ string_of_Z (IntegrationProgress.progress p) ++ "%) - "
  ++ IntegrationProgress.message p.

Definition getErrorDetails (error : Error) : M string :=
  fun s =>
    (inr ("Помилка в процесі інтеграції: " ++ message error ++ newline
          ++ "Останні етапи інтеграції:" ++ newline
          ++ join newline (map format_progress (slice_last 3 (progressLog s)))),
     s).

Definition authenticate : M unit :=
  try_catch
    (request (Login (omlUsername config) (omlPassword config))
       (fun h => login omlClient h (omlUsername config) (omlPassword config)))
    (fun error => throw (mkError ("Помилка аутентифікації в OML: " ++ message error))).

(** The stubs standing for the LightboxTV API. *)
Record LightboxData : Type := {
  lbx_id : Z;
  lbx_name : string;
  lbx_advertiser_id : option Z
}.

Definition fetchLightboxAdvertiser (id : Z) : M LightboxData :=
  ret {| lbx_id := id;
         lbx_name := "Advertiser " ++ string_of_Z id;
         lbx_advertiser_id := None |}.

Definition fetchLightboxBrand (id : Z) : M LightboxData :=
  ret {| lbx_id := id;
         lbx_name := "Brand " ++ string_of_Z id;
         lbx_advertiser_id := Some 1 |}.

Definition fetchLightboxChannel (id : Z) : M LightboxData :=
  ret {| lbx_id := id;
         lbx_name := "Channel " ++ string_of_Z id;
         lbx_advertiser_id := None |}.

Definition fetchLightboxTargetAudience (id : Z) : M LightboxData :=
  ret {| lbx_id := id;
         lbx_name := "TargetAudience " ++ string_of_Z id;
         lbx_advertiser_id := None |}.

(** [this.mappingCache.get(entityType)?.has(lbxId)]. *)
Definition cache_has (entityType : string) (lbxId : Z) (s : State) : bool :=
  match JsMap.get String.eqb (mappingCache s) entityType with
  | Some mapping => JsMap.has Z.eqb mapping lbxId
  | None => false
  end.

(** [this.mappingCache.get(entityType)?.set(lbxId, omlId)]: the inner map is
    updated in place. *)
Definition cache_set (entityType : string) (lbxId : Z) (omlId : option Z) : M unit :=
  fun s =>
    match JsMap.get String.eqb (mappingCache s) entityType with
    | Some mapping =>
        (inr tt,
         {| mappingCache :=
              JsMap.set String.eqb (mappingCache s) entityType
                (JsMap.set Z.eqb mapping lbxId omlId);
            progressLog := progressLog s;
            world := world s |})
    | None => (inr tt, s)
    end.

(** The body shared, word for word, by the four dictionary loops: skip an id
    that is already in the table, otherwise read the stub, list the remote
    dictionary, and record the id of its first record or throw. *)
Definition syncOne (entityType : string) (fetchLightbox : Z -> M LightboxData)
  (call : Call) (list_remote : list Call -> Error + list Entity.t)
  (notFound : string -> string) (lbxId : Z) : M unit :=
  fun s =>
    if cache_has entityType lbxId s then ret tt s
    else
      (data <- fetchLightbox lbxId ;;
       remote <- request call list_remote ;;
       match remote with
       | first :: _ => cache_set entityType lbxId (Entity.id first)
       | [] => throw (mkError (notFound (lbx_name data)))
       end) s.

Definition syncAdvertisers (advertiserIds : list Z) : M unit :=
  for_of advertiserIds
    (syncOne "advertisers" fetchLightboxAdvertiser GetAdvertisers (getAdvertisers omlClient)
       (fun name => "Рекламодавець з ім'ям " ++ name ++ " не знайдений в OML")).

Definition syncBrands (brandIds : list Z) : M unit :=
  for_of brandIds
    (syncOne "brands" fetchLightboxBrand GetBrands (getBrands omlClient)
       (fun name => "Бренд з ім'ям " ++ name ++ " не знайдений в OML")).

Definition syncChannels (channelIds : list Z) : M unit :=
  for_of channelIds
    (syncOne "channels" fetchLightboxChannel GetChannels (getChannels omlClient)
       (fun name => "Канал з ім'ям " ++ name ++ " не знайдений в OML")).

Definition syncTargetAudiences (targetAudienceIds : list Z) : M unit :=
  for_of targetAudienceIds
    (syncOne "targetAudiences" fetchLightboxTargetAudience GetTargetAudiences
       (getTargetAudiences omlClient)
       (fun name => "Цільова аудиторія з ім'ям " ++ name ++ " не знайдена в OML")).

(** The distinct brand ids of the placements, then of the creatives. *)
Definition collectBrandIds (campaign : Campaign.t) (creatives : list Creative.t) : list Z :=
  fold_left Set_add (map Creative.brand_id creatives)
    (fold_left Set_add (map Placement.brand_id (Campaign.placements campaign)) []).

Definition syncReferenceDictionaries (campaign : Campaign.t) (creatives : list Creative.t)
  : M unit :=
  try_catch
    (syncAdvertisers [Campaign.advertiser_id campaign] ;;
     let brandIds := collectBrandIds campaign creatives in
     syncBrands brandIds ;;
     let channelIds := map Placement.channel_id (Campaign.placements campaign) in
     syncChannels channelIds ;;
     let targetAudienceIds :=
       map Placement.target_audience_id (Campaign.placements campaign) in
     syncTargetAudiences targetAudienceIds)
    (fun error => throw (mkError ("Помилка синхронізації довідників: " ++ message error))).

Definition getMappedIdOrThrow (entityType : string) (lbxId : Z) : M (option Z) :=
  fun s =>
    match JsMap.get String.eqb (mappingCache s) entityType with
    | Some mapping =>
        match JsMap.get Z.eqb mapping lbxId with
        | Some omlId => (inr omlId, s)
        | None =>
            (inl (mkError ("Не знайдено маппінг для " ++ entityType ++ " з ID "
                           ++ string_of_Z lbxId)), s)
        end
    | None =>
        (inl (mkError ("Не знайдено маппінг для " ++ entityType ++ " з ID "
                       ++ string_of_Z lbxId)), s)
    end.

(** The loop over [mapping.entries()] returns at the first entry whose value
    is the remote id. *)
Definition getReverseMappedId (entityType : string) (omlId : Z) (s : State) : option Z :=
  match JsMap.get String.eqb (mappingCache s) entityType with
  | None => None
  | Some mapping =>
      match find (fun entry => strict_eq (snd entry) omlId) (JsMap.entries mapping) with
      | Some (lbxId, _) => Some lbxId
      | None => None
      end
  end.

(** The innermost loop of [findBlocksForPlacement]: one detail request per
    slot record, the answer pushed onto [blocks]. *)
Definition fetchSlot (blockWithGrps : BlockWithGrps.t) (blocks : list Block.t)
  : M (list Block.t) :=
  let block_id := BlockWithGrps.block_id blockWithGrps in
  fullBlock <- request (GetBlockById block_id) (fun h => getBlockById omlClient h block_id) ;;
  ret (blocks ++ [fullBlock])%list.

Definition scanProgramRelease (programRelease : ProgramRelease.t) (blocks : list Block.t)
  : M (list Block.t) :=
  match ProgramRelease.blocks programRelease with
  | Some (b :: bs) =>
      let availableBlocks := slice_first 5 (b :: bs) in
      for_of_with availableBlocks fetchSlot blocks
  | Some [] => ret blocks
  | None => ret blocks
  end.

Definition scanDate (grid : Grid) (date : string) (blocks : list Block.t)
  : M (list Block.t) :=
  let programReleases :=
    match grid_get grid date with
    | Some releases => releases
    | None => []
    end in
  for_of_with programReleases scanProgramRelease blocks.

Definition findBlocksForPlacement (start_date end_date : string) : M (list Block.t) :=
  try_catch
    (omlChannelId <- getMappedIdOrThrow "channels" 9 ;;
     grid <- request (GetChannelBooking omlChannelId start_date end_date)
               (fun h => getChannelBooking omlClient h omlChannelId start_date end_date) ;;
     let datesInGrid := map fst grid in
     for_of_with datesInGrid (scanDate grid) [])
    (fun error =>
       throw (mkError ("Помилка при пошуку блоків для розміщення: " ++ message error))).

(** The loop of [findAndMapCommercials]: [find] gives the first record of the
    catalog with the creative's id. *)
Definition matchCreative (existingCommercials : list Commercial.t)
  (omlCommercials : list Commercial.t) (creative : Creative.t) : list Commercial.t :=
  match find (fun el => strict_eq (Commercial.id el) (Creative.id creative))
          existingCommercials with
  | Some found => (omlCommercials ++ [found])%list
  | None => omlCommercials
  end.

Definition findAndMapCommercials (creatives : list Creative.t) : M (list Commercial.t) :=
  try_catch
    (existingCommercials <- request (GetCommercials (Some 10000))
                              (fun h => getCommercials omlClient h (Some 10000)) ;;
     ret (fold_left (matchCreative existingCommercials) creatives []))
    (fun error =>
       throw (mkError ("Помилка при пошуку комерційних матеріалів: " ++ message error))).

(** [mediaplan?.commercials?.[0]]. *)
Definition firstCommercial (mediaplan : option Mediaplan.t) : option Commercial.t :=
  match mediaplan with
  | Some mp =>
      match Mediaplan.commercials mp with
      | Some (c :: _) => Some c
      | _ => None
      end
  | None => None
  end.

(** [block?.id]. *)
Definition block_id_of (block : option Block.t) : option Z :=
  match block with
  | Some b => Block.id b
  | None => None
  end.

(** The object literal [spotData]. *)
Definition spotData (commercial : Commercial.t) (mediaplan : Mediaplan.t) : SpotData.t :=
  {| SpotData.commercial_id := Commercial.id commercial;
     SpotData.mediaplan_id := Mediaplan.id mediaplan;
     SpotData.position := None;
     SpotData.priority := None;
     SpotData.auction_coeff := None;
     SpotData.force := None |}.

Definition curlRequest (block : option Block.t) (token : string)
  (commercial : Commercial.t) (mediaplan : Mediaplan.t) : string :=
  "curl -X POST " ++ dquote ++ omlBaseUrl config ++ "/api/blocks/"
  ++ string_of_number (block_id_of block) ++ "/spots" ++ dquote ++ " \" ++ newline
  ++ "            -H " ++ dquote ++ "Authorization: Bearer " ++ token ++ dquote
  ++ " \" ++ newline
  ++ "            -H " ++ dquote ++ "Content-Type: application/json" ++ dquote
  ++ " \" ++ newline
  ++ "            -d '"
  ++ JSON_stringify [("commercial_id", option_map JNumber (Commercial.id commercial));
                     ("mediaplan_id", option_map JNumber (Mediaplan.id mediaplan))]
  ++ "'".

(** [this.omlClient.getToken() || "TOKEN_NOT_AVAILABLE"]. *)
Definition tokenOrDefault : M string :=
  fun s => (inr (or_default (getToken omlClient (calls (world s))) "TOKEN_NOT_AVAILABLE"), s).

(** [reserveSpots(block)].  The argument is [blocksForPlacement[0]!], which is
    undefined when the list is empty.  The local array [spots] is never
    written, so every [return spots] returns the empty list. *)
Definition reserveSpots (block : option Block.t) : M (list Spot.t) :=
  try_catch
    (let spots : list Spot.t := [] in
     mediaplans <- request (GetMediaplans 10000)
                     (fun h => getMediaplans omlClient h 10000) ;;
     let mediaplan := find (fun el => strict_eq (Mediaplan.id el) 42338) mediaplans in
     let commercial := firstCommercial mediaplan in
     match commercial with
     | None => print (console_log "not found commercial") ;; ret []
     | Some commercial =>
         match mediaplan with
         | None => print (console_log "not found mediaplan") ;; ret []
         | Some mediaplan =>
             returned <-
               try_catch
                 (let spotData := spotData commercial mediaplan in
                  _ <- request (AddSpotToBlock (block_id_of block) spotData None)
                         (fun h => addSpotToBlock omlClient h (block_id_of block)
                                     spotData None) ;;
                  ret (Some spots))
                 (fun error =>
                    token <- tokenOrDefault ;;
                    print (console_error
                             ("Помилка бронювання споту в блоці "
                              ++ string_of_number (block_id_of block) ++ ": "
                              ++ message error)) ;;
                    print (console_error
                             ("Запит, що викликав помилку: "
                              ++ curlRequest block token commercial mediaplan)) ;;
                    ret None) ;;
             match returned with
             | Some result => ret result
             | None => ret spots
             end
         end
     end)
    (fun error => throw (mkError ("Помилка при бронюванні спотів: " ++ message error))).

Definition completeResult : IntegrationResult :=
  {| success := true;
     status := complete;
     project_id := None;
     order_id := None;
     mediaplan_ids := None;
     commercial_ids := None;
     spot_ids := None;
     error := None;
     details := Some "Інтеграція кампанії успішно завершена" |}.

(** The [try] block of [handleCampaignPublish]. *)
Definition pipeline (campaign : Campaign.t) (creatives : list Creative.t)
  : M IntegrationResult :=
  logProgress "start" 0 "Початок інтеграції кампанії" ;;
  authenticate ;;
  logProgress "authentication" 5 "Аутентифікація в OML успішна" ;;
  syncReferenceDictionaries campaign creatives ;;
  logProgress "sync_dictionaries" 15 "Довідники синхронізовано" ;;
  blocksForPlacement <-
    findBlocksForPlacement (Campaign.start_date campaign) (Campaign.end_date campaign) ;;
  logProgress "find_blocks" 30
    ("Знайдено " ++ string_of_Z (js_length blocksForPlacement) ++ " блоків для розміщення") ;;
  commercials <- findAndMapCommercials creatives ;;
  logProgress "map_commercials" 50
    ("Знайдено відповідність для " ++ string_of_Z (js_length commercials)
     ++ " рекламних матеріалів") ;;
  spots <- reserveSpots (nth_error blocksForPlacement 0) ;;
  logProgress "reserve_spots" 80 "Заброньовано 1 спотів в OML" ;;
  let result := completeResult in
  logProgress "complete" 100 "Інтеграція успішно завершена" ;;
  ret result.

Definition failedResult (error : Error) (details : string) : IntegrationResult :=
  {| success := false;
     status := failed;
     project_id := None;
     order_id := None;
     mediaplan_ids := None;
     commercial_ids := None;
     spot_ids := None;
     error := Some (message error);
     details := Some details |}.

Definition handleCampaignPublish (campaign : Campaign.t) (creatives : list Creative.t)
  : M IntegrationResult :=
  try_catch (pipeline campaign creatives)
    (fun error =>
       logProgress "error" (-1) ("Помилка інтеграції: " ++ message error) ;;
       details <- getErrorDetails error ;;
       ret (failedResult error details)).

End Methods.
End IntegrationService.

(** ** The HTTP entry point: [IntegrationController]

    [publishCampaign] hands the payload to the injected service, whose
    configuration comes from the process environment. *)

Module IntegrationController.

Record CampaignPublishDto : Type := {
  campaign : Campaign.t;
  creatives : list Creative.t
}.

Definition publishCampaign (omlClient : OpenMediaLogicClient) (now : nat -> string)
  (processEnv : string -> option string) (payload : CampaignPublishDto)
  : M IntegrationResult :=
  IntegrationService.handleCampaignPublish omlClient now
    (EnvConfig.getOmlConfig processEnv) (campaign payload) (creatives payload).

End IntegrationController.

(** ** The earlier variant: [class LightboxCampaignTrigger]

    The repository also holds the stand-alone trigger the service was adapted
    from.  Its [authenticate], the dictionary sync, [findBlocksForPlacement],
    [getMappedIdOrThrow], [getReverseMappedId], [logProgress] and
    [getErrorDetails] have the text of the service's methods; the methods
    below differ. *)

Module LightboxCampaignTrigger.
Section Methods.

Variable omlClient : OpenMediaLogicClient.
Variable now : nat -> string.
Variable config : IntegrationConfig.

Definition constructor : World -> State := IntegrationService.constructor.
Definition logProgress : string -> Z -> string -> M unit :=
  IntegrationService.logProgress now config.
Definition getErrorDetails : Error -> M string := IntegrationService.getErrorDetails.
Definition authenticate : M unit := IntegrationService.authenticate omlClient config.
Definition syncReferenceDictionaries : Campaign.t -> list Creative.t -> M unit :=
  IntegrationService.syncReferenceDictionaries omlClient.
Definition findBlocksForPlacement : string -> string -> M (list Block.t) :=
  IntegrationService.findBlocksForPlacement omlClient.

(** The whole catalog is taken; the creatives are not looked at. *)
Definition findAndMapCommercials (creatives : list Creative.t) : M (list Commercial.t) :=
  try_catch
    (let omlCommercials : list Commercial.t := [] in
     existingCommercials <- request (GetCommercials None)
                              (fun h => getCommercials omlClient h None) ;;
     match existingCommercials with
     | _ :: _ => ret (omlCommercials ++ existingCommercials)%list
     | [] => ret omlCommercials
     end)
    (fun error =>
       throw (mkError ("Помилка при пошуку комерційних матеріалів: " ++ message error))).

(** The body of the loop of [findCommercialForPlacement]; the local variables
    are [block] and [mediaplanResult]. *)
Definition considerMediaplan (mediaplan : Mediaplan.t)
  (vars : option Block.t * option Mediaplan.t) : M (option Block.t * option Mediaplan.t) :=
  match Mediaplan.commercials mediaplan with
  | Some (_ :: _) =>
      blocks <- findBlocksForPlacement (Mediaplan.date_from mediaplan)
                  (Mediaplan.date_to mediaplan) ;;
      match blocks with
      | [] => ret vars
      | first :: _ => ret (Some first, Some mediaplan)
      end
  | Some [] => ret vars
  | None => ret vars
  end.

Definition findCommercialForPlacement (mediaplans : list Mediaplan.t)
  : M (option Commercial.t * option Mediaplan.t * option Block.t) :=
  vars <- for_of_with mediaplans considerMediaplan (None, None) ;;
  ret (IntegrationService.firstCommercial (snd vars), snd vars, fst vars).

Definition spotData (commercial : Commercial.t) (mediaplan : Mediaplan.t) : SpotData.t :=
  {| SpotData.commercial_id := Commercial.id commercial;
     SpotData.mediaplan_id := Mediaplan.id mediaplan;
     SpotData.position := Some "1F";
     SpotData.priority := Some 1;
     SpotData.auction_coeff := Some "1.05";
     SpotData.force := Some true |}.

Definition curlRequest (block : option Block.t) (token : string)
  (commercial : Commercial.t) (mediaplan : Mediaplan.t) : string :=
  "curl -X POST " ++ dquote ++ omlBaseUrl config ++ "/api/blocks/"
  ++ string_of_number (IntegrationService.block_id_of block) ++ "/spots" ++ dquote
  ++ " \" ++ newline
  ++ "                    -H " ++ dquote ++ "Authorization: Bearer " ++ token ++ dquote
  ++ " \" ++ newline
  ++ "                    -H " ++ dquote ++ "Content-Type: application/json" ++ dquote
  ++ " \" ++ newline
  ++ "                    -d '"
  ++ JSON_stringify [("commercial_id", option_map JNumber (Commercial.id commercial));
                     ("mediaplan_id", option_map JNumber (Mediaplan.id mediaplan));
                     ("position", Some (JString "1F"));
                     ("priority", Some (JNumber 1));
                     ("auction_coeff", Some (JDecimal "1.05"));
                     ("force", Some (JBool true))]
  ++ "'".

(** [updatedBlock.spots?.find((s) => s.commercial_id === commercial.id)]. *)
Definition addedSpot (updatedBlock : Block.t) (commercial : Commercial.t) : option Spot.t :=
  match Block.spots updatedBlock with
  | Some spots =>
      find (fun s => strict_eq_opt (Spot.commercial_id s) (Commercial.id commercial)) spots
  | None => None
  end.

Definition reserveSpots : M (list Spot.t) :=
  try_catch
    (let spots : list Spot.t := [] in
     mediaplans <- request (GetMediaplans 1000)
                     (fun h => getMediaplans omlClient h 1000) ;;
     found <- findCommercialForPlacement mediaplans ;;
     let commercial := fst (fst found) in
     let mediaplan := snd (fst found) in
     let block := snd found in
     match commercial with
     | None => print (console_log "not found commercial") ;; ret []
     | Some commercial =>
         match mediaplan with
         | None => print (console_log "not found mediaplan") ;; ret []
         | Some mediaplan =>
             print (console_log "found comercial") ;;
             returned <-
               try_catch
                 (let spotData := spotData commercial mediaplan in
                  print (console_log "trying to reserve spot") ;;
                  updatedBlock <-
                    request (AddSpotToBlock (IntegrationService.block_id_of block)
                               spotData (Some true))
                      (fun h => addSpotToBlock omlClient h
                                  (IntegrationService.block_id_of block)
                                  spotData (Some true)) ;;
                  let addedSpot := addedSpot updatedBlock commercial in
                  let spots :=
                    match addedSpot with
                    | Some spot => (spots ++ [spot])%list
                    | None => spots
                    end in
                  print (console_log "Успішно заброньовано спот") ;;
                  print (console_log_spot addedSpot) ;;
                  ret (Some spots))
                 (fun error =>
                    token <- IntegrationService.tokenOrDefault omlClient ;;
                    print (console_error
                             ("Помилка бронювання споту в блоці "
                              ++ string_of_number (IntegrationService.block_id_of block)
                              ++ ": " ++ message error)) ;;
                    print (console_error
                             ("Запит, що викликав помилку: "
                              ++ curlRequest block token commercial mediaplan)) ;;
                    ret None) ;;
             match returned with
             | Some result => ret result
             | None => ret spots
             end
         end
     end)
    (fun error => throw (mkError ("Помилка при бронюванні спотів: " ++ message error))).

Definition completeResult (commercials : list Commercial.t) (spots : list Spot.t)
  : IntegrationResult :=
  {| success := true;
     status := complete;
     project_id := None;
     order_id := None;
     mediaplan_ids := None;
     commercial_ids := Some (map Commercial.id commercials);
     spot_ids := Some (map Spot.id spots);
     error := None;
     details := Some "Інтеграція кампанії успішно завершена" |}.

(** The [try] block of [handleCampaignPublish]; the block search is
    commented out in this variant. *)
Definition pipeline (campaign : Campaign.t) (creatives : list Creative.t)
  : M IntegrationResult :=
  logProgress "start" 0 "Початок інтеграції кампанії" ;;
  authenticate ;;
  logProgress "authentication" 5 "Аутентифікація в OML успішна" ;;
  syncReferenceDictionaries campaign creatives ;;
  logProgress "sync_dictionaries" 15 "Довідники синхронізовано" ;;
  commercials <- findAndMapCommercials creatives ;;
  logProgress "map_commercials" 50
    ("Знайдено відповідність для " ++ string_of_Z (js_length commercials)
     ++ " рекламних матеріалів") ;;
  spots <- reserveSpots ;;
  logProgress "reserve_spots" 80
    ("Заброньовано " ++ string_of_Z (js_length spots) ++ " спотів в OML") ;;
  let result := completeResult commercials spots in
  logProgress "complete" 100 "Інтеграція успішно завершена" ;;
  ret result.

Definition handleCampaignPublish (campaign : Campaign.t) (creatives : list Creative.t)
  : M IntegrationResult :=
  try_catch (pipeline campaign creatives)
    (fun error =>
       logProgress "error" (-1) ("Помилка інтеграції: " ++ message error) ;;
       details <- getErrorDetails error ;;
       ret (IntegrationService.failedResult error details)).

(** [handleLightboxCampaignPublish]: a new trigger for every call. *)
Definition handleLightboxCampaignPublish (campaignData : Campaign.t)
  (creatives : list Creative.t) (w : World) : (Error + IntegrationResult) * State :=
  let trigger := constructor w in
  handleCampaignPublish campaignData creatives trigger.

End Methods.
End LightboxCampaignTrigger.

(** ** Sample data

    The campaign and creatives of the repository's usage example, and small
    platforms that answer the same way whatever the history. *)

Module Sample.

Definition placement (id budget priority : Z) (creative_ids : list Z) : Placement.t :=
  {| Placement.id := id;
     Placement.campaign_id := 12345;
     Placement.channel_id := 9;
     Placement.brand_id := 401;
     Placement.target_audience_id := 501;
     Placement.start_date := "2025-04-24";
     Placement.end_date := "2025-04-30";
     Placement.budget := budget;
     Placement.priority := priority;
     Placement.creative_ids := creative_ids |}.

Definition campaign : Campaign.t :=
  {| Campaign.id := 12345;
     Campaign.name := "Summer Campaign 2025";
     Campaign.start_date := "2025-04-24";
     Campaign.end_date := "2025-04-30";
     Campaign.budget := 1000000;
     Campaign.advertiser_id := 101;
     Campaign.status := "draft";
     Campaign.creative_ids := [201; 202];
     Campaign.placements :=
       [placement 1001 350000 1 [201]; placement 1002 650000 2 [201; 202]] |}.

Definition creative (id : Z) (name : string) (duration : Z) : Creative.t :=
  {| Creative.id := id;
     Creative.name := name;
     Creative.duration := duration;
     Creative.file_url := "https://storage.lightboxtv.com/creatives/" ++ name;
     Creative.format := "mp4";
     Creative.brand_id := 401;
     Creative.advertiser_id := 101 |}.

Definition creatives : list Creative.t :=
  [creative 201 "Summer Promo 30s" 30; creative 202 "Summer Promo 15s" 15].

Definition entity (id : Z) (name : string) : Entity.t :=
  {| Entity.id := Some id; Entity.name := name |}.

Definition commercial (id : Z) (name : string) : Commercial.t :=
  {| Commercial.id := Some id; Commercial.name := name; Commercial.duration := 30 |}.

Definition mediaplan (id : Z) (commercials : list Commercial.t) : Mediaplan.t :=
  {| Mediaplan.id := Some id;
     Mediaplan.commercials := Some commercials;
     Mediaplan.date_from := "2025-04-24";
     Mediaplan.date_to := "2025-04-30" |}.

Definition slot (id : Z) : BlockWithGrps.t :=
  {| BlockWithGrps.block_id := Some id;
     BlockWithGrps.block_date_start_at := "2025-04-26";
     BlockWithGrps.block_duration := 180 |}.

Definition release (id : Z) (slots : list Z) : ProgramRelease.t :=
  {| ProgramRelease.program_release_id := id;
     ProgramRelease.blocks := Some (map slot slots) |}.

Definition fullBlock (id : option Z) : Block.t :=
  {| Block.id := id;
     Block.channel_id := Some 3;
     Block.date_start_at := "2025-04-26";
     Block.spots := None |}.

(** The block 965745 after the spot was attached. *)
Definition bookedBlock : Block.t :=
  {| Block.id := Some 965745;
     Block.channel_id := Some 3;
     Block.date_start_at := "2025-04-26";
     Block.spots := Some [{| Spot.id := Some 77; Spot.commercial_id := Some 201 |}] |}.

(** One date with a release of seven slots and a release of two, and a date
    without releases. *)
Definition grid : Grid :=
  [("2025-04-26", Some [release 1 [965745; 965746; 965747; 965748; 965749; 965750; 965751];
                        release 2 [965800; 965801]]);
   ("2025-04-27", None)].

(** A platform given by its answers. *)
Definition platform (loginAnswer : Error + unit) (brands : list Entity.t) (booking : Grid)
  (catalog : list Commercial.t) (mediaplans : list Mediaplan.t)
  (attachAnswer : Error + Block.t) : OpenMediaLogicClient :=
  {| login := fun _ _ _ => loginAnswer;
     getAdvertisers := fun _ => inr [entity 7 "Advertiser"];
     getBrands := fun _ => inr brands;
     getChannels := fun _ => inr [entity 3 "Channel"];
     getTargetAudiences := fun _ => inr [entity 5 "Audience"];
     getChannelBooking := fun _ _ _ _ => inr booking;
     getBlockById := fun _ id => inr (fullBlock id);
     getCommercials := fun _ _ => inr catalog;
     getMediaplans := fun _ _ => inr mediaplans;
     addSpotToBlock := fun _ _ _ _ => attachAnswer;
     getToken := fun _ => Some "jwt" |}.

(** Everything succeeds. *)
Definition omlClient : OpenMediaLogicClient :=
  platform (inr tt) [entity 70 "Brand"] grid [commercial 201 "Summer Promo 30s"]
    [mediaplan 42338 [commercial 201 "Summer Promo 30s"]] (inr bookedBlock).

(** The credentials are rejected. *)
Definition rejecting : OpenMediaLogicClient :=
  platform (inl (mkError "401 Unauthorized")) [entity 70 "Brand"] grid
    [commercial 201 "Summer Promo 30s"]
    [mediaplan 42338 [commercial 201 "Summer Promo 30s"]] (inr bookedBlock).



(** The attachment request is refused. *)
Definition refusingSpots : OpenMediaLogicClient :=
  platform (inr tt) [entity 70 "Brand"] grid [commercial 201 "Summer Promo 30s"]
    [mediaplan 42338 [commercial 201 "Summer Promo 30s"]]
    (inl (mkError "422 Unprocessable Entity")).

(** Two records of the catalog carry the id 201. *)
Definition twoRecords : OpenMediaLogicClient :=
  platform (inr tt) [entity 70 "Brand"] grid
    [commercial 201 "Summer Promo 30s"; commercial 201 "Summer Promo 30s (recut)"]
    [mediaplan 42338 [commercial 201 "Summer Promo 30s"]] (inr bookedBlock).

(** The session expires: the first login is accepted, every later one is
    rejected. *)
Definition expiring : OpenMediaLogicClient :=
  {| login := fun history _ _ =>
       if existsb (fun c => match c with Login _ _ => true | _ => false end) history
       then inl (mkError "401 Unauthorized") else inr tt;
     getAdvertisers := getAdvertisers omlClient;
     getBrands := getBrands omlClient;
     getChannels := getChannels omlClient;
     getTargetAudiences := getTargetAudiences omlClient;
     getChannelBooking := getChannelBooking omlClient;
     getBlockById := getBlockById omlClient;
     getCommercials := getCommercials omlClient;
     getMediaplans := getMediaplans omlClient;
     addSpotToBlock := addSpotToBlock omlClient;
     getToken := getToken omlClient |}.

Definition now (n : nat) : string := "T" ++ string_of_Z (Z.of_nat n).

Definition processEnv (key : string) : option string :=
  if String.eqb key "OML_USERNAME" then Some "victoria.lee"
  else if String.eqb key "OML_PASSWORD" then Some "123456789"
  else None.

(** The configuration of the usage example of the trigger. *)
Definition exampleConfig : IntegrationConfig :=
  {| omlBaseUrl := "https://ge-api.omldev.org";
     omlUsername := "victoria.lee";
     omlPassword := "123456789";
     progressCallback := Some consoleProgress |}.

(** A configuration whose progress callback throws. *)
Definition throwingConfig : IntegrationConfig :=
  {| omlBaseUrl := "https://ge-api.omldev.org";
     omlUsername := "victoria.lee";
     omlPassword := "123456789";
     progressCallback := Some (fun _ => throw (mkError "callback failed")) |}.

Definition world0 : World := {| calls := []; console := []; ticks := 0 |}.

Definition payload : IntegrationController.CampaignPublishDto :=
  {| IntegrationController.campaign := campaign;
     IntegrationController.creatives := creatives |}.

End Sample.

(** ** Notions used to state the properties *)

(** The four dictionaries and their keys in [mappingCache]. *)
Inductive EntityType : Type := advertisers | brands | channels | targetAudiences.

Definition entityKey (t : EntityType) : string :=
  match t with
  | advertisers => "advertisers"
  | brands => "brands"
  | channels => "channels"
  | targetAudiences => "targetAudiences"
  end.

(** The sync method of a dictionary and the request it issues. *)
Definition sync (omlClient : OpenMediaLogicClient) (t : EntityType) : list Z -> M unit :=
  match t with
  | advertisers => IntegrationService.syncAdvertisers omlClient
  | brands => IntegrationService.syncBrands omlClient
  | channels => IntegrationService.syncChannels omlClient
  | targetAudiences => IntegrationService.syncTargetAudiences omlClient
  end.

Definition lookupCall (t : EntityType) : Call :=
  match t with
  | advertisers => GetAdvertisers
  | brands => GetBrands
  | channels => GetChannels
  | targetAudiences => GetTargetAudiences
  end.

(** [this.mappingCache.get(key)?.get(lbxId)]: [None] when there is no entry,
    [Some v] when the entry holds [v]. *)
Definition cache_get (key : string) (lbxId : Z) (s : State) : option (option Z) :=
  match JsMap.get String.eqb (mappingCache s) key with
  | Some mapping => JsMap.get Z.eqb mapping lbxId
  | None => None
  end.

(** The table of a key exists, as after the constructor. *)
Definition table_exists (key : string) (s : State) : Prop :=
  JsMap.get String.eqb (mappingCache s) key <> None.

(** The ids of a list that have no entry in a table, each once, in order of
    first occurrence. *)
Fixpoint unmapped (key : string) (s : State) (seen : list Z) (ids : list Z) : list Z :=
  match ids with
  | [] => []
  | x :: rest =>
      if IntegrationService.cache_has key x s || existsb (Z.eqb x) seen
      then unmapped key s seen rest
      else x :: unmapped key s (x :: seen) rest
  end.

(** The table has the entry [lbxId -> omlId]. *)
Definition mapsTo (mapping : JsMap.t Z (option Z)) (lbxId omlId : Z) : Prop :=
  In (lbxId, Some omlId) (JsMap.entries mapping).

(** No two local ids of a table are mapped to the same remote id. *)
Definition injective (mapping : JsMap.t Z (option Z)) : Prop :=
  forall l1 l2 omlId, mapsTo mapping l1 omlId -> mapsTo mapping l2 omlId -> l1 = l2.

(** The state and the console line left by [logProgress] under the
    configuration of [EnvConfig]. *)
Definition progressEntry (now : nat -> string) (step : string) (progress : Z)
  (message : string) (s : State) : IntegrationProgress.t :=
  {| IntegrationProgress.step := step;
     IntegrationProgress.progress := progress;
     IntegrationProgress.message := message;
     IntegrationProgress.timestamp := now (ticks (world s)) |}.

Definition logged (now : nat -> string) (step : string) (progress : Z) (message : string)
  (s : State) : State :=
  {| mappingCache := mappingCache s;
     progressLog := (progressLog s ++ [progressEntry now step progress message s])%list;
     world :=
       {| calls := calls (world s);
          console :=
            (console (world s)
             ++ [console_log ("[" ++ now (ticks (world s)) ++ "] " ++ step ++ " ("
                              ++ string_of_Z progress ++ "%): " ++ message)])%list;
          ticks := S (ticks (world s)) |} |}.

Definition afterStart now := logged now "start" 0 "Початок інтеграції кампанії".
Definition afterAuthentication now :=
  logged now "authentication" 5 "Аутентифікація в OML успішна".
Definition afterSync now := logged now "sync_dictionaries" 15 "Довідники синхронізовано".
Definition afterBlocks now (blocks : list Block.t) :=
  logged now "find_blocks" 30
    ("Знайдено " ++ string_of_Z (js_length blocks) ++ " блоків для розміщення").
Definition afterCommercials now (commercials : list Commercial.t) :=
  logged now "map_commercials" 50
    ("Знайдено відповідність для " ++ string_of_Z (js_length commercials)
     ++ " рекламних матеріалів").
Definition afterSpots now := logged now "reserve_spots" 80 "Заброньовано 1 спотів в OML".
Definition afterComplete now := logged now "complete" 100 "Інтеграція успішно завершена".
Definition afterError now (e : Error) :=
  logged now "error" (-1) ("Помилка інтеграції: " ++ message e).

(** A pipeline step raises [e]: the steps before it returned, and the step
    itself throws [e], leaving the state [s']. *)
Section Steps.
Variable omlClient : OpenMediaLogicClient.
Variable now : nat -> string.
Variable config : IntegrationConfig.
Variables (campaign : Campaign.t) (creatives : list Creative.t).

Inductive Authenticated (s s1 : State) : Prop :=
| authenticated :
    IntegrationService.authenticate omlClient config (afterStart now s) = (inr tt, s1) ->
    Authenticated s s1.

Inductive Synced (s s2 : State) : Prop :=
| synced : forall s1,
    Authenticated s s1 ->
    IntegrationService.syncReferenceDictionaries omlClient campaign creatives
      (afterAuthentication now s1) = (inr tt, s2) ->
    Synced s s2.

Inductive BlocksFound (s : State) (blocks : list Block.t) (s3 : State) : Prop :=
| blocksFound : forall s2,
    Synced s s2 ->
    IntegrationService.findBlocksForPlacement omlClient
      (Campaign.start_date campaign) (Campaign.end_date campaign) (afterSync now s2)
    = (inr blocks, s3) ->
    BlocksFound s blocks s3.

Inductive CommercialsMapped (s : State) (blocks : list Block.t)
  (commercials : list Commercial.t) (s4 : State) : Prop :=
| commercialsMapped : forall s3,
    BlocksFound s blocks s3 ->
    IntegrationService.findAndMapCommercials omlClient creatives (afterBlocks now blocks s3)
    = (inr commercials, s4) ->
    CommercialsMapped s blocks commercials s4.

Inductive SpotsReserved (s : State) (blocks : list Block.t)
  (commercials : list Commercial.t) (spots : list Spot.t) (s5 : State) : Prop :=
| spotsReserved : forall s4,
    CommercialsMapped s blocks commercials s4 ->
    IntegrationService.reserveSpots omlClient config (nth_error blocks 0)
      (afterCommercials now commercials s4) = (inr spots, s5) ->
    SpotsReserved s blocks commercials spots s5.

Inductive StepRaises (s : State) (e : Error) (s' : State) : Prop :=
| raises_authentication :
    IntegrationService.authenticate omlClient config (afterStart now s) = (inl e, s') ->
    StepRaises s e s'
| raises_sync : forall s1,
    Authenticated s s1 ->
    IntegrationService.syncReferenceDictionaries omlClient campaign creatives
      (afterAuthentication now s1) = (inl e, s') ->
    StepRaises s e s'
| raises_blocks : forall s2,
    Synced s s2 ->
    IntegrationService.findBlocksForPlacement omlClient
      (Campaign.start_date campaign) (Campaign.end_date campaign) (afterSync now s2)
    = (inl e, s') ->
    StepRaises s e s'
| raises_commercials : forall blocks s3,
    BlocksFound s blocks s3 ->
    IntegrationService.findAndMapCommercials omlClient creatives (afterBlocks now blocks s3)
    = (inl e, s') ->
    StepRaises s e s'
| raises_spots : forall blocks commercials s4,
    CommercialsMapped s blocks commercials s4 ->
    IntegrationService.reserveSpots omlClient config (nth_error blocks 0)
      (afterCommercials now commercials s4) = (inl e, s') ->
    StepRaises s e s'.

End Steps.

(** The slot records [findBlocksForPlacement] asks about, as the
    specification words it: the dates of the grid in order, the program
    releases of a date in order, and the first five slots of a release. *)
Definition availableSlots (programRelease : ProgramRelease.t) : list BlockWithGrps.t :=
  match ProgramRelease.blocks programRelease with
  | Some slots => firstn 5 slots
  | None => []
  end.

Definition releasesOn (grid : Grid) (date : string) : list ProgramRelease.t :=
  match grid_get grid date with
  | Some releases => releases
  | None => []
  end.

Definition gridReleases (grid : Grid) : list ProgramRelease.t :=
  flat_map (releasesOn grid) (map fst grid).

Definition gridSlots (grid : Grid) : list BlockWithGrps.t :=
  flat_map availableSlots (gridReleases grid).

(** The full block is the platform's answer about the slot. *)
Definition detailOf (omlClient : OpenMediaLogicClient) (slot : BlockWithGrps.t)
  (fullBlock : Block.t) : Prop :=
  exists history,
    getBlockById omlClient history (BlockWithGrps.block_id slot) = inr fullBlock.

(** A record of the catalog matches some creative by id. *)
Definition matchesCreative (creatives : list Creative.t) (el : Commercial.t) : Prop :=
  exists creative, In creative creatives /\ Commercial.id el = Some (Creative.id creative).

(** The first record of the catalog with the creative's id, if any. *)
Definition firstMatch (catalog : list Commercial.t) (creative : Creative.t)
  : list Commercial.t :=
  match find (fun el => strict_eq (Commercial.id el) (Creative.id creative)) catalog with
  | Some found => [found]
  | None => []
  end.

(** A lookup of one of the four dictionaries. *)
Definition dictionaryLookup (c : Call) : bool :=
  match c with
  | GetAdvertisers | GetBrands | GetChannels | GetTargetAudiences => true
  | _ => false
  end.


(** The detail requests for a list of slot records. *)
Definition slotCalls (slots : list BlockWithGrps.t) : list Call :=
  map (fun slot => GetBlockById (BlockWithGrps.block_id slot)) slots.

(** Between [s] and [s'] the program releases [releases] were scanned: each
    contributed the answers about its available slots, in order, to the end of
    [acc], and nothing but the detail requests happened. *)
Definition Fetched (omlClient : OpenMediaLogicClient) (s : State) (acc : list Block.t)
  (releases : list ProgramRelease.t) (blocks : list Block.t) (s' : State) : Prop :=
  exists chunks,
    blocks = (acc ++ List.concat chunks)%list
    /\ Forall2 (fun programRelease chunk =>
                  Forall2 (detailOf omlClient) (availableSlots programRelease) chunk)
         releases chunks
    /\ calls (world s')
       = (calls (world s) ++ slotCalls (flat_map availableSlots releases))%list
    /\ console (world s') = console (world s)
    /\ ticks (world s') = ticks (world s)
    /\ mappingCache s' = mappingCache s
    /\ progressLog s' = progressLog s.

(** The shape every cache has: the four tables exist, and the keys of a table
    are unique. *)
Definition wellFormed (s : State) : Prop :=
  (forall t, table_exists (entityKey t) s)
  /\ (forall key mapping,
        JsMap.get String.eqb (mappingCache s) key = Some mapping ->
        NoDup (JsMap.keys mapping)).

(** The states of one service instance: the one the constructor leaves, and
    the ones left by requests to the controller. *)
Inductive Reachable (omlClient : OpenMediaLogicClient) (now : nat -> string)
  (processEnv : string -> option string) : State -> Prop :=
| reach_constructor : forall w,
    Reachable omlClient now processEnv (IntegrationService.constructor w)
| reach_publish : forall s payload r s',
    Reachable omlClient now processEnv s ->
    IntegrationController.publishCampaign omlClient now processEnv payload s = (r, s') ->
    Reachable omlClient now processEnv s'.

(** A computation keeps a property of the state, whatever its outcome. *)
Definition Preserves (P : State -> Prop) {A : Type} (c : M A) : Prop :=
  forall s r s', P s -> c s = (r, s') -> P s'.

(** The state after [logProgress] in the trigger's [reserve_spots] entry. *)
Definition afterSpotsCount now (spots : list Spot.t) :=
  logged now "reserve_spots" 80
    ("Заброньовано " ++ string_of_Z (js_length spots) ++ " спотів в OML").

(** ** Notions for the further properties *)

(** The parts of a sync method: its stub, its remote listing and the text of
    its lookup failure. *)
Definition fetchOf (t : EntityType) : Z -> M IntegrationService.LightboxData :=
  match t with
  | advertisers => IntegrationService.fetchLightboxAdvertiser
  | brands => IntegrationService.fetchLightboxBrand
  | channels => IntegrationService.fetchLightboxChannel
  | targetAudiences => IntegrationService.fetchLightboxTargetAudience
  end.

Definition listingOf (omlClient : OpenMediaLogicClient) (t : EntityType)
  : list Call -> Error + list Entity.t :=
  match t with
  | advertisers => getAdvertisers omlClient
  | brands => getBrands omlClient
  | channels => getChannels omlClient
  | targetAudiences => getTargetAudiences omlClient
  end.

Definition notFoundOf (t : EntityType) (name : string) : string :=
  match t with
  | advertisers => "Рекламодавець з ім'ям " ++ name ++ " не знайдений в OML"
  | brands => "Бренд з ім'ям " ++ name ++ " не знайдений в OML"
  | channels => "Канал з ім'ям " ++ name ++ " не знайдений в OML"
  | targetAudiences => "Цільова аудиторія з ім'ям " ++ name ++ " не знайдена в OML"
  end.

(** The creative ids that occur as the id of a record of the catalog. *)
Definition inCatalog (catalog : list Commercial.t) (id : Z) : bool :=
  existsb (fun el => strict_eq (Commercial.id el) id) catalog.

(** The local ids a campaign and its creatives refer to, per dictionary, as
    [syncReferenceDictionaries] collects them. *)
Definition referenced (campaign : Campaign.t) (creatives : list Creative.t)
  (t : EntityType) : list Z :=
  match t with
  | advertisers => [Campaign.advertiser_id campaign]
  | brands => IntegrationService.collectBrandIds campaign creatives
  | channels => map Placement.channel_id (Campaign.placements campaign)
  | targetAudiences => map Placement.target_audience_id (Campaign.placements campaign)
  end.

(** The kinds of request, and how many requests of a kind a history holds. *)
Inductive RequestKind : Type :=
| KLogin | KLookup | KBooking | KBlockDetail | KCommercials | KMediaplans | KAttach.

Definition kindOf (c : Call) : RequestKind :=
  match c with
  | Login _ _ => KLogin
  | GetAdvertisers | GetBrands | GetChannels | GetTargetAudiences => KLookup
  | GetChannelBooking _ _ _ => KBooking
  | GetBlockById _ => KBlockDetail
  | GetCommercials _ => KCommercials
  | GetMediaplans _ => KMediaplans
  | AddSpotToBlock _ _ _ => KAttach
  end.

Definition kind_eqb (a b : RequestKind) : bool :=
  match a, b with
  | KLogin, KLogin | KLookup, KLookup | KBooking, KBooking
  | KBlockDetail, KBlockDetail | KCommercials, KCommercials
  | KMediaplans, KMediaplans | KAttach, KAttach => true
  | _, _ => false
  end.

Definition countKind (kind : RequestKind) (history : list Call) : nat :=
  List.length (filter (fun c => kind_eqb (kindOf c) kind) history).

(** The steps of the pipeline in order: the name and percentage logged when a
    step returned (the first is logged before any step), and the prefix of
    the error a step throws. *)
Definition stepNames : list string :=
  ["start"; "authentication"; "sync_dictionaries"; "find_blocks"; "map_commercials";
   "reserve_spots"; "complete"].

Definition stepProgress : list Z := [0; 5; 15; 30; 50; 80; 100].

Definition stepPrefixes : list string :=
  ["Помилка аутентифікації в OML: ";
   "Помилка синхронізації довідників: ";
   "Помилка при пошуку блоків для розміщення: ";
   "Помилка при пошуку комерційних матеріалів: ";
   "Помилка при бронюванні спотів: "].

(** Between [s] and [s'] the progress log grew, at its end, by entries with
    the given step names and percentages, stamped with consecutive readings of
    the clock; the entries it had are kept. *)
Definition Trail (now : nat -> string) (s s' : State) (names : list string)
  (percentages : list Z) : Prop :=
  exists entries,
    progressLog s' = (progressLog s ++ entries)%list
    /\ map IntegrationProgress.step entries = names
    /\ map IntegrationProgress.progress entries = percentages
    /\ map IntegrationProgress.timestamp entries
       = map now (seq (ticks (world s)) (List.length entries))
    /\ ticks (world s') = (ticks (world s) + List.length entries)%nat.

(** The kinds of the requests of a run, in the order of the pipeline: the
    login, [a] dictionary lookups, [k] booking requests, [b] block details,
    [c] catalog requests, [m] media-plan listings and [t] attachments. *)
Definition requestKinds (a k b c m t : nat) : list RequestKind :=
  (KLogin :: repeat KLookup a ++ repeat KBooking k ++ repeat KBlockDetail b
   ++ repeat KCommercials c ++ repeat KMediaplans m ++ repeat KAttach t)%list.

(** Between [s] and [s'] requests of the given kinds were issued, in this
    order, and the history before them is kept. *)
Definition Issued (s s' : State) (kinds : list RequestKind) : Prop :=
  exists new,
    calls (world s') = (calls (world s) ++ new)%list /\ map kindOf new = kinds.

(** What the loop of the trigger's [findCommercialForPlacement] keeps true of
    its two local variables: they are both unset, or hold a media plan of the
    listing that has a first commercial, together with a block. *)
Definition selection (mediaplans : list Mediaplan.t)
  (vars : option Block.t * option Mediaplan.t) : Prop :=
  match snd vars with
  | Some mp =>
      In mp mediaplans
      /\ IntegrationService.firstCommercial (Some mp) <> None
      /\ fst vars <> None
  | None => fst vars = None
  end.

(** From [s] to [s'] the cache only grew, and only at ids the campaign and
    its creatives refer to. *)
Definition Grown (campaign : Campaign.t) (creatives : list Creative.t) (s s' : State)
  : Prop :=
  (forall key l v, cache_get key l s = Some v -> cache_get key l s' = Some v)
  /\ (forall key, table_exists key s -> table_exists key s')
  /\ (forall t l, ~ In l (referenced campaign creatives t) ->
                  cache_get (entityKey t) l s' = cache_get (entityKey t) l s).

(** The detail requests over [slots], started in [s], stopped at the first
    slot the platform refused, with [e]: the slots before it were asked
    about, in order, the refused one was asked about last, and the ones after
    it were not. *)
Definition StoppedAt (omlClient : OpenMediaLogicClient) (slots : list BlockWithGrps.t)
  (s : State) (e : Error) (s' : State) : Prop :=
  exists asked slot rest,
    slots = (asked ++ slot :: rest)%list
    /\ getBlockById omlClient (calls (world s) ++ slotCalls asked)%list
         (BlockWithGrps.block_id slot) = inl e
    /\ calls (world s') = (calls (world s) ++ slotCalls (asked ++ [slot]))%list.

(** The sample platform, except that it refuses the details of the block
    965746, the second slot of the sample grid. *)
Definition refusingDetail : OpenMediaLogicClient :=
  {| login := login Sample.omlClient;
     getAdvertisers := getAdvertisers Sample.omlClient;
     getBrands := getBrands Sample.omlClient;
     getChannels := getChannels Sample.omlClient;
     getTargetAudiences := getTargetAudiences Sample.omlClient;
     getChannelBooking := getChannelBooking Sample.omlClient;
     getBlockById := fun history id =>
       if strict_eq id 965746 then inl (mkError "404 Not Found")
       else getBlockById Sample.omlClient history id;
     getCommercials := getCommercials Sample.omlClient;
     getMediaplans := getMediaplans Sample.omlClient;
     addSpotToBlock := addSpotToBlock Sample.omlClient;
     getToken := getToken Sample.omlClient |}.

(** * Properties *)

Import IntegrationService.

Unset Implicit Arguments.

(** ** Running the monad *)

Lemma bind_ok {A B : Type} {c : M A} (k : A -> M B) {s s' : State} {a : A} :
  c s = (inr a, s') -> bind c k s = k a s'.
Proof. intros H. unfold bind. rewrite H. reflexivity. Qed.

Lemma bind_err {A B : Type} {c : M A} (k : A -> M B) {s s' : State} {e : Error} :
  c s = (inl e, s') -> bind c k s = (inl e, s').
Proof. intros H. unfold bind. rewrite H. reflexivity. Qed.

Lemma try_ok {A : Type} {c : M A} (h : Error -> M A) {s s' : State} {a : A} :
  c s = (inr a, s') -> try_catch c h s = (inr a, s').
Proof. intros H. unfold try_catch. rewrite H. reflexivity. Qed.

Lemma try_err {A : Type} {c : M A} (h : Error -> M A) {s s' : State} {e : Error} :
  c s = (inl e, s') -> try_catch c h s = h e s'.
Proof. intros H. unfold try_catch. rewrite H. reflexivity. Qed.

(** With the console callback, [logProgress] prints one line and returns. *)
Lemma logProgress_console now config step progress message s :
  progressCallback config = Some consoleProgress ->
  logProgress now config step progress message s
  = (inr tt, logged now step progress message s).
Proof. intros H. unfold logProgress, bind, toISOString. rewrite H. reflexivity. Qed.

(** Under the configuration of [EnvConfig] the progress callback is the
    console callback and cannot throw, so [logProgress] always returns. *)
Lemma logProgress_env now processEnv step progress message s :
  logProgress now (EnvConfig.getOmlConfig processEnv) step progress message s
  = (inr tt, logged now step progress message s).
Proof. now apply logProgress_console. Qed.

Ltac log_step := rewrite (bind_ok _ (logProgress_env _ _ _ _ _ _)).
Ltac ok_step H := rewrite (bind_ok _ H).
Ltac err_step H := rewrite (bind_err _ H).

(** ** The JavaScript [Map] *)

Section JsMapFacts.
Context {K V : Type} (eqb : K -> K -> bool).
Hypothesis eqb_eq : forall a b, eqb a b = true <-> a = b.

Lemma eqb_same (k : K) : eqb k k = true.
Proof. now apply eqb_eq. Qed.

Lemma eqb_other (a b : K) : a <> b -> eqb a b = false.
Proof.
  intros H. destruct (eqb a b) eqn:E; [| reflexivity].
  apply eqb_eq in E. contradiction.
Qed.

Lemma get_set_same (m : JsMap.t K V) (k : K) (v : V) :
  JsMap.get eqb (JsMap.set eqb m k v) k = Some v.
Proof.
  induction m as [| [k' v'] rest IH]; simpl.
  - now rewrite eqb_same.
  - destruct (eqb k' k) eqn:E; simpl; rewrite E; [reflexivity | exact IH].
Qed.

Lemma get_set_other (m : JsMap.t K V) (k k' : K) (v : V) :
  k <> k' -> JsMap.get eqb (JsMap.set eqb m k v) k' = JsMap.get eqb m k'.
Proof.
  intros N. induction m as [| [k0 v0] rest IH]; simpl.
  - now rewrite (eqb_other _ _ N).
  - destruct (eqb k0 k) eqn:E; simpl.
    + apply eqb_eq in E. subst k0. now rewrite (eqb_other _ _ N).
    + now rewrite IH.
Qed.

Lemma get_In (m : JsMap.t K V) (k : K) (v : V) :
  JsMap.get eqb m k = Some v -> In (k, v) (JsMap.entries m).
Proof.
  induction m as [| [k' v'] rest IH]; simpl; [discriminate |].
  destruct (eqb k' k) eqn:E.
  - intros [= ->]. apply eqb_eq in E. subst. now left.
  - intros H. right. now apply IH.
Qed.

Lemma In_get (m : JsMap.t K V) (k : K) (v : V) :
  NoDup (JsMap.keys m) -> In (k, v) (JsMap.entries m) -> JsMap.get eqb m k = Some v.
Proof.
  induction m as [| [k' v'] rest IH]; simpl; [intros _ [] |].
  intros D [[= -> ->] | H].
  - now rewrite eqb_same.
  - inversion D as [| ? ? N D']; subst.
    destruct (eqb k' k) eqn:E.
    + apply eqb_eq in E. subst k'. exfalso. apply N.
      change k with (fst (k, v)). now apply in_map.
    + now apply IH.
Qed.

Lemma keys_set (m : JsMap.t K V) (k : K) (v : V) :
  JsMap.keys (JsMap.set eqb m k v)
  = if JsMap.has eqb m k then JsMap.keys m else (JsMap.keys m ++ [k])%list.
Proof.
  unfold JsMap.has. induction m as [| [k' v'] rest IH]; simpl; [reflexivity |].
  destruct (eqb k' k) eqn:E; simpl; [reflexivity |].
  rewrite IH. now destruct (JsMap.get eqb rest k).
Qed.

Lemma has_false_not_key (m : JsMap.t K V) (k : K) :
  JsMap.has eqb m k = false -> ~ In k (JsMap.keys m).
Proof.
  unfold JsMap.has. induction m as [| [k' v'] rest IH]; simpl; [tauto |].
  destruct (eqb k' k) eqn:E; [discriminate |].
  intros H [-> | I]; [now rewrite eqb_same in E | now apply IH].
Qed.

(** [set] keeps the keys of a [Map] unique. *)
Lemma set_NoDup (m : JsMap.t K V) (k : K) (v : V) :
  NoDup (JsMap.keys m) -> NoDup (JsMap.keys (JsMap.set eqb m k v)).
Proof.
  intros D. rewrite keys_set. destruct (JsMap.has eqb m k) eqn:E; [exact D |].
  apply NoDup_app; [exact D | repeat constructor; intros [] |].
  intros x Hx [<- | []]. revert Hx. now apply has_false_not_key.
Qed.

End JsMapFacts.

Lemma Z_eqb_eq (a b : Z) : Z.eqb a b = true <-> a = b.
Proof. apply Z.eqb_eq. Qed.

Lemma string_eqb_eq (a b : string) : String.eqb a b = true <-> a = b.
Proof. apply String.eqb_eq. Qed.

(** ** The identifier cache *)

Lemma cache_has_get key lbxId s :
  cache_has key lbxId s = match cache_get key lbxId s with Some _ => true | None => false end.
Proof.
  unfold cache_has, cache_get, JsMap.has.
  now destruct (JsMap.get String.eqb (mappingCache s) key).
Qed.

Lemma cache_set_returns key lbxId omlId s :
  exists s',
    cache_set key lbxId omlId s = (inr tt, s')
    /\ world s' = world s
    /\ progressLog s' = progressLog s
    /\ (forall key', table_exists key' s -> table_exists key' s')
    /\ (forall key' l, key' <> key \/ l <> lbxId -> cache_get key' l s' = cache_get key' l s)
    /\ (table_exists key s -> cache_get key lbxId s' = Some omlId).
Proof.
  unfold cache_set, table_exists, cache_get.
  destruct (JsMap.get String.eqb (mappingCache s) key) as [mapping |] eqn:G.
  - eexists. split; [reflexivity |]. simpl. repeat split.
    + intros key' E. destruct (String.eqb_spec key key') as [<- | N].
      * now rewrite (get_set_same _ string_eqb_eq).
      * now rewrite (get_set_other _ string_eqb_eq _ _ _ _ N).
    + intros key' l [N | N].
      * rewrite (get_set_other _ string_eqb_eq); [reflexivity | congruence].
      * destruct (String.eqb_spec key key') as [<- | N'].
        -- rewrite (get_set_same _ string_eqb_eq), G.
           rewrite (get_set_other _ Z_eqb_eq); [reflexivity | congruence].
        -- now rewrite (get_set_other _ string_eqb_eq _ _ _ _ N').
    + intros _. rewrite (get_set_same _ string_eqb_eq).
      apply (get_set_same _ Z_eqb_eq).
  - exists s. repeat split; try tauto.
Qed.

(** ** The dictionary loops *)

Section SyncLoop.
Variable key : string.
Variable fetchLightbox : Z -> M LightboxData.
Variable call : Call.
Variable list_remote : list Call -> Error + list Entity.t.
Variable notFound : string -> string.
Hypothesis fetch_pure : forall id s, exists data, fetchLightbox id s = (inr data, s).


(** One iteration: a mapped id is skipped without a request; an unmapped id
    costs one request and, when the loop goes on, is mapped afterwards. *)
Lemma syncOne_cases lbxId s :
  (cache_has key lbxId s = true
   /\ syncOne key fetchLightbox call list_remote notFound lbxId s = (inr tt, s))
  \/ (cache_has key lbxId s = false
      /\ exists r s',
           syncOne key fetchLightbox call list_remote notFound lbxId s = (r, s')
           /\ calls (world s') = (calls (world s) ++ [call])%list
           /\ console (world s') = console (world s)
           /\ ticks (world s') = ticks (world s)
           /\ progressLog s' = progressLog s
           /\ (forall key', table_exists key' s -> table_exists key' s')
           /\ (forall key' l, key' <> key \/ l <> lbxId ->
                 cache_get key' l s' = cache_get key' l s)
           /\ (r = inr tt -> table_exists key s -> cache_has key lbxId s' = true)).
Proof.
  unfold syncOne. destruct (cache_has key lbxId s) eqn:E.
  - left. now split.
  - right. split; [reflexivity |].
    destruct (fetch_pure lbxId s) as [data F]. rewrite (bind_ok _ F).
    unfold bind, request.
    destruct (list_remote (calls (world s))) as [e | [| first rest]].
    + eexists _, _. split; [reflexivity |]. simpl. repeat split; try tauto. discriminate.
    + eexists _, _. split; [reflexivity |]. simpl. repeat split; try tauto. discriminate.
    + match goal with |- context [cache_set key lbxId ?v ?st] =>
        destruct (cache_set_returns key lbxId v st)
          as (s' & C & W & P & T & O & G)
      end.
      exists (inr tt), s'. rewrite C, W, P. simpl. repeat split.
      * intros key' H. now apply T.
      * intros key' l H. now rewrite (O key' l H).
      * intros _ H. rewrite cache_has_get, G; [reflexivity | exact H].
Qed.

Lemma unmapped_ext s1 s2 seen1 seen2 ids :
  (forall y, cache_has key y s1 || existsb (Z.eqb y) seen1
             = cache_has key y s2 || existsb (Z.eqb y) seen2) ->
  unmapped key s1 seen1 ids = unmapped key s2 seen2 ids.
Proof.
  revert seen1 seen2. induction ids as [| x rest IH]; intros seen1 seen2 H; simpl.
  - reflexivity.
  - rewrite (H x). destruct (cache_has key x s2 || existsb (Z.eqb x) seen2).
    + now apply IH.
    + f_equal. apply IH. intros y. simpl. rewrite !orb_assoc.
      rewrite (orb_comm (cache_has key y s1)), (orb_comm (cache_has key y s2)).
      rewrite <- !orb_assoc. now rewrite (H y).
Qed.

(** The whole loop. *)
Lemma for_of_sync ids s r s' :
  for_of ids (syncOne key fetchLightbox call list_remote notFound) s = (r, s') ->
  (forall key' l v, cache_get key' l s = Some v -> cache_get key' l s' = Some v)
  /\ (forall key', table_exists key' s -> table_exists key' s')
  /\ console (world s') = console (world s)
  /\ ticks (world s') = ticks (world s)
  /\ progressLog s' = progressLog s
  /\ (exists n,
        calls (world s') = (calls (world s) ++ repeat call n)%list
        /\ (n <= List.length ids)%nat
        /\ (table_exists key s -> (n <= List.length (unmapped key s [] ids))%nat))
  /\ (r = inr tt -> table_exists key s ->
      forall x, In x ids \/ cache_has key x s = true -> cache_has key x s' = true).
Proof.
  revert s r s'. induction ids as [| x rest IH]; intros s r s' H; simpl in H.
  - injection H as <- <-. repeat split; try tauto.
    + exists 0%nat. simpl. rewrite app_nil_r. repeat split; lia.
    + intros _ _ y [[] | Hy]. exact Hy.
  - destruct (syncOne_cases x s) as [[E B] | [E (r1 & s1 & B & C & Co & Ti & P & T & O & G)]].
    + rewrite (bind_ok _ B) in H. destruct (IH _ _ _ H) as (A1 & A2 & A3 & A4 & A5 & A6 & A7).
      repeat split; try assumption.
      * destruct A6 as (n & Hc & Hn & Hu). exists n. repeat split; [exact Hc | simpl; lia |].
        intros Ht. simpl. rewrite E. simpl. now apply Hu.
      * intros Hr Ht y [[<- | Hy] | Hy]; apply A7; auto.
    + assert (K : forall key' l v, cache_get key' l s = Some v -> cache_get key' l s1 = Some v).
      { intros key' l v Hv. rewrite O; [exact Hv |].
        destruct (String.eqb_spec key' key) as [-> | N]; [| now left].
        right. intros ->. rewrite cache_has_get, Hv in E. discriminate. }
      destruct r1 as [e | []].
      * rewrite (bind_err _ B) in H. injection H as <- <-.
        repeat split; try assumption.
        -- exists 1%nat. repeat split; [exact C | simpl; lia |].
           intros _. simpl. rewrite E. simpl. lia.
        -- discriminate.
      * rewrite (bind_ok _ B) in H.
        destruct (IH _ _ _ H) as (A1 & A2 & A3 & A4 & A5 & A6 & A7).
        repeat split.
        -- intros key' l v Hv. apply A1. now apply K.
        -- intros key' Ht. apply A2. now apply T.
        -- congruence.
        -- congruence.
        -- congruence.
        -- destruct A6 as (n & Hc & Hn & Hu). exists (S n). repeat split.
           ++ rewrite Hc, C. simpl. now rewrite <- app_assoc.
           ++ simpl. lia.
           ++ intros Ht. simpl. rewrite E. simpl.
              specialize (Hu (T _ Ht)).
              rewrite (unmapped_ext s1 s [] [x] rest) in Hu; [lia |].
              intros y. simpl. rewrite !orb_false_r.
              destruct (Z.eqb_spec y x) as [-> | N].
              ** rewrite (G eq_refl Ht). now rewrite orb_true_r.
              ** rewrite !cache_has_get, O; [now rewrite orb_false_r | now right].
        -- intros Hr Ht y Hy. apply A7; [exact Hr | now apply T |].
           destruct Hy as [[<- | Hy] | Hy].
           ++ right. now apply G.
           ++ now left.
           ++ right. rewrite cache_has_get in *.
              destruct (cache_get key y s) as [v |] eqn:Hv; [| discriminate].
              now rewrite (K _ _ _ Hv).
Qed.

Lemma for_of_sync_mapped ids s :
  (forall x, In x ids -> cache_has key x s = true) ->
  for_of ids (syncOne key fetchLightbox call list_remote notFound) s = (inr tt, s).
Proof.
  induction ids as [| x rest IH]; intros H; simpl; [reflexivity |].
  destruct (syncOne_cases x s) as [[E B] | [E _]].
  - rewrite (bind_ok _ B). apply IH. intros y Hy. apply H. now right.
  - rewrite H in E; [discriminate | now left].
Qed.

End SyncLoop.

Lemma unmapped_spec key s seen ids :
  NoDup (unmapped key s seen ids)
  /\ (forall x, In x (unmapped key s seen ids) <->
                In x ids /\ cache_has key x s = false /\ ~ In x seen).
Proof.
  revert seen. induction ids as [| y rest IH]; intros seen; simpl.
  - split; [constructor | intros x; tauto].
  - assert (S : forall l, existsb (Z.eqb y) l = true <-> In y l).
    { intros l. rewrite existsb_exists. split.
      - intros (z & Hz & E). apply Z.eqb_eq in E. now subst.
      - intros H. exists y. split; [exact H | apply Z.eqb_refl]. }
    destruct (cache_has key y s) eqn:E; simpl.
    + destruct (IH seen) as [D I]. split; [exact D |].
      intros x. rewrite I. split; [tauto |].
      intros ([<- | Hx] & Hc & Hs); [congruence | tauto].
    + destruct (existsb (Z.eqb y) seen) eqn:E'.
      * apply S in E'. destruct (IH seen) as [D I]. split; [exact D |].
        intros x. rewrite I. split; [tauto |].
        intros ([<- | Hx] & Hc & Hs); [contradiction | tauto].
      * assert (N : ~ In y seen) by (rewrite <- S; congruence).
        destruct (IH (y :: seen)) as [D I]. split.
        -- constructor; [| exact D]. rewrite I. simpl. tauto.
        -- intros x. simpl. rewrite I. simpl. split.
           ++ intros [<- | (Hx & Hc & Hs)]; tauto.
           ++ intros ([<- | Hx] & Hc & Hs); [now left |].
              destruct (Z.eq_dec y x) as [-> | Ne]; [now left | right; tauto].
Qed.

(** Each sync method is the same loop over its own table and request. *)
Lemma sync_is_loop omlClient t :
  exists fetchLightbox list_remote notFound,
    (forall id s, exists data, fetchLightbox id s = (inr data, s))
    /\ sync omlClient t
       = fun ids => for_of ids (syncOne (entityKey t) fetchLightbox (lookupCall t)
                                  list_remote notFound).
Proof.
  destruct t; eexists _, _, _; (split; [| reflexivity]);
    intros id s; eexists; reflexivity.
Qed.

(** C4: write-once memoization of the identifier cache.  For each of the four
    sync methods, whatever the outcome of the call: (1) an entry that is set
    in any table keeps its value; (2) when every id of the call is already
    mapped, the call issues no request and changes nothing; (3) the requests
    issued are lookups of this dictionary only, at most one for each distinct
    id of the call that had no entry (so an id that occurs twice is looked up
    at most once); (4) after a call that returned, a second call over ids of
    the first call or ids mapped before it issues no request at all. *)
Theorem sync_memoizes
  (omlClient : OpenMediaLogicClient) (t : EntityType) (ids : list Z)
  (s s' : State) (r : Error + unit) :
  sync omlClient t ids s = (r, s') ->
  (forall t' l v,
      cache_get (entityKey t') l s = Some v -> cache_get (entityKey t') l s' = Some v)
  /\ ((forall x, In x ids -> cache_has (entityKey t) x s = true) -> r = inr tt /\ s' = s)
  /\ (table_exists (entityKey t) s ->
      exists n,
        calls (world s') = (calls (world s) ++ repeat (lookupCall t) n)%list
        /\ (n <= List.length (unmapped (entityKey t) s [] ids))%nat
        /\ NoDup (unmapped (entityKey t) s [] ids)
        /\ forall x, In x (unmapped (entityKey t) s [] ids) <->
                     In x ids /\ cache_has (entityKey t) x s = false)
  /\ (r = inr tt -> table_exists (entityKey t) s ->
      forall ids2,
        (forall x, In x ids2 -> In x ids \/ cache_has (entityKey t) x s = true) ->
        sync omlClient t ids2 s' = (inr tt, s')).
Proof.
  destruct (sync_is_loop omlClient t) as (fetch & remote & notFound & Pure & ->).
  intros H.
  destruct (for_of_sync _ _ _ _ _ Pure _ _ _ _ H) as (A1 & A2 & _ & _ & _ & A6 & A7).
  split; [| split; [| split]].
  - intros t' l v. apply A1.
  - intros Hm. rewrite (for_of_sync_mapped _ _ _ _ _ Pure _ _ Hm) in H.
    now injection H as <- <-.
  - intros Ht. destruct A6 as (n & Hc & _ & Hu). exists n.
    destruct (unmapped_spec (entityKey t) s [] ids) as [D I].
    split; [exact Hc |]. split; [now apply Hu |]. split; [exact D |].
    intros x. rewrite I. simpl. tauto.
  - intros Hr Ht ids2 H2. apply (for_of_sync_mapped _ _ _ _ _ Pure).
    intros x Hx. apply A7; auto.
Qed.

(** Witness of C4: brands 401, 401 and 402 on a fresh instance cost two
    lookups, and a second call over 402 and 401 costs none. *)
Lemma sync_memoizes_witness :
  let s := constructor Sample.world0 in
  let s' := snd (sync Sample.omlClient brands [401; 401; 402] s) in
  calls (world s') = [GetBrands; GetBrands]
  /\ sync Sample.omlClient brands [402; 401] s' = (inr tt, s').
Proof.
  intros s s'.
  destruct (sync_memoizes Sample.omlClient brands [401; 401; 402] s s' (inr tt))
    as (_ & _ & H3 & H4).
  - vm_compute. reflexivity.
  - split.
    + vm_compute. reflexivity.
    + apply H4; [reflexivity | vm_compute; discriminate |].
      simpl. intros x [<- | [<- | []]]; left; tauto.
Defined.

(** The constructor creates the four tables, empty. *)
Lemma constructor_tables w t l :
  table_exists (entityKey t) (constructor w)
  /\ cache_get (entityKey t) l (constructor w) = None.
Proof. destruct t; split; try discriminate; reflexivity. Qed.

(** ** The shape of the cache is kept *)

Section PreservesFacts.
Variable P : State -> Prop.

Lemma preserves_ret {A : Type} (a : A) : Preserves P (ret a).
Proof. intros s r s' H [= <- <-]. exact H. Qed.

Lemma preserves_throw {A : Type} (e : Error) : Preserves P (throw (A := A) e).
Proof. intros s r s' H [= <- <-]. exact H. Qed.

Lemma preserves_bind {A B : Type} (c : M A) (k : A -> M B) :
  Preserves P c -> (forall a, Preserves P (k a)) -> Preserves P (bind c k).
Proof.
  intros Hc Hk s r s' H E. unfold bind in E.
  destruct (c s) as [[e | a] s1] eqn:C.
  - injection E as <- <-. now apply (Hc _ _ _ H C).
  - apply (Hk a _ _ _ (Hc _ _ _ H C) E).
Qed.

Lemma preserves_try {A : Type} (c : M A) (h : Error -> M A) :
  Preserves P c -> (forall e, Preserves P (h e)) -> Preserves P (try_catch c h).
Proof.
  intros Hc Hh s r s' H E. unfold try_catch in E.
  destruct (c s) as [[e | a] s1] eqn:C.
  - apply (Hh e _ _ _ (Hc _ _ _ H C) E).
  - injection E as <- <-. now apply (Hc _ _ _ H C).
Qed.

Lemma preserves_for_of {A : Type} (xs : list A) (body : A -> M unit) :
  (forall x, Preserves P (body x)) -> Preserves P (for_of xs body).
Proof.
  intros Hb. induction xs as [| x rest IH]; simpl.
  - apply preserves_ret.
  - apply preserves_bind; [apply Hb | intros _; exact IH].
Qed.

Lemma preserves_for_of_with {A B : Type} (xs : list A) (body : A -> B -> M B) (acc : B) :
  (forall x b, Preserves P (body x b)) -> Preserves P (for_of_with xs body acc).
Proof.
  intros Hb. revert acc. induction xs as [| x rest IH]; intros acc; simpl.
  - apply preserves_ret.
  - apply preserves_bind; [apply Hb | intros b; apply IH].
Qed.

End PreservesFacts.

Lemma wellFormed_same_cache s s' :
  mappingCache s' = mappingCache s -> wellFormed s -> wellFormed s'.
Proof. unfold wellFormed, table_exists. intros ->. tauto. Qed.

Lemma preserves_same_cache {A : Type} (c : M A) :
  (forall s, mappingCache (snd (c s)) = mappingCache s) -> Preserves wellFormed c.
Proof.
  intros H s r s' W E. apply (wellFormed_same_cache s); [| exact W].
  specialize (H s). now rewrite E in H.
Qed.

Lemma preserves_request {A : Type} (c : Call) (respond : list Call -> Error + A) :
  Preserves wellFormed (request c respond).
Proof. now apply preserves_same_cache. Qed.

Lemma preserves_print (line : ConsoleLine) : Preserves wellFormed (print line).
Proof. now apply preserves_same_cache. Qed.

Lemma preserves_cache_set key lbxId omlId :
  Preserves wellFormed (cache_set key lbxId omlId).
Proof.
  intros s r s' [T D] E. unfold cache_set in E.
  destruct (JsMap.get String.eqb (mappingCache s) key) as [mapping |] eqn:G.
  - injection E as _ <-. split.
    + intros t. unfold table_exists. simpl.
      destruct (String.eqb_spec key (entityKey t)) as [<- | N].
      * now rewrite (get_set_same _ string_eqb_eq).
      * rewrite (get_set_other _ string_eqb_eq _ _ _ _ N). apply T.
    + intros key' mapping'. simpl.
      destruct (String.eqb_spec key key') as [<- | N].
      * rewrite (get_set_same _ string_eqb_eq). intros [= <-].
        apply set_NoDup; [exact Z_eqb_eq | now apply (D key)].
      * rewrite (get_set_other _ string_eqb_eq _ _ _ _ N). apply D.
  - injection E as _ <-. now split.
Qed.

Lemma preserves_syncOne key fetchLightbox call list_remote notFound lbxId :
  (forall id, Preserves wellFormed (fetchLightbox id)) ->
  Preserves wellFormed (syncOne key fetchLightbox call list_remote notFound lbxId).
Proof.
  intros F s r s' W E. unfold syncOne in E.
  destruct (cache_has key lbxId s).
  - injection E as _ <-. exact W.
  - revert s r s' W E. apply preserves_bind; [apply F |]. intros data.
    apply preserves_bind; [apply preserves_request |].
    intros [| first rest]; [apply preserves_throw | apply preserves_cache_set].
Qed.

Lemma preserves_sync omlClient t ids : Preserves wellFormed (sync omlClient t ids).
Proof.
  destruct t; apply preserves_for_of; intros x; apply preserves_syncOne;
    intros id; apply preserves_ret.
Qed.

Lemma preserves_syncReferenceDictionaries omlClient campaign creatives :
  Preserves wellFormed (syncReferenceDictionaries omlClient campaign creatives).
Proof.
  apply preserves_try; [| intros e; apply preserves_throw].
  apply preserves_bind; [exact (preserves_sync omlClient advertisers _) | intros _].
  apply preserves_bind; [exact (preserves_sync omlClient brands _) | intros _].
  apply preserves_bind; [exact (preserves_sync omlClient channels _) | intros _].
  exact (preserves_sync omlClient targetAudiences _).
Qed.

Lemma preserves_logProgress now config step progress message :
  progressCallback config = Some consoleProgress ->
  Preserves wellFormed (logProgress now config step progress message).
Proof.
  intros H. apply preserves_same_cache. intros s.
  now rewrite (logProgress_console _ _ _ _ _ _ H).
Qed.

Lemma preserves_authenticate omlClient config :
  Preserves wellFormed (authenticate omlClient config).
Proof.
  apply preserves_try; [apply preserves_request | intros e; apply preserves_throw].
Qed.

Lemma preserves_getMappedIdOrThrow entityType lbxId :
  Preserves wellFormed (getMappedIdOrThrow entityType lbxId).
Proof.
  apply preserves_same_cache. intros s. unfold getMappedIdOrThrow.
  destruct (JsMap.get String.eqb (mappingCache s) entityType) as [mapping |];
    [| reflexivity].
  now destruct (JsMap.get Z.eqb mapping lbxId).
Qed.

Lemma preserves_findBlocksForPlacement omlClient start_date end_date :
  Preserves wellFormed (findBlocksForPlacement omlClient start_date end_date).
Proof.
  apply preserves_try; [| intros e; apply preserves_throw].
  apply preserves_bind; [apply preserves_getMappedIdOrThrow | intros omlChannelId].
  apply preserves_bind; [apply preserves_request | intros grid].
  apply preserves_for_of_with. intros date blocks.
  apply preserves_for_of_with. intros programRelease blocks'.
  unfold scanProgramRelease.
  destruct (ProgramRelease.blocks programRelease) as [[| b bs] |];
    try apply preserves_ret.
  apply preserves_for_of_with. intros slot blocks''.
  apply preserves_bind; [apply preserves_request | intros fullBlock; apply preserves_ret].
Qed.

Lemma preserves_findAndMapCommercials omlClient creatives :
  Preserves wellFormed (findAndMapCommercials omlClient creatives).
Proof.
  apply preserves_try; [| intros e; apply preserves_throw].
  apply preserves_bind; [apply preserves_request | intros catalog; apply preserves_ret].
Qed.

Lemma preserves_reserveSpots omlClient config block :
  Preserves wellFormed (reserveSpots omlClient config block).
Proof.
  apply preserves_try; [| intros e; apply preserves_throw].
  apply preserves_bind; [apply preserves_request | intros mediaplans]. cbv zeta.
  destruct (firstCommercial _) as [commercial |];
    [| apply preserves_bind; [apply preserves_print | intros _; apply preserves_ret]].
  destruct (find _ mediaplans) as [mediaplan |];
    [| apply preserves_bind; [apply preserves_print | intros _; apply preserves_ret]].
  apply preserves_bind; [| intros [result |]; apply preserves_ret].
  apply preserves_try.
  - apply preserves_bind; [apply preserves_request | intros _; apply preserves_ret].
  - intros e. apply preserves_bind; [now apply preserves_same_cache | intros token].
    apply preserves_bind; [apply preserves_print | intros _].
    apply preserves_bind; [apply preserves_print | intros _; apply preserves_ret].
Qed.

Lemma preserves_handleCampaignPublish omlClient now config campaign creatives :
  progressCallback config = Some consoleProgress ->
  Preserves wellFormed (handleCampaignPublish omlClient now config campaign creatives).
Proof.
  intros H.
  pose proof (fun step progress message =>
                preserves_logProgress now config step progress message H) as L.
  apply preserves_try.
  - apply preserves_bind; [apply L | intros _].
    apply preserves_bind; [apply preserves_authenticate | intros _].
    apply preserves_bind; [apply L | intros _].
    apply preserves_bind; [apply preserves_syncReferenceDictionaries | intros _].
    apply preserves_bind; [apply L | intros _].
    apply preserves_bind; [apply preserves_findBlocksForPlacement | intros blocks].
    apply preserves_bind; [apply L | intros _].
    apply preserves_bind; [apply preserves_findAndMapCommercials | intros commercials].
    apply preserves_bind; [apply L | intros _].
    apply preserves_bind; [apply preserves_reserveSpots | intros spots].
    apply preserves_bind; [apply L | intros _].
    apply preserves_bind; [apply L | intros _; apply preserves_ret].
  - intros e. apply preserves_bind; [apply L | intros _].
    apply preserves_bind; [now apply preserves_same_cache | intros d; apply preserves_ret].
Qed.

Lemma constructor_wellFormed w : wellFormed (constructor w).
Proof.
  split.
  - intros t. apply (constructor_tables w t 0).
  - intros key mapping.
    assert (E : mappingCache (constructor w)
                = [("advertisers", []); ("brands", []); ("channels", []);
                   ("targetAudiences", [])]) by reflexivity.
    rewrite E. cbn [JsMap.get].
    destruct (String.eqb "advertisers" key); [intros [= <-]; constructor |].
    destruct (String.eqb "brands" key); [intros [= <-]; constructor |].
    destruct (String.eqb "channels" key); [intros [= <-]; constructor |].
    destruct (String.eqb "targetAudiences" key); [intros [= <-]; constructor |].
    discriminate.
Qed.

(** Every state of a service instance has the four tables, each with unique
    keys: the hypotheses of C4 and C9 on the table hold in every run. *)
Lemma reachable_wellFormed omlClient now processEnv s :
  Reachable omlClient now processEnv s -> wellFormed s.
Proof.
  induction 1 as [w | s payload r s' _ IH E].
  - apply constructor_wellFormed.
  - unfold IntegrationController.publishCampaign in E.
    apply (preserves_handleCampaignPublish omlClient now
             (EnvConfig.getOmlConfig processEnv) _ _ eq_refl _ _ _ IH E).
Qed.

(** ** Reverse lookup *)

Lemma strict_eq_true (a : option Z) (b : Z) : strict_eq a b = true <-> a = Some b.
Proof.
  unfold strict_eq. destruct a as [x |]; [| split; discriminate].
  rewrite Z.eqb_eq. split; congruence.
Qed.

(** C9: [getReverseMappedId] returns a local id whose entry in the table of
    the entity type holds the given remote id, and null exactly when no entry
    of the table holds it (in particular when the entity type has no table);
    when the table is injective the local id returned is the only one mapped
    to that remote id.  For a table with unique keys, as every [Map] has,
    holding an entry is the same as [get] returning the remote id. *)
Theorem getReverseMappedId_unique (s : State) (entityType : string) (omlId : Z) :
  match JsMap.get String.eqb (mappingCache s) entityType with
  | None => getReverseMappedId entityType omlId s = None
  | Some mapping =>
      (forall lbxId,
          getReverseMappedId entityType omlId s = Some lbxId ->
          mapsTo mapping lbxId omlId
          /\ (injective mapping -> forall l, mapsTo mapping l omlId -> l = lbxId))
      /\ (getReverseMappedId entityType omlId s = None <->
          forall l, ~ mapsTo mapping l omlId)
      /\ (NoDup (JsMap.keys mapping) ->
          forall l, mapsTo mapping l omlId <-> cache_get entityType l s = Some (Some omlId))
  end.
Proof.
  unfold getReverseMappedId, cache_get, mapsTo.
  destruct (JsMap.get String.eqb (mappingCache s) entityType) as [mapping |];
    [| reflexivity].
  destruct (find (fun entry => strict_eq (snd entry) omlId) (JsMap.entries mapping))
    as [[l0 v0] |] eqn:F.
  - apply find_some in F. destruct F as [I E]. simpl in E.
    apply strict_eq_true in E. subst v0. split; [| split].
    + intros lbxId [= <-]. split; [exact I |].
      intros Inj l Hl. now apply (Inj l l0 omlId).
    + split; [discriminate |]. intros N. exfalso. now apply (N l0).
    + intros D l. split; [apply (In_get _ Z_eqb_eq _ _ _ D) | apply (get_In _ Z_eqb_eq)].
  - split; [| split].
    + discriminate.
    + split; [| reflexivity]. intros _ l Hl.
      pose proof (find_none _ _ F _ Hl) as N. simpl in N.
      rewrite Z.eqb_refl in N. discriminate.
    + intros D l. split; [apply (In_get _ Z_eqb_eq _ _ _ D) | apply (get_In _ Z_eqb_eq)].
Qed.

(** Witness of C9: after the sample run the channel table maps 9 to 3. *)
Lemma getReverseMappedId_unique_witness :
  let s := snd (syncChannels Sample.omlClient [9] (constructor Sample.world0)) in
  getReverseMappedId "channels" 3 s = Some 9
  /\ (forall l, mapsTo [(9, Some 3)] l 3 -> l = 9)
  /\ cache_get "channels" 9 s = Some (Some 3).
Proof.
  intros s.
  pose proof (getReverseMappedId_unique s "channels" 3) as H.
  change (JsMap.get String.eqb (mappingCache s) "channels") with (Some [(9, Some 3)]) in H.
  destruct H as (H1 & _ & H3).
  destruct (H1 9 eq_refl) as [M U].
  split; [reflexivity |]. split.
  - apply U. intros l1 l2 r [[= <- _] | []] [[= <- _] | []]. reflexivity.
  - apply H3; [| exact M]. repeat constructor. intros [].
Defined.

(** ** Block search *)

Section BlockSearch.
Variable omlClient : OpenMediaLogicClient.

Lemma Fetched_refl s acc : Fetched omlClient s acc [] acc s.
Proof. exists []. simpl. rewrite !app_nil_r. repeat split. constructor. Qed.

Lemma Fetched_trans s acc r1 b1 s1 r2 b2 s2 :
  Fetched omlClient s acc r1 b1 s1 ->
  Fetched omlClient s1 b1 r2 b2 s2 ->
  Fetched omlClient s acc (r1 ++ r2) b2 s2.
Proof.
  intros (c1 & E1 & F1 & C1 & O1 & T1 & M1 & P1) (c2 & E2 & F2 & C2 & O2 & T2 & M2 & P2).
  exists (c1 ++ c2)%list. repeat split; try congruence.
  - rewrite E2, E1, concat_app, app_assoc. reflexivity.
  - now apply Forall2_app.
  - rewrite C2, C1, flat_map_app. unfold slotCalls. rewrite map_app, app_assoc.
    reflexivity.
Qed.

Lemma fetchSlot_loop slots acc s blocks s' :
  for_of_with slots (fetchSlot omlClient) acc s = (inr blocks, s') ->
  exists answers,
    blocks = (acc ++ answers)%list
    /\ Forall2 (detailOf omlClient) slots answers
    /\ calls (world s') = (calls (world s) ++ slotCalls slots)%list
    /\ console (world s') = console (world s)
    /\ ticks (world s') = ticks (world s)
    /\ mappingCache s' = mappingCache s
    /\ progressLog s' = progressLog s.
Proof.
  revert acc s. induction slots as [| slot rest IH]; intros acc s H; simpl in H.
  - injection H as <- <-. exists []. simpl. rewrite !app_nil_r. repeat split. constructor.
  - unfold bind at 1, fetchSlot at 1, bind at 1, request at 1 in H.
    destruct (getBlockById omlClient (calls (world s)) (BlockWithGrps.block_id slot))
      as [e | answer] eqn:G; [discriminate |].
    unfold ret at 1 in H.
    destruct (IH _ _ H) as (answers & E & F & C & O & T & M & P).
    exists (answer :: answers). repeat split; try assumption.
    + rewrite E, <- app_assoc. reflexivity.
    + constructor; [| exact F]. now exists (calls (world s)).
    + rewrite C. simpl. rewrite <- app_assoc. reflexivity.
Qed.

Lemma Fetched_single s acc programRelease answers s' :
  Forall2 (detailOf omlClient) (availableSlots programRelease) answers ->
  calls (world s') = (calls (world s) ++ slotCalls (availableSlots programRelease))%list ->
  console (world s') = console (world s) ->
  ticks (world s') = ticks (world s) ->
  mappingCache s' = mappingCache s ->
  progressLog s' = progressLog s ->
  Fetched omlClient s acc [programRelease] (acc ++ answers) s'.
Proof.
  intros F C O T M P. exists [answers]. simpl. rewrite !app_nil_r.
  repeat split; try assumption. constructor; [exact F | constructor].
Qed.

Lemma scanProgramRelease_fetched programRelease acc s blocks s' :
  scanProgramRelease omlClient programRelease acc s = (inr blocks, s') ->
  Fetched omlClient s acc [programRelease] blocks s'.
Proof.
  unfold scanProgramRelease. intros H.
  destruct (ProgramRelease.blocks programRelease) as [[| b bs] |] eqn:E0.
  - injection H as <- <-. rewrite <- (app_nil_r acc) at 2.
    apply Fetched_single; try reflexivity; unfold availableSlots; rewrite E0; simpl;
      [constructor | now rewrite app_nil_r].
  - apply fetchSlot_loop in H.
    destruct H as (answers & -> & F & C & O & T & M & P).
    apply Fetched_single; unfold availableSlots; try rewrite E0; assumption.
  - injection H as <- <-. rewrite <- (app_nil_r acc) at 2.
    apply Fetched_single; try reflexivity; unfold availableSlots; rewrite E0; simpl;
      [constructor | now rewrite app_nil_r].
Qed.

Lemma for_of_with_fetched {A : Type} (items : A -> list ProgramRelease.t)
  (body : A -> list Block.t -> M (list Block.t)) :
  (forall x acc s blocks s',
      body x acc s = (inr blocks, s') -> Fetched omlClient s acc (items x) blocks s') ->
  forall xs acc s blocks s',
    for_of_with xs body acc s = (inr blocks, s') ->
    Fetched omlClient s acc (flat_map items xs) blocks s'.
Proof.
  intros Hbody xs. induction xs as [| x rest IH]; intros acc s blocks s' H; simpl in H.
  - injection H as <- <-. apply Fetched_refl.
  - unfold bind at 1 in H. destruct (body x acc s) as [[e | acc1] s1] eqn:B; [discriminate |].
    simpl. apply Fetched_trans with acc1 s1; [now apply Hbody | now apply IH].
Qed.

Lemma flat_map_singleton {A : Type} (xs : list A) : flat_map (fun x => [x]) xs = xs.
Proof. induction xs as [| x rest IH]; simpl; [| rewrite IH]; reflexivity. Qed.

Lemma scanDate_fetched grid date acc s blocks s' :
  scanDate omlClient grid date acc s = (inr blocks, s') ->
  Fetched omlClient s acc (releasesOn grid date) blocks s'.
Proof.
  unfold scanDate. fold (releasesOn grid date). intros H.
  apply (for_of_with_fetched (fun programRelease => [programRelease])) in H.
  - now rewrite flat_map_singleton in H.
  - apply scanProgramRelease_fetched.
Qed.

Lemma getMappedIdOrThrow_cache entityType lbxId s omlId s' :
  getMappedIdOrThrow entityType lbxId s = (inr omlId, s') ->
  s' = s /\ cache_get entityType lbxId s = Some omlId.
Proof.
  unfold getMappedIdOrThrow, cache_get.
  destruct (JsMap.get String.eqb (mappingCache s) entityType) as [mapping |];
    [| discriminate].
  destruct (JsMap.get Z.eqb mapping lbxId); [| discriminate].
  intros [= <- <-]. now split.
Qed.

Lemma availableSlots_length programRelease :
  (List.length (availableSlots programRelease) <= 5)%nat.
Proof.
  unfold availableSlots. destruct (ProgramRelease.blocks programRelease).
  - apply firstn_le_length.
  - simpl. lia.
Qed.

Lemma chunks_bounded releases (chunks : list (list Block.t)) :
  Forall2 (fun programRelease chunk =>
             Forall2 (detailOf omlClient) (availableSlots programRelease) chunk)
    releases chunks ->
  Forall2 (fun programRelease chunk =>
             Forall2 (detailOf omlClient) (availableSlots programRelease) chunk
             /\ (List.length chunk <= 5)%nat) releases chunks
  /\ (List.length (List.concat chunks) <= 5 * List.length releases)%nat.
Proof.
  induction 1 as [| r chunk rs cs F _ [IH1 IH2]]; simpl.
  - split; [constructor | lia].
  - assert (L : (List.length chunk <= 5)%nat).
    { rewrite <- (Forall2_length F). apply availableSlots_length. }
    split; [constructor; [now split | exact IH1] |].
    rewrite length_app. lia.
Qed.

End BlockSearch.

(** C8: [findBlocksForPlacement] takes the first five slots of each
    program-release entry, in grid order.  Whenever it returns, the channel 9
    was mapped, the platform answered the booking request with a grid, and the
    result is the concatenation, over the program-release entries of the grid
    (dates in order, releases of a date in order), of one chunk per entry: the
    platform's detail answers about the entry's first five slot records, in
    slot order, hence at most five blocks per entry.  The detail requests were
    issued in that same order. *)
Theorem findBlocksForPlacement_first_five
  (omlClient : OpenMediaLogicClient) (start_date end_date : string)
  (s s' : State) (blocks : list Block.t) :
  findBlocksForPlacement omlClient start_date end_date s = (inr blocks, s') ->
  exists omlChannelId grid chunks,
    cache_get "channels" 9 s = Some omlChannelId
    /\ getChannelBooking omlClient (calls (world s)) omlChannelId start_date end_date
       = inr grid
    /\ blocks = List.concat chunks
    /\ Forall2 (fun programRelease chunk =>
                  Forall2 (detailOf omlClient) (availableSlots programRelease) chunk
                  /\ (List.length chunk <= 5)%nat)
         (gridReleases grid) chunks
    /\ (List.length blocks <= 5 * List.length (gridReleases grid))%nat
    /\ calls (world s')
       = (calls (world s)
          ++ GetChannelBooking omlChannelId start_date end_date
             :: slotCalls (gridSlots grid))%list.
Proof.
  unfold findBlocksForPlacement, try_catch. intros H.
  match type of H with
  | context [bind ?c ?k s] => destruct (bind c k s) as [[e | found] s1] eqn:B
  end; [discriminate |].
  injection H as -> ->. unfold bind at 1 in B.
  destruct (getMappedIdOrThrow "channels" 9 s) as [[e | omlChannelId] s0] eqn:G;
    [discriminate |].
  apply getMappedIdOrThrow_cache in G. destruct G as [-> G].
  unfold bind at 1, request at 1 in B.
  destruct (getChannelBooking omlClient (calls (world s)) omlChannelId start_date end_date)
    as [e | grid] eqn:Hgrid; [discriminate |].
  apply (for_of_with_fetched omlClient (releasesOn grid)) in B;
    [| intros x acc s1 b1 s2; apply scanDate_fetched].
  destruct B as (chunks & E & F & C & _).
  destruct (chunks_bounded omlClient _ _ F) as [F' L].
  exists omlChannelId, grid, chunks. simpl in E. subst blocks.
  repeat split; try assumption.
  rewrite C. simpl. rewrite <- app_assoc. reflexivity.
Qed.

(** A loop returns when its body always does. *)
Lemma for_of_with_returns {A B : Type} (xs : list A) (body : A -> B -> M B) :
  (forall x acc s, exists acc' s', body x acc s = (inr acc', s')) ->
  forall acc s, exists acc' s', for_of_with xs body acc s = (inr acc', s').
Proof.
  intros Hb. induction xs as [| x rest IH]; intros acc s; simpl.
  - now exists acc, s.
  - destruct (Hb x acc s) as (acc1 & s1 & E). rewrite (bind_ok _ E). apply IH.
Qed.

(** [findBlocksForPlacement] does return when the channel 9 is mapped, the
    booking request is answered and every detail request is answered. *)
Lemma findBlocksForPlacement_returns omlClient start_date end_date s omlChannelId grid :
  cache_get "channels" 9 s = Some omlChannelId ->
  getChannelBooking omlClient (calls (world s)) omlChannelId start_date end_date
  = inr grid ->
  (forall history id, exists fullBlock, getBlockById omlClient history id = inr fullBlock) ->
  exists blocks s',
    findBlocksForPlacement omlClient start_date end_date s = (inr blocks, s').
Proof.
  intros G H D.
  assert (Slot : forall slot acc st,
             exists acc' st', fetchSlot omlClient slot acc st = (inr acc', st')).
  { intros slot acc st. unfold fetchSlot, bind, request, ret.
    destruct (D (calls (world st)) (BlockWithGrps.block_id slot)) as [b ->].
    now eexists _, _. }
  assert (Release : forall programRelease acc st,
             exists acc' st',
               scanProgramRelease omlClient programRelease acc st = (inr acc', st')).
  { intros programRelease acc st. unfold scanProgramRelease.
    destruct (ProgramRelease.blocks programRelease) as [[| b bs] |];
      try (now exists acc, st).
    now apply for_of_with_returns. }
  assert (G' : getMappedIdOrThrow "channels" 9 s = (inr omlChannelId, s)).
  { unfold cache_get in G. unfold getMappedIdOrThrow.
    destruct (JsMap.get String.eqb (mappingCache s) "channels") as [mapping |];
      [| discriminate].
    now rewrite G. }
  destruct (for_of_with_returns (map fst grid) (scanDate omlClient grid)
              (fun date acc st =>
                 for_of_with_returns _ (scanProgramRelease omlClient) Release acc st)
              [] (issued (GetChannelBooking omlChannelId start_date end_date) s))
    as (blocks & s' & E).
  exists blocks, s'. unfold findBlocksForPlacement. apply try_ok.
  rewrite (bind_ok _ G'). unfold bind at 1, request at 1. rewrite H. exact E.
Qed.

(** Witness of C8: the sample grid (a release of seven slots, a release of
    two, a date without releases) gives 5 + 2 blocks. *)
Lemma findBlocksForPlacement_first_five_witness :
  let s := snd (syncChannels Sample.omlClient [9] (constructor Sample.world0)) in
  exists chunks,
    fst (findBlocksForPlacement Sample.omlClient "2025-04-24" "2025-04-30" s)
    = inr (List.concat chunks)
    /\ Forall2 (fun programRelease chunk =>
                  Forall2 (detailOf Sample.omlClient) (availableSlots programRelease) chunk
                  /\ (List.length chunk <= 5)%nat)
         (gridReleases Sample.grid) chunks.
Proof.
  intros s.
  destruct (findBlocksForPlacement Sample.omlClient "2025-04-24" "2025-04-30" s)
    as [[e | blocks] s'] eqn:H; [vm_compute in H; discriminate |].
  destruct (findBlocksForPlacement_first_five _ _ _ _ _ _ H)
    as (ch & grid & chunks & _ & Hg & -> & F & _).
  injection Hg as <-. exists chunks. split; [reflexivity | exact F].
Defined.

(** ** Creatives and commercials *)

Lemma fold_matchCreative catalog creatives acc :
  fold_left (matchCreative catalog) creatives acc
  = (acc ++ flat_map (firstMatch catalog) creatives)%list.
Proof.
  revert acc. induction creatives as [| c rest IH]; intros acc; simpl.
  - now rewrite app_nil_r.
  - rewrite IH. unfold matchCreative, firstMatch.
    destruct (find _ catalog); simpl; [now rewrite <- app_assoc | reflexivity].
Qed.

Lemma firstMatch_In catalog creative el :
  In el (firstMatch catalog creative) ->
  In el catalog /\ Commercial.id el = Some (Creative.id creative).
Proof.
  unfold firstMatch.
  destruct (find _ catalog) as [found |] eqn:F; [| intros []].
  intros [<- | []]. apply find_some in F. destruct F as [I E].
  split; [exact I | now apply strict_eq_true].
Qed.

(** The trigger's variant takes the whole catalog. *)
Lemma trigger_findAndMapCommercials omlClient creatives s catalog :
  getCommercials omlClient (calls (world s)) None = inr catalog ->
  LightboxCampaignTrigger.findAndMapCommercials omlClient creatives s
  = (inr catalog, issued (GetCommercials None) s).
Proof.
  intros H.
  unfold LightboxCampaignTrigger.findAndMapCommercials, try_catch, bind, request.
  rewrite H. now destruct catalog.
Qed.

(** C1, as the code has it: [findAndMapCommercials] matches by id equality
    and takes, for each creative in order, the first record of the catalog
    whose id is the creative's id (a creative without such a record gives
    nothing).  Every record returned is a record of the catalog whose id is
    the id of some creative; when no two records of the catalog share an id,
    the records returned are exactly those; and given creatives with the ids
    201 and 202 and a catalog of one record with the id 201, exactly that
    record is returned.  (The method of the same name in the earlier trigger
    does not match at all: it returns the whole catalog.) *)
Theorem findAndMapCommercials_first_match :
  (forall (omlClient : OpenMediaLogicClient) (creatives : list Creative.t) (s : State)
          (catalog : list Commercial.t),
      getCommercials omlClient (calls (world s)) (Some 10000) = inr catalog ->
      exists matched,
        findAndMapCommercials omlClient creatives s
        = (inr matched, issued (GetCommercials (Some 10000)) s)
        /\ matched = flat_map (firstMatch catalog) creatives
        /\ (forall el, In el matched -> In el catalog /\ matchesCreative creatives el)
        /\ ((forall a b id,
                In a catalog -> In b catalog ->
                Commercial.id a = Some id -> Commercial.id b = Some id -> a = b) ->
            forall el, In el matched <-> In el catalog /\ matchesCreative creatives el)
        /\ (forall record first second,
              catalog = [record] -> creatives = [first; second] ->
              Commercial.id record = Some 201 ->
              Creative.id first = 201 -> Creative.id second = 202 ->
              matched = [record]))
  /\ (forall (omlClient : OpenMediaLogicClient) (creatives : list Creative.t) (s : State)
             (catalog : list Commercial.t),
         getCommercials omlClient (calls (world s)) None = inr catalog ->
         LightboxCampaignTrigger.findAndMapCommercials omlClient creatives s
         = (inr catalog, issued (GetCommercials None) s)).
Proof.
  split; [| exact trigger_findAndMapCommercials].
  intros omlClient creatives s catalog H.
  exists (flat_map (firstMatch catalog) creatives).
  assert (Sound : forall el,
             In el (flat_map (firstMatch catalog) creatives) ->
             In el catalog /\ matchesCreative creatives el).
  { intros el Hel. apply in_flat_map in Hel. destruct Hel as (c & Hc & Hel).
    apply firstMatch_In in Hel. destruct Hel as [I E].
    split; [exact I | now exists c]. }
  split; [| split; [reflexivity | split; [exact Sound | split]]].
  - unfold findAndMapCommercials, try_catch, bind, request. rewrite H.
    unfold ret. now rewrite fold_matchCreative.
  - intros U el. split; [apply Sound |].
    intros [I (c & Hc & E)]. apply in_flat_map. exists c. split; [exact Hc |].
    unfold firstMatch.
    destruct (find (fun el0 => strict_eq (Commercial.id el0) (Creative.id c)) catalog)
      as [found |] eqn:F.
    + apply find_some in F. destruct F as [I' E']. apply strict_eq_true in E'.
      left. now apply (U found el (Creative.id c)).
    + pose proof (find_none _ _ F _ I) as N. simpl in N.
      now rewrite (proj2 (strict_eq_true _ _) E) in N.
  - intros record first second -> -> Hr H1 H2. simpl. unfold firstMatch. simpl.
    rewrite Hr, H1, H2. reflexivity.
Qed.

(** Witness of C1: the sample creatives 201 and 202 against the sample
    catalog, whose only record has the id 201. *)
Lemma findAndMapCommercials_first_match_witness :
  exists s',
    findAndMapCommercials Sample.omlClient Sample.creatives (constructor Sample.world0)
    = (inr [Sample.commercial 201 "Summer Promo 30s"], s').
Proof.
  destruct (proj1 findAndMapCommercials_first_match Sample.omlClient Sample.creatives
              (constructor Sample.world0) [Sample.commercial 201 "Summer Promo 30s"]
              eq_refl) as (matched & H & _ & _ & _ & E).
  rewrite (E _ _ _ eq_refl eq_refl eq_refl eq_refl eq_refl) in H.
  eexists. exact H.
Defined.

(** C1 as stated fails: with two records of the id 201 in the catalog, the
    second is a record of the catalog whose id is the id of the creative, and
    it is not returned. *)
Lemma findAndMapCommercials_exactly_counterexample :
  let catalog := [Sample.commercial 201 "Summer Promo 30s";
                  Sample.commercial 201 "Summer Promo 30s (recut)"] in
  let creatives := [Sample.creative 201 "Summer Promo 30s" 30] in
  getCommercials Sample.twoRecords [] (Some 10000) = inr catalog
  /\ fst (findAndMapCommercials Sample.twoRecords creatives (constructor Sample.world0))
     = inr [Sample.commercial 201 "Summer Promo 30s"]
  /\ In (Sample.commercial 201 "Summer Promo 30s (recut)") catalog
  /\ matchesCreative creatives (Sample.commercial 201 "Summer Promo 30s (recut)")
  /\ ~ In (Sample.commercial 201 "Summer Promo 30s (recut)")
         [Sample.commercial 201 "Summer Promo 30s"].
Proof.
  intros catalog creatives. split; [reflexivity |]. split; [reflexivity |].
  split; [right; left; reflexivity |]. split.
  - exists (Sample.creative 201 "Summer Promo 30s" 30). split; [left |]; reflexivity.
  - intros [E | []]. discriminate E.
Qed.

(** ** Authentication *)

Lemma authenticate_effect omlClient config s r s' :
  authenticate omlClient config s = (r, s') ->
  calls (world s')
  = (calls (world s) ++ [Login (omlUsername config) (omlPassword config)])%list
  /\ console (world s') = console (world s)
  /\ ticks (world s') = ticks (world s)
  /\ mappingCache s' = mappingCache s
  /\ progressLog s' = progressLog s.
Proof.
  unfold authenticate, try_catch, request, throw.
  destruct (login omlClient (calls (world s)) (omlUsername config) (omlPassword config));
    intros [= <- <-]; repeat split.
Qed.

(** ** The pipeline *)

Section Pipeline.
Variable omlClient : OpenMediaLogicClient.
Variable now : nat -> string.
Variable processEnv : string -> option string.
Variables (campaign : Campaign.t) (creatives : list Creative.t).

Lemma pipeline_raises s e s' :
  StepRaises omlClient now (EnvConfig.getOmlConfig processEnv) campaign creatives s e s' ->
  pipeline omlClient now (EnvConfig.getOmlConfig processEnv) campaign creatives s
  = (inl e, s').
Proof.
  intros H. unfold pipeline. log_step.
  destruct H as [H | s1 [H1] H | s2 [s1 [H1] H2] H
                | blocks s3 [s2 [s1 [H1] H2] H3] H
                | blocks commercials s4 [s3 [s2 [s1 [H1] H2] H3] H4] H].
  - err_step H. reflexivity.
  - ok_step H1. log_step. err_step H. reflexivity.
  - ok_step H1. log_step. ok_step H2. log_step. err_step H. reflexivity.
  - ok_step H1. log_step. ok_step H2. log_step. ok_step H3. log_step.
    err_step H. reflexivity.
  - ok_step H1. log_step. ok_step H2. log_step. ok_step H3. log_step.
    ok_step H4. log_step. err_step H. reflexivity.
Qed.

Lemma pipeline_returns s blocks commercials spots s5 :
  SpotsReserved omlClient now (EnvConfig.getOmlConfig processEnv) campaign creatives
    s blocks commercials spots s5 ->
  pipeline omlClient now (EnvConfig.getOmlConfig processEnv) campaign creatives s
  = (inr completeResult, afterComplete now (afterSpots now s5)).
Proof.
  intros [s4 [s3 [s2 [s1 [H1] H2] H3] H4] H5]. unfold pipeline.
  log_step. ok_step H1. log_step. ok_step H2. log_step. ok_step H3. log_step.
  ok_step H4. log_step. ok_step H5. log_step. log_step. reflexivity.
Qed.

(** The pipeline either returns after all five steps or one step raised. *)
Lemma pipeline_cases s :
  (exists blocks commercials spots s5,
     SpotsReserved omlClient now (EnvConfig.getOmlConfig processEnv) campaign creatives
       s blocks commercials spots s5)
  \/ (exists e s',
        StepRaises omlClient now (EnvConfig.getOmlConfig processEnv) campaign creatives
          s e s').
Proof.
  set (config := EnvConfig.getOmlConfig processEnv).
  destruct (authenticate omlClient config (afterStart now s)) as [[e | []] s1] eqn:H1.
  { right. exists e, s1. now apply raises_authentication. }
  assert (A1 : Authenticated omlClient now config s s1) by now constructor.
  destruct (syncReferenceDictionaries omlClient campaign creatives
              (afterAuthentication now s1)) as [[e | []] s2] eqn:H2.
  { right. exists e, s2. now apply raises_sync with s1. }
  assert (A2 : Synced omlClient now config campaign creatives s s2)
    by now apply synced with s1.
  destruct (findBlocksForPlacement omlClient (Campaign.start_date campaign)
              (Campaign.end_date campaign) (afterSync now s2)) as [[e | blocks] s3] eqn:H3.
  { right. exists e, s3. now apply raises_blocks with s2. }
  assert (A3 : BlocksFound omlClient now config campaign creatives s blocks s3)
    by now apply blocksFound with s2.
  destruct (findAndMapCommercials omlClient creatives (afterBlocks now blocks s3))
    as [[e | commercials] s4] eqn:H4.
  { right. exists e, s4. now apply raises_commercials with blocks s3. }
  assert (A4 : CommercialsMapped omlClient now config campaign creatives s blocks
                 commercials s4) by now apply commercialsMapped with s3.
  destruct (reserveSpots omlClient config (nth_error blocks 0)
              (afterCommercials now commercials s4)) as [[e | spots] s5] eqn:H5.
  { right. exists e, s5. now apply raises_spots with blocks commercials s4. }
  left. exists blocks, commercials, spots, s5. now apply spotsReserved with s4.
Qed.

End Pipeline.

Ltac run_chain :=
  lazymatch goal with
  | |- Authenticated _ _ _ _ _ => constructor; vm_compute; reflexivity
  | |- _ => econstructor; [run_chain | vm_compute; reflexivity]
  end.

(** The [catch] block: the error is logged and turned into a Failed result. *)
Lemma handleCampaignPublish_failed omlClient now processEnv campaign creatives s e s1 :
  StepRaises omlClient now (EnvConfig.getOmlConfig processEnv) campaign creatives s e s1 ->
  handleCampaignPublish omlClient now (EnvConfig.getOmlConfig processEnv) campaign creatives s
  = (inr (failedResult e
            ("Помилка в процесі інтеграції: " ++ message e ++ newline
             ++ "Останні етапи інтеграції:" ++ newline
             ++ join newline
                  (map format_progress
                     (slice_last 3 (progressLog (afterError now e s1)))))),
     afterError now e s1).
Proof.
  intros H. unfold handleCampaignPublish.
  rewrite (try_err _ (pipeline_raises _ _ _ _ _ _ _ _ H)).
  log_step. reflexivity.
Qed.

Lemma handleCampaignPublish_completed omlClient now processEnv campaign creatives s
  blocks commercials spots s5 :
  SpotsReserved omlClient now (EnvConfig.getOmlConfig processEnv) campaign creatives
    s blocks commercials spots s5 ->
  handleCampaignPublish omlClient now (EnvConfig.getOmlConfig processEnv) campaign creatives s
  = (inr completeResult, afterComplete now (afterSpots now s5)).
Proof.
  intros H. unfold handleCampaignPublish. apply try_ok.
  apply (pipeline_returns _ _ _ _ _ _ _ _ _ _ H).
Qed.

(** The trigger's pipeline, when its four steps return. *)
Lemma trigger_completed omlClient now config campaign creatives s s1 s2 s3 s4
  commercials spots :
  progressCallback config = Some consoleProgress ->
  authenticate omlClient config (afterStart now s) = (inr tt, s1) ->
  syncReferenceDictionaries omlClient campaign creatives (afterAuthentication now s1)
  = (inr tt, s2) ->
  LightboxCampaignTrigger.findAndMapCommercials omlClient creatives (afterSync now s2)
  = (inr commercials, s3) ->
  LightboxCampaignTrigger.reserveSpots omlClient config
    (afterCommercials now commercials s3) = (inr spots, s4) ->
  LightboxCampaignTrigger.handleCampaignPublish omlClient now config campaign creatives s
  = (inr (LightboxCampaignTrigger.completeResult commercials spots),
     afterComplete now (afterSpotsCount now spots s4)).
Proof.
  intros H H1 H2 H3 H4.
  pose proof (fun step progress message st =>
                logProgress_console now config step progress message st H) as L.
  unfold LightboxCampaignTrigger.handleCampaignPublish. apply try_ok.
  unfold LightboxCampaignTrigger.pipeline, LightboxCampaignTrigger.logProgress,
    LightboxCampaignTrigger.authenticate,
    LightboxCampaignTrigger.syncReferenceDictionaries.
  rewrite (bind_ok _ (L _ _ _ _)). ok_step H1.
  rewrite (bind_ok _ (L _ _ _ _)). ok_step H2.
  rewrite (bind_ok _ (L _ _ _ _)). ok_step H3.
  rewrite (bind_ok _ (L _ _ _ _)). ok_step H4.
  rewrite (bind_ok _ (L _ _ _ _)). rewrite (bind_ok _ (L _ _ _ _)). reflexivity.
Qed.

(** ** The result of a run *)

(** C2: [handleCampaignPublish] never throws.  It always returns a result;
    and whenever one of the five pipeline steps (authentication, dictionary
    sync, block search, commercial mapping, spot reservation) raises an error
    [e], the result has [success = false], [status = failed], [error] equal to
    the message of [e], and [details] made of the header and the formatted
    last three entries of the progress log, whose last entry then has step
    "error" and progress -1. *)
Theorem handleCampaignPublish_never_throws
  (omlClient : OpenMediaLogicClient) (now : nat -> string)
  (processEnv : string -> option string)
  (campaign : Campaign.t) (creatives : list Creative.t) (s : State) :
  let config := EnvConfig.getOmlConfig processEnv in
  (exists r s', handleCampaignPublish omlClient now config campaign creatives s = (inr r, s'))
  /\ (forall e s1,
        StepRaises omlClient now config campaign creatives s e s1 ->
        exists r s',
          handleCampaignPublish omlClient now config campaign creatives s = (inr r, s')
          /\ success r = false
          /\ status r = failed
          /\ error r = Some (message e)
          /\ details r
             = Some ("Помилка в процесі інтеграції: " ++ message e ++ newline
                     ++ "Останні етапи інтеграції:" ++ newline
                     ++ join newline
                          (map format_progress (slice_last 3 (progressLog s'))))
          /\ exists older entry,
               progressLog s' = (older ++ [entry])%list
               /\ IntegrationProgress.step entry = "error"
               /\ IntegrationProgress.progress entry = -1).
Proof.
  intros config. subst config.
  pose proof (handleCampaignPublish_failed omlClient now processEnv campaign creatives s)
    as R.
  split.
  - destruct (pipeline_cases omlClient now processEnv campaign creatives s)
      as [(blocks & commercials & spots & s5 & H) | (e & s1 & H)].
    + eexists _, _. apply (handleCampaignPublish_completed _ _ _ _ _ _ _ _ _ _ H).
    + eexists _, _. apply (R e s1 H).
  - intros e s1 H. eexists _, _. split; [apply (R e s1 H) |].
    repeat split. exists (progressLog s1), (progressEntry now "error" (-1)
      ("Помилка інтеграції: " ++ message e) s1). repeat split.
Qed.

(** The configuration matters: a progress callback that throws makes the
    method throw.  The service never has one, as its configuration is that of
    [EnvConfig]. *)
Example throwing_callback_escapes :
  fst (handleCampaignPublish Sample.omlClient Sample.now Sample.throwingConfig
         Sample.campaign Sample.creatives (constructor Sample.world0))
  = inl (mkError "callback failed").
Proof. reflexivity. Qed.

(** Witness of C2: the platform rejects the credentials. *)
Lemma handleCampaignPublish_never_throws_witness :
  exists r s',
    handleCampaignPublish Sample.rejecting Sample.now
      (EnvConfig.getOmlConfig Sample.processEnv) Sample.campaign Sample.creatives
      (constructor Sample.world0) = (inr r, s')
    /\ success r = false
    /\ status r = failed
    /\ error r = Some "Помилка аутентифікації в OML: 401 Unauthorized".
Proof.
  destruct (proj2 (handleCampaignPublish_never_throws Sample.rejecting Sample.now
                     Sample.processEnv Sample.campaign Sample.creatives
                     (constructor Sample.world0))
              (mkError "Помилка аутентифікації в OML: 401 Unauthorized")
              (snd (authenticate Sample.rejecting (EnvConfig.getOmlConfig Sample.processEnv)
                      (afterStart Sample.now (constructor Sample.world0)))))
    as (r & s' & H & Hs & Hst & He & _).
  - apply raises_authentication. vm_compute. reflexivity.
  - exists r, s'. repeat split; assumption.
Defined.

(** C5, as the code has it: on a run where every step succeeds,
    [handleCampaignPublish] of the service returns a Complete result
    ([success = true], [status = complete]) with the fixed details text; the
    matched commercials and the reserved spots do not enter it: every id list
    of the result is left unset.  Only the earlier trigger carries the ids of
    the commercials it found and of the spots it reserved. *)
Theorem handleCampaignPublish_complete_without_ids :
  (forall (omlClient : OpenMediaLogicClient) (now : nat -> string)
          (processEnv : string -> option string)
          (campaign : Campaign.t) (creatives : list Creative.t) (s : State)
          (blocks : list Block.t) (commercials : list Commercial.t)
          (spots : list Spot.t) (s5 : State),
      SpotsReserved omlClient now (EnvConfig.getOmlConfig processEnv) campaign creatives
        s blocks commercials spots s5 ->
      exists r,
        handleCampaignPublish omlClient now (EnvConfig.getOmlConfig processEnv)
          campaign creatives s = (inr r, afterComplete now (afterSpots now s5))
        /\ success r = true
        /\ status r = complete
        /\ details r = Some "Інтеграція кампанії успішно завершена"
        /\ error r = None
        /\ commercial_ids r = None
        /\ spot_ids r = None
        /\ mediaplan_ids r = None
        /\ project_id r = None
        /\ order_id r = None)
  /\ (forall (omlClient : OpenMediaLogicClient) (now : nat -> string)
             (config : IntegrationConfig)
             (campaign : Campaign.t) (creatives : list Creative.t) (s s1 s2 s3 s4 : State)
             (commercials : list Commercial.t) (spots : list Spot.t),
         progressCallback config = Some consoleProgress ->
         authenticate omlClient config (afterStart now s) = (inr tt, s1) ->
         syncReferenceDictionaries omlClient campaign creatives
           (afterAuthentication now s1) = (inr tt, s2) ->
         LightboxCampaignTrigger.findAndMapCommercials omlClient creatives
           (afterSync now s2) = (inr commercials, s3) ->
         LightboxCampaignTrigger.reserveSpots omlClient config
           (afterCommercials now commercials s3) = (inr spots, s4) ->
         exists r s',
           LightboxCampaignTrigger.handleCampaignPublish omlClient now config
             campaign creatives s = (inr r, s')
           /\ success r = true
           /\ status r = complete
           /\ commercial_ids r = Some (map Commercial.id commercials)
           /\ spot_ids r = Some (map Spot.id spots)).
Proof.
  split.
  - intros omlClient now processEnv campaign creatives s blocks commercials spots s5 H.
    exists completeResult. split.
    + apply (handleCampaignPublish_completed _ _ _ _ _ _ _ _ _ _ H).
    + repeat split.
  - intros omlClient now config campaign creatives s s1 s2 s3 s4 commercials spots
      H H1 H2 H3 H4.
    eexists _, _. split.
    + apply (trigger_completed _ _ _ _ _ _ _ _ _ _ _ _ H H1 H2 H3 H4).
    + repeat split.
Qed.

(** Witness of C5: the sample run. *)
Lemma handleCampaignPublish_complete_without_ids_witness :
  exists r s',
    handleCampaignPublish Sample.omlClient Sample.now
      (EnvConfig.getOmlConfig Sample.processEnv) Sample.campaign Sample.creatives
      (constructor Sample.world0) = (inr r, s')
    /\ success r = true /\ status r = complete /\ commercial_ids r = None.
Proof.
  assert (H : exists blocks commercials spots s5,
             SpotsReserved Sample.omlClient Sample.now
               (EnvConfig.getOmlConfig Sample.processEnv) Sample.campaign Sample.creatives
               (constructor Sample.world0) blocks commercials spots s5).
  { eexists _, _, _, _. run_chain. }
  destruct H as (blocks & commercials & spots & s5 & H).
  destruct (proj1 handleCampaignPublish_complete_without_ids _ _ _ _ _ _ _ _ _ _ H)
    as (r & Hr & Hs & Hst & _ & _ & Hc & _).
  exists r, (afterComplete Sample.now (afterSpots Sample.now s5)).
  repeat split; assumption.
Defined.

(** The sample run of the trigger: the result carries the ids. *)
Example trigger_sample_run :
  fst (LightboxCampaignTrigger.handleLightboxCampaignPublish Sample.omlClient Sample.now
         Sample.exampleConfig Sample.campaign Sample.creatives Sample.world0)
  = inr (LightboxCampaignTrigger.completeResult
           [Sample.commercial 201 "Summer Promo 30s"]
           [{| Spot.id := Some 77; Spot.commercial_id := Some 201 |}]).
Proof. vm_compute. reflexivity. Qed.

(** C5 as stated fails: in the sample run one commercial (id 201) is matched,
    every step succeeds, and the Complete result does not carry its id. *)
Lemma handleCampaignPublish_ids_counterexample :
  exists blocks spots s5 r s',
    SpotsReserved Sample.omlClient Sample.now
      (EnvConfig.getOmlConfig Sample.processEnv) Sample.campaign Sample.creatives
      (constructor Sample.world0) blocks [Sample.commercial 201 "Summer Promo 30s"] spots s5
    /\ handleCampaignPublish Sample.omlClient Sample.now
         (EnvConfig.getOmlConfig Sample.processEnv) Sample.campaign Sample.creatives
         (constructor Sample.world0) = (inr r, s')
    /\ success r = true
    /\ commercial_ids r
       <> Some (map Commercial.id [Sample.commercial 201 "Summer Promo 30s"])
    /\ spot_ids r <> Some (map Spot.id spots).
Proof.
  eexists _, _, _, _, _. split; [run_chain |]. split; [vm_compute; reflexivity |].
  repeat split; discriminate.
Qed.

(** ** A brand without a remote record *)





(** ** Spot reservation *)

(** What [reserveSpots] does once the media plans are listed. *)
Lemma reserveSpots_cases omlClient config block s mediaplans :
  getMediaplans omlClient (calls (world s)) 10000 = inr mediaplans ->
  reserveSpots omlClient config block s
  = let listed := issued (GetMediaplans 10000) s in
    let mediaplan := find (fun el => strict_eq (Mediaplan.id el) 42338) mediaplans in
    match mediaplan, firstCommercial mediaplan with
    | Some mp, Some c =>
        let data := spotData c mp in
        let attached := issued (AddSpotToBlock (block_id_of block) data None) listed in
        match addSpotToBlock omlClient (calls (world listed)) (block_id_of block) data None
        with
        | inr _ => (inr [], attached)
        | inl err =>
            (inr [],
             printed (console_error
                        ("Запит, що викликав помилку: "
                         ++ curlRequest config block
                              (or_default (getToken omlClient (calls (world attached)))
                                 "TOKEN_NOT_AVAILABLE") c mp))
               (printed (console_error
                           ("Помилка бронювання споту в блоці "
                            ++ string_of_number (block_id_of block) ++ ": " ++ message err))
                  attached))
        end
    | _, _ => (inr [], printed (console_log "not found commercial") listed)
    end.
Proof.
  intros H. unfold reserveSpots, try_catch at 1, bind at 1, request at 1.
  rewrite H. cbv zeta.
  destruct (find (fun el => strict_eq (Mediaplan.id el) 42338) mediaplans) as [mp |];
    [| reflexivity].
  destruct (firstCommercial (Some mp)) as [c |]; [| reflexivity].
  unfold try_catch, bind, request, ret. simpl.
  destruct (addSpotToBlock omlClient (calls (world s) ++ [GetMediaplans 10000])%list
              (block_id_of block) _ None); reflexivity.
Qed.





(** ** The run with an empty block list *)



(** ** State across invocations *)

(** The entry point of the earlier trigger builds a new instance for every
    call, so each of its runs starts from the constructor's state. *)
Lemma trigger_starts_fresh omlClient now config campaign creatives w :
  LightboxCampaignTrigger.handleLightboxCampaignPublish omlClient now config
    campaign creatives w
  = LightboxCampaignTrigger.handleCampaignPublish omlClient now config campaign creatives
      (constructor w)
  /\ progressLog (constructor w) = []
  /\ forall t l, cache_get (entityKey t) l (constructor w) = None.
Proof.
  split; [reflexivity |]. split; [reflexivity |]. intros t l.
  apply (constructor_tables w t l).
Qed.

(** C7 fails on the code: the cache and the log are fields of the instance,
    set up in the constructor and never reset.  Every invocation leaves a
    non-empty progress log behind; and on one instance, after the sample run,
    a second invocation starts with seven log entries and four mapped ids,
    issues no dictionary lookup, and when its login is rejected its error
    details quote the "complete" entry of the first run. *)
Theorem second_invocation_sees_first_run :
  (forall omlClient now processEnv payload s r s',
      IntegrationController.publishCampaign omlClient now processEnv payload s = (r, s') ->
      progressLog s' <> [])
  /\ (let publish client :=
        IntegrationController.publishCampaign client Sample.now Sample.processEnv
          Sample.payload in
      let s1 := snd (publish Sample.omlClient (constructor Sample.world0)) in
      progressLog (constructor Sample.world0) = []
      /\ List.length (progressLog s1) = 7%nat
      /\ cache_get "advertisers" 101 s1 = Some (Some 7)
      /\ cache_get "brands" 401 s1 = Some (Some 70)
      /\ cache_get "channels" 9 s1 = Some (Some 3)
      /\ cache_get "targetAudiences" 501 s1 = Some (Some 5)
      /\ existsb dictionaryLookup (calls (world s1)) = true
      /\ existsb dictionaryLookup
           (skipn (List.length (calls (world s1)))
              (calls (world (snd (publish Sample.omlClient s1))))) = false
      /\ let s1' := snd (publish Sample.expiring (constructor Sample.world0)) in
         exists r,
           fst (publish Sample.expiring s1') = inr r
           /\ success r = false
           /\ details r
              = Some ("Помилка в процесі інтеграції: Помилка аутентифікації в OML: 401 Unauthorized"
                      ++ newline ++ "Останні етапи інтеграції:"
                      ++ newline ++ "- T6: complete (100%) - Інтеграція успішно завершена"
                      ++ newline ++ "- T7: start (0%) - Початок інтеграції кампанії"
                      ++ newline ++ "- T8: error (-1%) - Помилка інтеграції: Помилка аутентифікації в OML: 401 Unauthorized")).
Proof.
  split.
  - intros omlClient now processEnv payload s r s' H.
    unfold IntegrationController.publishCampaign in H.
    destruct (pipeline_cases omlClient now processEnv
                (IntegrationController.campaign payload)
                (IntegrationController.creatives payload) s)
      as [(blocks & commercials & spots & s5 & R) | (e & s1 & R)].
    + rewrite (handleCampaignPublish_completed _ _ _ _ _ _ _ _ _ _ R) in H.
      injection H as _ <-. simpl. intros E. now apply app_eq_nil in E.
    + rewrite (handleCampaignPublish_failed _ _ _ _ _ _ _ _ R) in H.
      injection H as _ <-. simpl. intros E. now apply app_eq_nil in E.
  - vm_compute. repeat split. eexists. repeat split.
Qed.

(** * Further properties *)

(** ** The brand ids of a campaign *)

Lemma Set_add_spec (s : list Z) (x : Z) :
  (NoDup s -> NoDup (Set_add s x))
  /\ (forall y, In y (Set_add s x) <-> In y s \/ y = x).
Proof.
  unfold Set_add. destruct (existsb (Z.eqb x) s) eqn:E.
  - apply existsb_exists in E. destruct E as (z & Hz & E).
    apply Z.eqb_eq in E. subst z. split; [tauto |].
    intros y. split; [tauto | intros [H | ->]; assumption].
  - split.
    + intros D. apply NoDup_app; [exact D | repeat constructor; intros [] |].
      intros y Hy [<- | []].
      assert (T : existsb (Z.eqb x) s = true)
        by (apply existsb_exists; exists x; split; [exact Hy | apply Z.eqb_refl]).
      congruence.
    + intros y. rewrite in_app_iff. simpl. intuition (subst; auto).
Qed.

Lemma fold_Set_add_spec (xs acc : list Z) :
  (NoDup acc -> NoDup (fold_left Set_add xs acc))
  /\ (forall y, In y (fold_left Set_add xs acc) <-> In y acc \/ In y xs).
Proof.
  revert acc. induction xs as [| x rest IH]; intros acc; simpl.
  - split; [tauto | intros y; tauto].
  - destruct (IH (Set_add acc x)) as [D I]. destruct (Set_add_spec acc x) as [D0 I0].
    split; [tauto |]. intros y. rewrite I, I0. intuition (subst; auto).
Qed.

(** X1: the brand ids handed to [syncBrands] are pairwise distinct, and they
    are exactly the brand ids of the campaign's placements and of the
    creatives. *)
Theorem collectBrandIds_distinct (campaign : Campaign.t) (creatives : list Creative.t) :
  NoDup (collectBrandIds campaign creatives)
  /\ forall id,
       In id (collectBrandIds campaign creatives) <->
       (exists p, In p (Campaign.placements campaign) /\ Placement.brand_id p = id)
       \/ (exists c, In c creatives /\ Creative.brand_id c = id).
Proof.
  unfold collectBrandIds.
  destruct (fold_Set_add_spec (map Placement.brand_id (Campaign.placements campaign)) [])
    as [D1 I1].
  destruct (fold_Set_add_spec (map Creative.brand_id creatives)
              (fold_left Set_add
                 (map Placement.brand_id (Campaign.placements campaign)) []))
    as [D2 I2].
  split; [apply D2, D1; constructor |].
  intros id. rewrite I2, I1, !in_map_iff. simpl. split.
  - intros [[[] | (p & E & H)] | (c & E & H)]; [left; exists p | right; exists c]; tauto.
  - intros [(p & H & E) | (c & H & E)]; [left; right; exists p | right; exists c]; tauto.
Qed.

(** ** The ids of the matched commercials *)

Lemma firstMatch_id catalog creative :
  map Commercial.id (firstMatch catalog creative)
  = if inCatalog catalog (Creative.id creative) then [Some (Creative.id creative)] else [].
Proof.
  unfold firstMatch, inCatalog.
  destruct (find (fun el => strict_eq (Commercial.id el) (Creative.id creative)) catalog)
    as [found |] eqn:F.
  - pose proof (find_some _ _ F) as [I E].
    assert (T : existsb (fun el => strict_eq (Commercial.id el) (Creative.id creative))
                  catalog = true) by (apply existsb_exists; now exists found).
    rewrite T. simpl. apply strict_eq_true in E. now rewrite E.
  - destruct (existsb _ catalog) eqn:T; [| reflexivity].
    apply existsb_exists in T. destruct T as (el & I & E).
    pose proof (find_none _ _ F _ I) as N. simpl in N. congruence.
Qed.

(** X2: the ids of the commercials [findAndMapCommercials] returns are the
    ids of the creatives that occur in the catalog, in the order of the
    creatives and as often as they occur there; so a creative listed twice is
    matched twice and at most one commercial is returned per creative.  When
    the catalog request throws, the method throws the error wrapped with its
    prefix after that single request. *)
Theorem findAndMapCommercials_ids
  (omlClient : OpenMediaLogicClient) (creatives : list Creative.t) (s : State) :
  match getCommercials omlClient (calls (world s)) (Some 10000) with
  | inr catalog =>
      exists matched,
        findAndMapCommercials omlClient creatives s
        = (inr matched, issued (GetCommercials (Some 10000)) s)
        /\ map Commercial.id matched
           = map Some (filter (inCatalog catalog) (map Creative.id creatives))
        /\ (List.length matched <= List.length creatives)%nat
  | inl e =>
      findAndMapCommercials omlClient creatives s
      = (inl (mkError ("Помилка при пошуку комерційних матеріалів: " ++ message e)),
         issued (GetCommercials (Some 10000)) s)
  end.
Proof.
  destruct (getCommercials omlClient (calls (world s)) (Some 10000)) as [e | catalog] eqn:H.
  - unfold findAndMapCommercials, try_catch, bind, request. rewrite H. reflexivity.
  - exists (flat_map (firstMatch catalog) creatives).
    assert (E : findAndMapCommercials omlClient creatives s
                = (inr (flat_map (firstMatch catalog) creatives),
                   issued (GetCommercials (Some 10000)) s)).
    { unfold findAndMapCommercials, try_catch, bind, request. rewrite H.
      unfold ret. now rewrite fold_matchCreative. }
    split; [exact E |].
    assert (Ids : map Commercial.id (flat_map (firstMatch catalog) creatives)
                  = map Some (filter (inCatalog catalog) (map Creative.id creatives))).
    { clear E. induction creatives as [| c rest IH]; simpl; [reflexivity |].
      rewrite map_app, firstMatch_id, IH.
      now destruct (inCatalog catalog (Creative.id c)). }
    split; [exact Ids |].
    rewrite <- (length_map Commercial.id), Ids, length_map.
    rewrite <- (length_map Creative.id creatives). apply filter_length_le.
Qed.

(** ** What a dictionary sync leaves in the cache *)

Lemma sync_unfold omlClient t ids :
  sync omlClient t ids
  = for_of ids (syncOne (entityKey t) (fetchOf t) (lookupCall t)
                  (listingOf omlClient t) (notFoundOf t)).
Proof. now destruct t. Qed.

Lemma fetchOf_pure t id s : exists data, fetchOf t id s = (inr data, s).
Proof. destruct t; eexists; reflexivity. Qed.

(** A sync call touches only the entries of its own table at the ids of the
    call. *)
Lemma sync_frame omlClient t ids s r s' :
  sync omlClient t ids s = (r, s') ->
  forall key l, key <> entityKey t \/ ~ In l ids -> cache_get key l s' = cache_get key l s.
Proof.
  rewrite sync_unfold. revert s r s'.
  induction ids as [| x rest IH]; intros s r s' H key l N; simpl in H.
  - now injection H as _ <-.
  - assert (N' : key <> entityKey t \/ ~ In l rest)
      by (destruct N as [N | N]; [now left | right; intros I; apply N; now right]).
    destruct (syncOne_cases (entityKey t) (fetchOf t) (lookupCall t)
                (listingOf omlClient t) (notFoundOf t) (fetchOf_pure t) x s)
      as [[E B] | [E (r1 & s1 & B & _ & _ & _ & _ & _ & O & _)]].
    + rewrite (bind_ok _ B) in H. apply (IH _ _ _ H _ _ N').
    + assert (K : cache_get key l s1 = cache_get key l s).
      { apply O. destruct N as [N | N]; [now left | right].
        intros ->. apply N. now left. }
      destruct r1 as [e | []].
      * rewrite (bind_err _ B) in H. injection H as _ <-. exact K.
      * rewrite (bind_ok _ B) in H. rewrite <- K. apply (IH _ _ _ H _ _ N').
Qed.

(** An unmapped id is given the id of the first record of the listing. *)
Lemma syncOne_value omlClient t lbxId s first rest :
  cache_has (entityKey t) lbxId s = false ->
  table_exists (entityKey t) s ->
  listingOf omlClient t (calls (world s)) = inr (first :: rest) ->
  exists s',
    syncOne (entityKey t) (fetchOf t) (lookupCall t) (listingOf omlClient t)
      (notFoundOf t) lbxId s = (inr tt, s')
    /\ cache_get (entityKey t) lbxId s' = Some (Entity.id first)
    /\ (forall key, table_exists key s -> table_exists key s')
    /\ (forall key l, key <> entityKey t \/ l <> lbxId ->
          cache_get key l s' = cache_get key l s).
Proof.
  intros E T L. unfold syncOne. rewrite E.
  destruct (fetchOf_pure t lbxId s) as [data F]. rewrite (bind_ok _ F).
  unfold bind, request. rewrite L.
  destruct (cache_set_returns (entityKey t) lbxId (Entity.id first)
              (issued (lookupCall t) s)) as (s' & C & _ & _ & T' & O & G).
  exists s'. split; [exact C |]. split; [now apply G |]. split.
  - intros key Hk. now apply T'.
  - intros key l N. now rewrite (O key l N).
Qed.

(** X3: the lookups carry no filter, so a sync call gives every id it maps
    the id of the first record of the remote listing.  When the listing always
    starts with a record of id [v], a sync call over a table that exists
    returns, and every id of the call that had no entry is mapped to [v]; two
    different ids mapped in this way make the table non-injective. *)
Theorem sync_maps_to_first_record
  (omlClient : OpenMediaLogicClient) (t : EntityType) (ids : list Z)
  (s s' : State) (r : Error + unit) (v : option Z) :
  table_exists (entityKey t) s ->
  (forall history, exists first rest,
      listingOf omlClient t history = inr (first :: rest) /\ Entity.id first = v) ->
  sync omlClient t ids s = (r, s') ->
  r = inr tt
  /\ (forall l, In l ids -> cache_has (entityKey t) l s = false ->
                cache_get (entityKey t) l s' = Some v)
  /\ (forall a b omlId table,
        v = Some omlId -> a <> b -> In a ids -> In b ids ->
        cache_has (entityKey t) a s = false ->
        cache_has (entityKey t) b s = false ->
        JsMap.get String.eqb (mappingCache s') (entityKey t) = Some table ->
        mapsTo table a omlId /\ mapsTo table b omlId /\ ~ injective table).
Proof.
  intros T L H.
  assert (V : r = inr tt
              /\ forall l, In l ids -> cache_has (entityKey t) l s = false ->
                           cache_get (entityKey t) l s' = Some v).
  { rewrite sync_unfold in H. revert s r s' T H.
    induction ids as [| x rest IH]; intros s r s' T H; simpl in H.
    - injection H as <- <-. split; [reflexivity | intros l []].
    - destruct (cache_has (entityKey t) x s) eqn:E.
      + assert (B : syncOne (entityKey t) (fetchOf t) (lookupCall t)
                      (listingOf omlClient t) (notFoundOf t) x s = (inr tt, s))
          by (unfold syncOne; now rewrite E).
        rewrite (bind_ok _ B) in H. destruct (IH _ _ _ T H) as [R I].
        split; [exact R |]. intros l [<- | Hl] Hn; [congruence | now apply I].
      + destruct (L (calls (world s))) as (first & others & Hl & Hv).
        destruct (syncOne_value omlClient t x s first others E T Hl)
          as (s1 & B & G & T1 & O).
        rewrite (bind_ok _ B) in H.
        destruct (IH _ _ _ (T1 _ T) H) as [R I]. split; [exact R |].
        intros l Hl' Hn. destruct (Z.eq_dec l x) as [-> | N].
        * destruct (for_of_sync _ _ _ _ _ (fetchOf_pure t) _ _ _ _ H) as (A1 & _).
          rewrite <- Hv. now apply A1.
        * destruct Hl' as [<- | Hl']; [congruence |]. apply I; [exact Hl' |].
          rewrite cache_has_get, O; [| now right]. now rewrite <- cache_has_get. }
  destruct V as [R I]. split; [exact R |]. split; [exact I |].
  intros a b omlId table -> Nab Ha Hb Ua Ub G.
  assert (Ma : mapsTo table a omlId).
  { apply (get_In _ Z_eqb_eq). pose proof (I a Ha Ua) as Ea.
    unfold cache_get in Ea. now rewrite G in Ea. }
  assert (Mb : mapsTo table b omlId).
  { apply (get_In _ Z_eqb_eq). pose proof (I b Hb Ub) as Eb.
    unfold cache_get in Eb. now rewrite G in Eb. }
  split; [exact Ma |]. split; [exact Mb |]. intros Inj. apply Nab.
  exact (Inj a b omlId Ma Mb).
Qed.

(** Witness of X3: the sample platform lists one brand, of id 70; the brands
    401 and 402 both get it. *)
Lemma sync_maps_to_first_record_witness :
  let s' := snd (sync Sample.omlClient brands [401; 402] (constructor Sample.world0)) in
  cache_get "brands" 401 s' = Some (Some 70)
  /\ cache_get "brands" 402 s' = Some (Some 70)
  /\ ~ injective [(401, Some 70); (402, Some 70)].
Proof.
  intros s'.
  destruct (sync_maps_to_first_record Sample.omlClient brands [401; 402]
              (constructor Sample.world0) s' (inr tt) (Some 70))
    as (_ & I & J).
  - discriminate.
  - intros history. now exists (Sample.entity 70 "Brand"), [].
  - reflexivity.
  - split; [apply I; [now left | reflexivity] |].
    split; [apply I; [right; now left | reflexivity] |].
    apply (J 401 402 70 [(401, Some 70); (402, Some 70)]); try reflexivity;
      try (simpl; tauto). discriminate.
Defined.



(** ** The dictionary step as a whole *)

Lemma sync_facts omlClient t ids s r s' :
  sync omlClient t ids s = (r, s') ->
  (forall key l v, cache_get key l s = Some v -> cache_get key l s' = Some v)
  /\ (forall key, table_exists key s -> table_exists key s')
  /\ progressLog s' = progressLog s
  /\ (exists n,
        calls (world s') = (calls (world s) ++ repeat (lookupCall t) n)%list
        /\ (n <= List.length ids)%nat)
  /\ (r = inr tt -> table_exists (entityKey t) s ->
      forall x, In x ids -> cache_has (entityKey t) x s' = true).
Proof.
  intros H. pose proof H as H'. rewrite sync_unfold in H'.
  destruct (for_of_sync _ _ _ _ _ (fetchOf_pure t) _ _ _ _ H')
    as (A1 & A2 & _ & _ & A5 & (n & Hc & Hn & _) & A7).
  repeat split; try assumption.
  - now exists n.
  - intros R T x Hx. apply A7; auto.
Qed.




(** ** What the steps leave alone *)

Lemma preserves_unchanged (P : State -> Prop) {A : Type} (c : M A) :
  (forall s, snd (c s) = s) -> Preserves P c.
Proof. intros H s r s' Hs E. specialize (H s). rewrite E in H. simpl in H. now subst. Qed.

(** The steps keep every property of the state that requests of the allowed
    kinds, console output and cache updates keep. *)
Section StepsKeep.
Variable P : State -> Prop.
Variable allowed : Call -> bool.
Hypothesis P_request : forall c s, allowed c = true -> P s -> P (issued c s).
Hypothesis P_print : forall line s, P s -> P (printed line s).
Hypothesis P_cache :
  forall s s', world s' = world s -> progressLog s' = progressLog s -> P s -> P s'.

Lemma keep_request {A : Type} (c : Call) (respond : list Call -> Error + A) :
  allowed c = true -> Preserves P (request c respond).
Proof. intros Hc s r s' Hs [= _ <-]. now apply P_request. Qed.

Lemma keep_print (line : ConsoleLine) : Preserves P (print line).
Proof. intros s r s' Hs [= _ <-]. now apply P_print. Qed.

Lemma keep_cache_set key lbxId omlId : Preserves P (cache_set key lbxId omlId).
Proof.
  intros s r s' Hs E.
  destruct (cache_set_returns key lbxId omlId s) as (s1 & C & W & L & _).
  rewrite C in E. injection E as _ <-. now apply (P_cache s).
Qed.

Lemma keep_authenticate omlClient config :
  allowed (Login (omlUsername config) (omlPassword config)) = true ->
  Preserves P (authenticate omlClient config).
Proof.
  intros Hc. apply preserves_try; [now apply keep_request | intros e; apply preserves_throw].
Qed.

Lemma keep_sync omlClient t ids :
  allowed (lookupCall t) = true -> Preserves P (sync omlClient t ids).
Proof.
  intros Hc. rewrite sync_unfold. apply preserves_for_of. intros x s r s' Hs E.
  unfold syncOne in E. destruct (cache_has (entityKey t) x s).
  - injection E as _ <-. exact Hs.
  - revert s r s' Hs E.
    apply preserves_bind;
      [apply preserves_unchanged; intros s; now destruct t | intros data].
    apply preserves_bind; [now apply keep_request |].
    intros [| first rest]; [apply preserves_throw | apply keep_cache_set].
Qed.

Lemma keep_syncReferenceDictionaries omlClient campaign creatives :
  (forall t, allowed (lookupCall t) = true) ->
  Preserves P (syncReferenceDictionaries omlClient campaign creatives).
Proof.
  intros Hc. apply preserves_try; [| intros e; apply preserves_throw].
  apply preserves_bind; [exact (keep_sync omlClient advertisers _ (Hc _)) | intros _].
  apply preserves_bind; [exact (keep_sync omlClient brands _ (Hc _)) | intros _].
  apply preserves_bind; [exact (keep_sync omlClient channels _ (Hc _)) | intros _].
  exact (keep_sync omlClient targetAudiences _ (Hc _)).
Qed.

Lemma keep_scan omlClient grid dates acc :
  (forall id, allowed (GetBlockById id) = true) ->
  Preserves P (for_of_with dates (scanDate omlClient grid) acc).
Proof.
  intros Hc. apply preserves_for_of_with. intros date blocks.
  apply preserves_for_of_with. intros programRelease blocks'.
  unfold scanProgramRelease.
  destruct (ProgramRelease.blocks programRelease) as [[| b bs] |];
    try apply preserves_ret.
  apply preserves_for_of_with. intros slot blocks''.
  apply preserves_bind; [now apply keep_request | intros fullBlock; apply preserves_ret].
Qed.

Lemma keep_findBlocksForPlacement omlClient start_date end_date :
  (forall id, allowed (GetChannelBooking id start_date end_date) = true) ->
  (forall id, allowed (GetBlockById id) = true) ->
  Preserves P (findBlocksForPlacement omlClient start_date end_date).
Proof.
  intros Hb Hd. apply preserves_try; [| intros e; apply preserves_throw].
  apply preserves_bind.
  - apply preserves_unchanged. intros s. unfold getMappedIdOrThrow.
    destruct (JsMap.get String.eqb (mappingCache s) "channels") as [mapping |];
      [| reflexivity].
    now destruct (JsMap.get Z.eqb mapping 9).
  - intros omlChannelId. apply preserves_bind; [now apply keep_request | intros grid].
    now apply keep_scan.
Qed.

Lemma keep_findAndMapCommercials omlClient creatives :
  allowed (GetCommercials (Some 10000)) = true ->
  Preserves P (findAndMapCommercials omlClient creatives).
Proof.
  intros Hc. apply preserves_try; [| intros e; apply preserves_throw].
  apply preserves_bind; [now apply keep_request | intros catalog; apply preserves_ret].
Qed.

Lemma keep_attach omlClient config block commercial mediaplan :
  allowed (AddSpotToBlock (block_id_of block) (spotData commercial mediaplan) None) = true ->
  Preserves P
    (try_catch
       (bind (request (AddSpotToBlock (block_id_of block)
                         (spotData commercial mediaplan) None)
                (fun h => addSpotToBlock omlClient h (block_id_of block)
                            (spotData commercial mediaplan) None))
          (fun _ => ret (Some (@nil Spot.t))))
       (fun error =>
          bind (tokenOrDefault omlClient)
            (fun token =>
               bind (print (console_error
                              ("Помилка бронювання споту в блоці "
                               ++ string_of_number (block_id_of block) ++ ": "
                               ++ message error)))
                 (fun _ =>
                    bind (print (console_error
                                   ("Запит, що викликав помилку: "
                                    ++ curlRequest config block token commercial
                                         mediaplan)))
                      (fun _ => ret None))))).
Proof.
  intros Hc. apply preserves_try.
  - apply preserves_bind; [now apply keep_request | intros _; apply preserves_ret].
  - intros e. apply preserves_bind; [now apply preserves_unchanged | intros token].
    apply preserves_bind; [apply keep_print | intros _].
    apply preserves_bind; [apply keep_print | intros _; apply preserves_ret].
Qed.

Lemma keep_reserveSpots omlClient config block :
  allowed (GetMediaplans 10000) = true ->
  (forall id data, allowed (AddSpotToBlock id data None) = true) ->
  Preserves P (reserveSpots omlClient config block).
Proof.
  intros Hm Ha. apply preserves_try; [| intros e; apply preserves_throw].
  apply preserves_bind; [now apply keep_request | intros mediaplans]. cbv zeta.
  destruct (firstCommercial _) as [commercial |];
    [| apply preserves_bind; [apply keep_print | intros _; apply preserves_ret]].
  destruct (find _ mediaplans) as [mediaplan |];
    [| apply preserves_bind; [apply keep_print | intros _; apply preserves_ret]].
  apply preserves_bind; [| intros [result |]; apply preserves_ret].
  apply keep_attach. apply Ha.
Qed.

End StepsKeep.

(** ** The progress log of a run *)

Lemma step_keeps_log {A : Type} (c : M A) :
  (forall L n, Preserves (fun s => progressLog s = L /\ ticks (world s) = n) c) ->
  forall s r s', c s = (r, s') ->
                 progressLog s' = progressLog s /\ ticks (world s') = ticks (world s).
Proof. intros H s r s' E. now apply (H (progressLog s) (ticks (world s)) s r s'). Qed.

Ltac log_side :=
  first
    [ reflexivity
    | exact (fun _ _ _ H => H)
    | exact (fun _ _ H => H)
    | let W := fresh in
      let L := fresh in
      let H1 := fresh in
      let H2 := fresh in
      intros ? ? W L [H1 H2]; rewrite W, L; now split ].

Section LogKept.
Variable omlClient : OpenMediaLogicClient.

Lemma authenticate_keeps_log config s r s' :
  authenticate omlClient config s = (r, s') ->
  progressLog s' = progressLog s /\ ticks (world s') = ticks (world s).
Proof.
  apply step_keeps_log. intros L n.
  apply keep_authenticate with (allowed := fun _ => true); log_side.
Qed.

Lemma sync_step_keeps_log campaign creatives s r s' :
  syncReferenceDictionaries omlClient campaign creatives s = (r, s') ->
  progressLog s' = progressLog s /\ ticks (world s') = ticks (world s).
Proof.
  apply step_keeps_log. intros L n.
  apply keep_syncReferenceDictionaries with (allowed := fun _ => true); log_side.
Qed.

Lemma findBlocks_keeps_log start_date end_date s r s' :
  findBlocksForPlacement omlClient start_date end_date s = (r, s') ->
  progressLog s' = progressLog s /\ ticks (world s') = ticks (world s).
Proof.
  apply step_keeps_log. intros L n.
  apply keep_findBlocksForPlacement with (allowed := fun _ => true); log_side.
Qed.

Lemma findAndMap_keeps_log creatives s r s' :
  findAndMapCommercials omlClient creatives s = (r, s') ->
  progressLog s' = progressLog s /\ ticks (world s') = ticks (world s).
Proof.
  apply step_keeps_log. intros L n.
  apply keep_findAndMapCommercials with (allowed := fun _ => true); log_side.
Qed.

Lemma reserveSpots_keeps_log config block s r s' :
  reserveSpots omlClient config block s = (r, s') ->
  progressLog s' = progressLog s /\ ticks (world s') = ticks (world s).
Proof.
  apply step_keeps_log. intros L n.
  apply keep_reserveSpots with (allowed := fun _ => true); log_side.
Qed.

End LogKept.

Lemma Trail_kept now s s' s'' names percentages :
  Trail now s s' names percentages ->
  progressLog s'' = progressLog s' /\ ticks (world s'') = ticks (world s') ->
  Trail now s s'' names percentages.
Proof.
  intros (entries & L & N & P & Ts & T) [H1 H2]. exists entries.
  rewrite H1, H2. repeat split; assumption.
Qed.

Lemma Trail_logged now s s' names percentages step progress message :
  Trail now s s' names percentages ->
  Trail now s (logged now step progress message s')
    (names ++ [step]) (percentages ++ [progress]).
Proof.
  intros (entries & L & N & P & Ts & T).
  exists (entries ++ [progressEntry now step progress message s'])%list.
  simpl. rewrite L, !map_app, N, P, Ts, length_app, <- app_assoc. simpl.
  repeat split.
  - rewrite seq_app, map_app. simpl. now rewrite T.
  - lia.
Qed.

Lemma Trail_start now s : Trail now s s [] [].
Proof. exists []. simpl. rewrite app_nil_r. repeat split. lia. Qed.

(** A step that wraps what it catches throws only messages with its prefix. *)
Lemma wrapped_prefix {A : Type} (c : M A) (prefix : string) s e s' :
  try_catch c (fun error => throw (mkError (prefix ++ message error))) s = (inl e, s') ->
  exists m, message e = prefix ++ m.
Proof.
  unfold try_catch, throw. destruct (c s) as [[e0 | a] s0]; intros [= <- _].
  now exists (message e0).
Qed.

Section Trails.
Variable omlClient : OpenMediaLogicClient.
Variable now : nat -> string.
Variable config : IntegrationConfig.
Variables (campaign : Campaign.t) (creatives : list Creative.t).

Lemma Authenticated_trail s s1 :
  Authenticated omlClient now config s s1 ->
  Trail now s s1 (firstn 1 stepNames) (firstn 1 stepProgress).
Proof.
  intros [H]. apply (Trail_kept now s (afterStart now s)).
  - apply (Trail_logged now s s [] []), Trail_start.
  - now apply authenticate_keeps_log in H.
Qed.

Lemma Synced_trail s s2 :
  Synced omlClient now config campaign creatives s s2 ->
  Trail now s s2 (firstn 2 stepNames) (firstn 2 stepProgress).
Proof.
  intros [s1 A H]. apply (Trail_kept now s (afterAuthentication now s1)).
  - apply (Trail_logged now s s1 (firstn 1 stepNames) (firstn 1 stepProgress)).
    now apply Authenticated_trail.
  - now apply sync_step_keeps_log in H.
Qed.

Lemma BlocksFound_trail s blocks s3 :
  BlocksFound omlClient now config campaign creatives s blocks s3 ->
  Trail now s s3 (firstn 3 stepNames) (firstn 3 stepProgress).
Proof.
  intros [s2 A H]. apply (Trail_kept now s (afterSync now s2)).
  - apply (Trail_logged now s s2 (firstn 2 stepNames) (firstn 2 stepProgress)).
    now apply Synced_trail.
  - now apply findBlocks_keeps_log in H.
Qed.

Lemma CommercialsMapped_trail s blocks commercials s4 :
  CommercialsMapped omlClient now config campaign creatives s blocks commercials s4 ->
  Trail now s s4 (firstn 4 stepNames) (firstn 4 stepProgress).
Proof.
  intros [s3 A H]. apply (Trail_kept now s (afterBlocks now blocks s3)).
  - apply (Trail_logged now s s3 (firstn 3 stepNames) (firstn 3 stepProgress)).
    now apply (BlocksFound_trail s blocks).
  - now apply findAndMap_keeps_log in H.
Qed.

Lemma SpotsReserved_trail s blocks commercials spots s5 :
  SpotsReserved omlClient now config campaign creatives s blocks commercials spots s5 ->
  Trail now s s5 (firstn 5 stepNames) (firstn 5 stepProgress).
Proof.
  intros [s4 A H]. apply (Trail_kept now s (afterCommercials now commercials s4)).
  - apply (Trail_logged now s s4 (firstn 4 stepNames) (firstn 4 stepProgress)).
    now apply (CommercialsMapped_trail s blocks commercials).
  - now apply reserveSpots_keeps_log in H.
Qed.

(** The step that raised, the entries logged before it, and the prefix of its
    message. *)
Lemma StepRaises_trail s e s' :
  StepRaises omlClient now config campaign creatives s e s' ->
  exists k m,
    (k < 5)%nat
    /\ message e = nth k stepPrefixes EmptyString ++ m
    /\ Trail now s s' (firstn (S k) stepNames) (firstn (S k) stepProgress).
Proof.
  intros [H | s1 A H | s2 A H | blocks s3 A H | blocks commercials s4 A H].
  - destruct (wrapped_prefix _ _ _ _ _ H) as [m Hm]. exists 0%nat, m.
    split; [lia |]. split; [exact Hm |].
    apply (Trail_kept now s (afterStart now s)).
    + apply (Trail_logged now s s [] []), Trail_start.
    + now apply authenticate_keeps_log in H.
  - destruct (wrapped_prefix _ _ _ _ _ H) as [m Hm]. exists 1%nat, m.
    split; [lia |]. split; [exact Hm |].
    apply (Trail_kept now s (afterAuthentication now s1)).
    + apply (Trail_logged now s s1 (firstn 1 stepNames) (firstn 1 stepProgress)).
      now apply Authenticated_trail.
    + now apply sync_step_keeps_log in H.
  - destruct (wrapped_prefix _ _ _ _ _ H) as [m Hm]. exists 2%nat, m.
    split; [lia |]. split; [exact Hm |].
    apply (Trail_kept now s (afterSync now s2)).
    + apply (Trail_logged now s s2 (firstn 2 stepNames) (firstn 2 stepProgress)).
      now apply Synced_trail.
    + now apply findBlocks_keeps_log in H.
  - destruct (wrapped_prefix _ _ _ _ _ H) as [m Hm]. exists 3%nat, m.
    split; [lia |]. split; [exact Hm |].
    apply (Trail_kept now s (afterBlocks now blocks s3)).
    + apply (Trail_logged now s s3 (firstn 3 stepNames) (firstn 3 stepProgress)).
      now apply (BlocksFound_trail s blocks).
    + now apply findAndMap_keeps_log in H.
  - destruct (wrapped_prefix _ _ _ _ _ H) as [m Hm]. exists 4%nat, m.
    split; [lia |]. split; [exact Hm |].
    apply (Trail_kept now s (afterCommercials now commercials s4)).
    + apply (Trail_logged now s s4 (firstn 4 stepNames) (firstn 4 stepProgress)).
      now apply (CommercialsMapped_trail s blocks commercials).
    + now apply reserveSpots_keeps_log in H.
Qed.

End Trails.

(** X6: the progress log of a run.  Whatever state a run starts from, it keeps
    the entries the log had and appends its own, stamped with consecutive
    clock readings.  A run that succeeds appends the seven entries "start",
    "authentication", "sync_dictionaries", "find_blocks", "map_commercials",
    "reserve_spots", "complete" with the percentages 0, 5, 15, 30, 50, 80,
    100.  A run that fails in step [k] appends the entries of the steps done
    before it and then the entry "error" with -1, and the error of its result
    starts with the prefix of step [k]: the log and the error text name the
    same failing step. *)
Theorem progress_log_of_a_run
  (omlClient : OpenMediaLogicClient) (now : nat -> string)
  (processEnv : string -> option string)
  (campaign : Campaign.t) (creatives : list Creative.t) (s s' : State)
  (r : Error + IntegrationResult) :
  handleCampaignPublish omlClient now (EnvConfig.getOmlConfig processEnv)
    campaign creatives s = (r, s') ->
  exists result,
    r = inr result
    /\ ((success result = true /\ Trail now s s' stepNames stepProgress)
        \/ (exists k m,
              (k < 5)%nat
              /\ success result = false
              /\ error result = Some (nth k stepPrefixes EmptyString ++ m)
              /\ Trail now s s' (firstn (S k) stepNames ++ ["error"])
                   (firstn (S k) stepProgress ++ [-1]))).
Proof.
  intros H.
  destruct (pipeline_cases omlClient now processEnv campaign creatives s)
    as [(blocks & commercials & spots & s5 & R) | (e & s1 & R)].
  - rewrite (handleCampaignPublish_completed _ _ _ _ _ _ _ _ _ _ R) in H.
    injection H as <- <-. exists completeResult. split; [reflexivity |]. left.
    split; [reflexivity |].
    apply (Trail_logged now s (afterSpots now s5) (firstn 6 stepNames)
             (firstn 6 stepProgress)).
    apply (Trail_logged now s s5 (firstn 5 stepNames) (firstn 5 stepProgress)).
    now apply (SpotsReserved_trail _ _ _ _ _ _ _ _ _ _ R).
  - rewrite (handleCampaignPublish_failed _ _ _ _ _ _ _ _ R) in H.
    injection H as <- <-. eexists. split; [reflexivity |]. right.
    destruct (StepRaises_trail _ _ _ _ _ _ _ _ R) as (k & m & Hk & Hm & T).
    exists k, m. split; [exact Hk |]. split; [reflexivity |]. split.
    + simpl. now rewrite Hm.
    + now apply Trail_logged.
Qed.

(** Witness of X6: the sample run with rejected credentials. *)
Lemma progress_log_of_a_run_witness :
  exists result s',
    handleCampaignPublish Sample.rejecting Sample.now
      (EnvConfig.getOmlConfig Sample.processEnv) Sample.campaign Sample.creatives
      (constructor Sample.world0) = (inr result, s')
    /\ map IntegrationProgress.step (progressLog s') = ["start"; "error"].
Proof.
  destruct (handleCampaignPublish Sample.rejecting Sample.now
              (EnvConfig.getOmlConfig Sample.processEnv) Sample.campaign Sample.creatives
              (constructor Sample.world0)) as [r s'] eqn:H.
  destruct (progress_log_of_a_run _ _ _ _ _ _ _ _ H) as (result & -> & _).
  exists result, s'. split; [reflexivity |].
  vm_compute in H. injection H as _ <-. reflexivity.
Defined.

(** ** The requests of a run *)

Lemma step_issues {A : Type} (allowed : Call -> bool) (c : M A) :
  (forall base,
     Preserves (fun s => exists new, calls (world s) = (base ++ new)%list
                                     /\ forallb allowed new = true) c) ->
  forall s r s', c s = (r, s') ->
    exists new, calls (world s') = (calls (world s) ++ new)%list
                /\ forallb allowed new = true.
Proof.
  intros H s r s' E. apply (H (calls (world s)) s r s'); [| exact E].
  exists []. now rewrite app_nil_r.
Qed.

Ltac issues_side :=
  first
    [ reflexivity
    | let c := fresh in
      let s := fresh in
      let Hc := fresh in
      let new := fresh in
      let H1 := fresh in
      let H2 := fresh in
      intros c s Hc (new & H1 & H2); exists (new ++ [c])%list; simpl;
      rewrite H1, app_assoc, forallb_app, H2; simpl; now rewrite Hc
    | let new := fresh in
      let H1 := fresh in
      let H2 := fresh in
      intros ? ? (new & H1 & H2); exists new; now split
    | let W := fresh in
      let new := fresh in
      let H1 := fresh in
      let H2 := fresh in
      intros ? ? W _ (new & H1 & H2); exists new; rewrite W; now split ].

Lemma kinds_of_allowed kind new :
  forallb (fun c => kind_eqb (kindOf c) kind) new = true ->
  map kindOf new = repeat kind (List.length new).
Proof.
  induction new as [| c new IH]; simpl; [reflexivity |].
  intros H. apply andb_prop in H as [H1 H2]. rewrite (IH H2). f_equal.
  destruct (kindOf c), kind; (reflexivity || discriminate).
Qed.

Lemma Issued_refl s : Issued s s [].
Proof. exists []. now rewrite app_nil_r. Qed.

Lemma Issued_trans s s1 s2 kinds1 kinds2 :
  Issued s s1 kinds1 -> Issued s1 s2 kinds2 -> Issued s s2 (kinds1 ++ kinds2).
Proof.
  intros (n1 & C1 & K1) (n2 & C2 & K2). exists (n1 ++ n2)%list.
  rewrite C2, C1, map_app, K1, K2, app_assoc. now split.
Qed.

Lemma Issued_logged now step progress message s s' kinds :
  Issued s s' kinds -> Issued s (logged now step progress message s') kinds.
Proof. intros H. exact H. Qed.

Lemma wrapped_state {A : Type} (c : M A) (wrap : Error -> Error) s r s' :
  try_catch c (fun error => throw (wrap error)) s = (r, s') ->
  exists r0, c s = (r0, s') /\ (forall a, r = inr a -> r0 = inr a).
Proof.
  unfold try_catch, throw. destruct (c s) as [[e | a] s0]; intros [= <- <-].
  - eexists. split; [reflexivity | discriminate].
  - eexists. split; [reflexivity | auto].
Qed.

Ltac same_kinds T :=
  match type of T with
  | Issued _ _ ?given =>
      match goal with
      | |- Issued _ _ ?wanted =>
          replace wanted with given;
          [ exact T
          | unfold requestKinds;
            repeat (progress (simpl; rewrite ?app_nil_r, <- ?app_assoc));
            reflexivity ]
      end
  end.

Section Requests.
Variable omlClient : OpenMediaLogicClient.

Lemma authenticate_issues config s r s' :
  authenticate omlClient config s = (r, s') -> Issued s s' [KLogin].
Proof.
  intros H. apply authenticate_effect in H as (C & _).
  exists [Login (omlUsername config) (omlPassword config)]. now split.
Qed.

Lemma syncReferenceDictionaries_issues campaign creatives s r s' :
  syncReferenceDictionaries omlClient campaign creatives s = (r, s') ->
  exists a, Issued s s' (repeat KLookup a).
Proof.
  intros H.
  assert (K : forall base,
             Preserves (fun s => exists new, calls (world s) = (base ++ new)%list
                                  /\ forallb (fun c => kind_eqb (kindOf c) KLookup) new
                                     = true)
               (syncReferenceDictionaries omlClient campaign creatives)).
  { intros base.
    apply keep_syncReferenceDictionaries
      with (allowed := fun c => kind_eqb (kindOf c) KLookup);
      try issues_side.
    now intros []. }
  destruct (step_issues _ _ K _ _ _ H) as (new & C & F).
  exists (List.length new), new. split; [exact C | now apply kinds_of_allowed].
Qed.

Lemma getMappedIdOrThrow_state entityType lbxId s r s' :
  getMappedIdOrThrow entityType lbxId s = (r, s') -> s' = s.
Proof.
  unfold getMappedIdOrThrow.
  destruct (JsMap.get String.eqb (mappingCache s) entityType) as [mapping |];
    [destruct (JsMap.get Z.eqb mapping lbxId) |]; now intros [= _ <-].
Qed.

Lemma findBlocksForPlacement_issues start_date end_date s r s' :
  findBlocksForPlacement omlClient start_date end_date s = (r, s') ->
  exists k b,
    Issued s s' (repeat KBooking k ++ repeat KBlockDetail b)
    /\ (k <= 1)%nat /\ (k = 0%nat -> b = 0%nat)
    /\ (forall blocks, r = inr blocks -> k = 1%nat).
Proof.
  intros H. apply wrapped_state in H as (r0 & H & R). unfold bind in H.
  destruct (getMappedIdOrThrow "channels" 9 s) as [[e | omlChannelId] s0] eqn:G;
    apply getMappedIdOrThrow_state in G as ->.
  - injection H as <- <-. exists 0%nat, 0%nat. split; [apply Issued_refl |].
    split; [lia |]. split; [auto |]. intros blocks E. now discriminate (R blocks E).
  - unfold request at 1 in H.
    destruct (getChannelBooking omlClient (calls (world s)) omlChannelId start_date
                end_date) as [e | grid].
    + injection H as <- <-. exists 1%nat, 0%nat. split.
      * exists [GetChannelBooking omlChannelId start_date end_date]. now split.
      * split; [lia |]. split; [discriminate | auto].
    + assert (K : forall base,
                 Preserves
                   (fun s => exists new,
                        calls (world s) = (base ++ new)%list
                        /\ forallb (fun c => kind_eqb (kindOf c) KBlockDetail) new = true)
                   (for_of_with (map fst grid) (scanDate omlClient grid) [])).
      { intros base.
        apply keep_scan with (allowed := fun c => kind_eqb (kindOf c) KBlockDetail);
          try issues_side. }
      destruct (step_issues _ _ K _ _ _ H) as (new & C & F).
      exists 1%nat, (List.length new). split.
      * exists (GetChannelBooking omlChannelId start_date end_date :: new). split.
        -- rewrite C. simpl. now rewrite <- app_assoc.
        -- simpl. f_equal. now apply kinds_of_allowed.
      * split; [lia |]. split; [discriminate | auto].
Qed.

Lemma findAndMapCommercials_issues creatives s r s' :
  findAndMapCommercials omlClient creatives s = (r, s') -> Issued s s' [KCommercials].
Proof.
  intros H. apply wrapped_state in H as (r0 & H & _). unfold bind, request, ret in H.
  exists [GetCommercials (Some 10000)].
  destruct (getCommercials omlClient (calls (world s)) (Some 10000));
    injection H as _ <-; now split.
Qed.

Lemma reserveSpots_issues config block s r s' :
  reserveSpots omlClient config block s = (r, s') ->
  exists t, Issued s s' (KMediaplans :: repeat KAttach t) /\ (t <= 1)%nat.
Proof.
  destruct (getMediaplans omlClient (calls (world s)) 10000) as [e | mediaplans] eqn:G.
  - intros H. apply wrapped_state in H as (r0 & H & _). unfold bind, request in H.
    rewrite G in H. injection H as _ <-. exists 0%nat.
    split; [| lia]. exists [GetMediaplans 10000]. now split.
  - rewrite (reserveSpots_cases omlClient config block s mediaplans G). cbv zeta.
    destruct (find _ mediaplans) as [mp |];
      [destruct (firstCommercial (Some mp)) as [c |];
       [destruct (addSpotToBlock _ _ _ _ _) |] |];
      intros [= _ <-].
    1, 2: exists 1%nat; split; [| lia];
      exists [GetMediaplans 10000; AddSpotToBlock (block_id_of block) (spotData c mp) None];
      simpl; rewrite <- app_assoc; now split.
    1, 2: exists 0%nat; split; [| lia]; exists [GetMediaplans 10000]; now split.
Qed.

Variable now : nat -> string.
Variable config : IntegrationConfig.
Variables (campaign : Campaign.t) (creatives : list Creative.t).

Lemma Authenticated_issued s s1 :
  Authenticated omlClient now config s s1 -> Issued s s1 (requestKinds 0 0 0 0 0 0).
Proof. intros [H]. now apply authenticate_issues in H. Qed.

Lemma Synced_issued s s2 :
  Synced omlClient now config campaign creatives s s2 ->
  exists a, Issued s s2 (requestKinds a 0 0 0 0 0).
Proof.
  intros [s1 A H]. apply Authenticated_issued in A.
  apply syncReferenceDictionaries_issues in H as [a H]. exists a.
  pose proof (Issued_trans s s1 s2 _ _ A H) as T.
  same_kinds T.
Qed.

Lemma BlocksFound_issued s blocks s3 :
  BlocksFound omlClient now config campaign creatives s blocks s3 ->
  exists a b, Issued s s3 (requestKinds a 1 b 0 0 0).
Proof.
  intros [s2 A H]. apply Synced_issued in A as [a A].
  apply findBlocksForPlacement_issues in H as (k & b & H & _ & _ & K).
  rewrite (K blocks eq_refl) in H. exists a, b.
  pose proof (Issued_trans s s2 s3 _ _ A H) as T.
  same_kinds T.
Qed.

Lemma CommercialsMapped_issued s blocks commercials s4 :
  CommercialsMapped omlClient now config campaign creatives s blocks commercials s4 ->
  exists a b, Issued s s4 (requestKinds a 1 b 1 0 0).
Proof.
  intros [s3 A H]. apply BlocksFound_issued in A as (a & b & A).
  apply findAndMapCommercials_issues in H. exists a, b.
  pose proof (Issued_trans s s3 s4 _ _ A H) as T.
  same_kinds T.
Qed.

Lemma SpotsReserved_issued s blocks commercials spots s5 :
  SpotsReserved omlClient now config campaign creatives s blocks commercials spots s5 ->
  exists a b t, Issued s s5 (requestKinds a 1 b 1 1 t) /\ (t <= 1)%nat.
Proof.
  intros [s4 A H]. apply CommercialsMapped_issued in A as (a & b & A).
  apply reserveSpots_issues in H as (t & H & Ht). exists a, b, t. split; [| exact Ht].
  pose proof (Issued_trans s s4 s5 _ _ A H) as T.
  same_kinds T.
Qed.

Lemma StepRaises_issued s e s' :
  StepRaises omlClient now config campaign creatives s e s' ->
  exists a k b c m t,
    Issued s s' (requestKinds a k b c m t)
    /\ (t <= m)%nat /\ (m <= c)%nat /\ (c <= k)%nat /\ (k <= 1)%nat
    /\ (k = 0%nat -> b = 0%nat).
Proof.
  intros [H | s1 A H | s2 A H | blocks s3 A H | blocks commercials s4 A H].
  - apply authenticate_issues in H.
    exists 0%nat, 0%nat, 0%nat, 0%nat, 0%nat, 0%nat.
    split; [exact H | repeat split; lia].
  - apply Authenticated_issued in A.
    apply syncReferenceDictionaries_issues in H as [a H].
    exists a, 0%nat, 0%nat, 0%nat, 0%nat, 0%nat. split; [| repeat split; lia].
    pose proof (Issued_trans s s1 s' _ _ A H) as T.
    same_kinds T.
  - apply Synced_issued in A as [a A].
    apply findBlocksForPlacement_issues in H as (k & b & H & K1 & K0 & _).
    exists a, k, b, 0%nat, 0%nat, 0%nat. split; [| repeat split; (lia || exact K0)].
    pose proof (Issued_trans s s2 s' _ _ A H) as T.
    same_kinds T.
  - apply BlocksFound_issued in A as (a & b & A).
    apply findAndMapCommercials_issues in H.
    exists a, 1%nat, b, 1%nat, 0%nat, 0%nat. split; [| repeat split; lia].
    pose proof (Issued_trans s s3 s' _ _ A H) as T.
    same_kinds T.
  - apply CommercialsMapped_issued in A as (a & b & A).
    apply reserveSpots_issues in H as (t & H & Ht).
    exists a, 1%nat, b, 1%nat, 1%nat, t. split; [| repeat split; lia].
    pose proof (Issued_trans s s4 s' _ _ A H) as T.
    same_kinds T.
Qed.

End Requests.

(** X7: the requests of a run.  Whatever the platform answers, a run adds to
    the request history, in this order: exactly one login, some dictionary
    lookups, at most one booking request followed by block-detail requests,
    at most one catalog request, at most one media-plan listing and at most
    one attachment.  Nothing is retried, a later kind of request is issued
    only when the earlier one was ([t <= m <= c <= k <= 1]), block details are
    asked only after a booking request, and a run that succeeds has issued the
    booking, the catalog and the media-plan request. *)
Theorem requests_of_a_run
  (omlClient : OpenMediaLogicClient) (now : nat -> string)
  (processEnv : string -> option string)
  (campaign : Campaign.t) (creatives : list Creative.t) (s s' : State)
  (r : Error + IntegrationResult) :
  handleCampaignPublish omlClient now (EnvConfig.getOmlConfig processEnv)
    campaign creatives s = (r, s') ->
  exists a k b c m t,
    Issued s s' (requestKinds a k b c m t)
    /\ (t <= m)%nat /\ (m <= c)%nat /\ (c <= k)%nat /\ (k <= 1)%nat
    /\ (k = 0%nat -> b = 0%nat)
    /\ (forall result, r = inr result -> success result = true -> m = 1%nat).
Proof.
  intros H.
  destruct (pipeline_cases omlClient now processEnv campaign creatives s)
    as [(blocks & commercials & spots & s5 & R) | (e & s1 & R)].
  - rewrite (handleCampaignPublish_completed _ _ _ _ _ _ _ _ _ _ R) in H.
    injection H as <- <-.
    apply SpotsReserved_issued in R as (a & b & t & R & Ht).
    exists a, 1%nat, b, 1%nat, 1%nat, t. split; [exact R |].
    repeat split; (lia || auto).
  - rewrite (handleCampaignPublish_failed _ _ _ _ _ _ _ _ R) in H.
    injection H as <- <-.
    apply StepRaises_issued in R as (a & k & b & c & m & t & R & H1 & H2 & H3 & H4 & H5).
    exists a, k, b, c, m, t. split; [exact R |].
    repeat split; try assumption. intros result [= <-]. discriminate.
Qed.

(** Witness of X7: the sample run is a run. *)
Lemma requests_of_a_run_witness :
  exists result s',
    handleCampaignPublish Sample.omlClient Sample.now
      (EnvConfig.getOmlConfig Sample.processEnv) Sample.campaign Sample.creatives
      (constructor Sample.world0) = (inr result, s')
    /\ exists kinds, Issued (constructor Sample.world0) s' kinds.
Proof.
  destruct (handleCampaignPublish Sample.omlClient Sample.now
              (EnvConfig.getOmlConfig Sample.processEnv) Sample.campaign Sample.creatives
              (constructor Sample.world0)) as [r s'] eqn:H.
  destruct (requests_of_a_run _ _ _ _ _ _ _ _ H) as (a & k & b & c & m & t & I & _).
  assert (R : exists result, r = inr result)
    by (vm_compute in H; injection H as <- _; eexists; reflexivity).
  destruct R as [result ->]. exists result, s'. split; [reflexivity |].
  now exists (requestKinds a k b c m t).
Defined.

(** ** The channel of the block search *)

Lemma cache_get_same key l s s' :
  mappingCache s' = mappingCache s -> cache_get key l s' = cache_get key l s.
Proof. unfold cache_get. now intros ->. Qed.

(** The dictionary step gives no entry to an id the campaign does not refer
    to. *)
Lemma syncReferenceDictionaries_frame omlClient campaign creatives s r s' :
  syncReferenceDictionaries omlClient campaign creatives s = (r, s') ->
  forall t l, ~ In l (referenced campaign creatives t) ->
              cache_get (entityKey t) l s' = cache_get (entityKey t) l s.
Proof.
  intros H t l N. apply wrapped_state in H as (r0 & H & _). cbv zeta in H.
  change (syncAdvertisers omlClient [Campaign.advertiser_id campaign])
    with (sync omlClient advertisers (referenced campaign creatives advertisers)) in H.
  change (syncBrands omlClient (collectBrandIds campaign creatives))
    with (sync omlClient brands (referenced campaign creatives brands)) in H.
  change (syncChannels omlClient (map Placement.channel_id (Campaign.placements campaign)))
    with (sync omlClient channels (referenced campaign creatives channels)) in H.
  change (syncTargetAudiences omlClient
            (map Placement.target_audience_id (Campaign.placements campaign)))
    with (sync omlClient targetAudiences
            (referenced campaign creatives targetAudiences)) in H.
  assert (Side : forall t', entityKey t <> entityKey t'
                            \/ ~ In l (referenced campaign creatives t')).
  { intros t'. destruct t, t'; (now right) || (left; discriminate). }
  unfold bind in H.
  destruct (sync omlClient advertisers _ s) as [r1 s1] eqn:H1.
  pose proof (sync_frame _ _ _ _ _ _ H1 _ _ (Side advertisers)) as F1.
  destruct r1 as [e | []]; [injection H as _ <-; exact F1 |].
  destruct (sync omlClient brands _ s1) as [r2 s2] eqn:H2.
  pose proof (sync_frame _ _ _ _ _ _ H2 _ _ (Side brands)) as F2.
  destruct r2 as [e | []]; [injection H as _ <-; congruence |].
  destruct (sync omlClient channels _ s2) as [r3 s3] eqn:H3.
  pose proof (sync_frame _ _ _ _ _ _ H3 _ _ (Side channels)) as F3.
  destruct r3 as [e | []]; [injection H as _ <-; congruence |].
  pose proof (sync_frame _ _ _ _ _ _ H _ _ (Side targetAudiences)) as F4.
  congruence.
Qed.

(** Without an entry for the local channel 9, the block search throws before
    any request. *)
Lemma findBlocksForPlacement_unmapped omlClient start_date end_date s :
  cache_get "channels" 9 s = None ->
  findBlocksForPlacement omlClient start_date end_date s
  = (inl (mkError ("Помилка при пошуку блоків для розміщення: "
                   ++ "Не знайдено маппінг для channels з ID 9")), s).
Proof.
  intros H. unfold findBlocksForPlacement, try_catch, bind, getMappedIdOrThrow.
  unfold cache_get in H.
  destruct (JsMap.get String.eqb (mappingCache s) "channels") as [mapping |];
    [rewrite H |]; reflexivity.
Qed.

Section Channel9.
Variable omlClient : OpenMediaLogicClient.
Variable now : nat -> string.
Variable config : IntegrationConfig.
Variables (campaign : Campaign.t) (creatives : list Creative.t).
Hypothesis off_channel_9 :
  ~ In 9 (map Placement.channel_id (Campaign.placements campaign)).

Lemma Synced_channel_9 s s2 :
  Synced omlClient now config campaign creatives s s2 ->
  cache_get "channels" 9 (afterSync now s2) = cache_get "channels" 9 s.
Proof.
  intros [s1 [A] H].
  apply authenticate_effect in A as (_ & _ & _ & A & _).
  apply syncReferenceDictionaries_frame with (t := channels) (l := 9) in H;
    [| exact off_channel_9].
  change (cache_get "channels" 9 s2 = cache_get "channels" 9 s1) in H.
  change (cache_get "channels" 9 s2 = cache_get "channels" 9 s).
  rewrite H. now apply cache_get_same.
Qed.

Lemma BlocksFound_channel_9 s blocks s3 :
  BlocksFound omlClient now config campaign creatives s blocks s3 ->
  cache_get "channels" 9 s <> None.
Proof.
  intros [s2 A H] N. rewrite <- (Synced_channel_9 _ _ A) in N.
  rewrite (findBlocksForPlacement_unmapped _ _ _ _ N) in H. discriminate.
Qed.

End Channel9.

(** X8: the block search asks for the local channel 9 whatever the campaign
    is placed on.  A campaign with no placement on channel 9, run from a state
    without an entry for channel 9 (a new instance is one), never succeeds:
    the run fails in authentication, in the dictionary step or, when both
    returned, in the block search with the lookup failure of channel 9; it
    issues its login and dictionary lookups and no request of a later step. *)
Theorem campaign_off_channel_9_fails
  (omlClient : OpenMediaLogicClient) (now : nat -> string)
  (processEnv : string -> option string)
  (campaign : Campaign.t) (creatives : list Creative.t) (s s' : State)
  (r : Error + IntegrationResult) :
  ~ In 9 (map Placement.channel_id (Campaign.placements campaign)) ->
  cache_get "channels" 9 s = None ->
  handleCampaignPublish omlClient now (EnvConfig.getOmlConfig processEnv)
    campaign creatives s = (r, s') ->
  exists result k m a,
    r = inr result
    /\ success result = false
    /\ (k <= 2)%nat
    /\ error result = Some (nth k stepPrefixes EmptyString ++ m)
    /\ (k = 2%nat -> m = "Не знайдено маппінг для channels з ID 9")
    /\ Issued s s' (requestKinds a 0 0 0 0 0).
Proof.
  intros Off None9 H.
  destruct (pipeline_cases omlClient now processEnv campaign creatives s)
    as [(blocks & commercials & spots & s5 & R) | (e & s1 & R)].
  - destruct R as [s4 [s3 B _] _].
    now destruct (BlocksFound_channel_9 _ _ _ _ _ Off _ _ _ B).
  - rewrite (handleCampaignPublish_failed _ _ _ _ _ _ _ _ R) in H.
    injection H as <- <-.
    destruct R as [H | s1' A H | s2 A H | blocks s3 A H | blocks commercials s4 A H].
    + destruct (wrapped_prefix _ _ _ _ _ H) as [m Hm].
      apply authenticate_issues in H.
      eexists _, 0%nat, m, 0%nat. split; [reflexivity |]. split; [reflexivity |].
      split; [lia |]. split; [simpl; now rewrite Hm |]. split; [discriminate | exact H].
    + destruct (wrapped_prefix _ _ _ _ _ H) as [m Hm].
      apply Authenticated_issued in A.
      apply syncReferenceDictionaries_issues in H as [a H].
      eexists _, 1%nat, m, a. split; [reflexivity |]. split; [reflexivity |].
      split; [lia |]. split; [simpl; now rewrite Hm |]. split; [discriminate |].
      pose proof (Issued_trans s s1' s1 _ _ A H) as T. same_kinds T.
    + pose proof (Synced_channel_9 _ _ _ _ _ Off _ _ A) as N. rewrite None9 in N.
      rewrite (findBlocksForPlacement_unmapped _ _ _ _ N) in H.
      injection H as <- <-.
      apply Synced_issued in A as [a A].
      eexists _, 2%nat, _, a. split; [reflexivity |]. split; [reflexivity |].
      split; [lia |]. split; [reflexivity |]. split; [reflexivity | exact A].
    + now destruct (BlocksFound_channel_9 _ _ _ _ _ Off _ _ _ A).
    + destruct A as [s3 B _].
      now destruct (BlocksFound_channel_9 _ _ _ _ _ Off _ _ _ B).
Qed.

(** Witness of X8: the sample campaign without its placements, on a new
    instance. *)
Lemma campaign_off_channel_9_fails_witness :
  exists result s',
    handleCampaignPublish Sample.omlClient Sample.now
      (EnvConfig.getOmlConfig Sample.processEnv)
      {| Campaign.id := 12345;
         Campaign.name := "Summer Campaign 2025";
         Campaign.start_date := "2025-04-24";
         Campaign.end_date := "2025-04-30";
         Campaign.budget := 1000000;
         Campaign.advertiser_id := 101;
         Campaign.status := "draft";
         Campaign.creative_ids := [201; 202];
         Campaign.placements := [] |}
      Sample.creatives (constructor Sample.world0) = (inr result, s')
    /\ success result = false.
Proof.
  set (campaign := {| Campaign.id := 12345;
                       Campaign.name := "Summer Campaign 2025";
                       Campaign.start_date := "2025-04-24";
                       Campaign.end_date := "2025-04-30";
                       Campaign.budget := 1000000;
                       Campaign.advertiser_id := 101;
                       Campaign.status := "draft";
                       Campaign.creative_ids := [201; 202];
                       Campaign.placements := [] |}).
  destruct (handleCampaignPublish Sample.omlClient Sample.now
              (EnvConfig.getOmlConfig Sample.processEnv) campaign
              Sample.creatives (constructor Sample.world0)) as [r s'] eqn:H.
  assert (Off : ~ In 9 (map Placement.channel_id (Campaign.placements campaign)))
    by (intros []).
  destruct (campaign_off_channel_9_fails Sample.omlClient Sample.now Sample.processEnv
              campaign Sample.creatives (constructor Sample.world0) s' r Off eq_refl H)
    as (result & k & m & a & -> & F & _).
  exists result, s'. split; [reflexivity | exact F].
Defined.

(** ** The reservation step within a run *)

Lemma reserveSpots_listing_fails omlClient config block s e0 :
  getMediaplans omlClient (calls (world s)) 10000 = inl e0 ->
  reserveSpots omlClient config block s
  = (inl (mkError ("Помилка при бронюванні спотів: " ++ message e0)),
     issued (GetMediaplans 10000) s).
Proof.
  intros G. unfold reserveSpots, try_catch, bind, request. now rewrite G.
Qed.

(** X9: once the commercials are mapped, the outcome of the run is decided by
    the media-plan listing alone.  When the listing is answered the run ends
    with the Complete result and its log says "Заброньовано 1 спотів в OML",
    whether the attachment was accepted, refused or never requested; the
    attachment is requested, once, exactly when the listing holds the media
    plan 42338 with a first commercial.  When the listing is refused the run
    ends with a Failed result whose error is the platform's message behind
    the prefix of the reservation step, and no attachment is requested. *)
Theorem run_outcome_after_commercials
  (omlClient : OpenMediaLogicClient) (now : nat -> string)
  (processEnv : string -> option string)
  (campaign : Campaign.t) (creatives : list Creative.t)
  (s s4 : State) (blocks : list Block.t) (commercials : list Commercial.t) :
  CommercialsMapped omlClient now (EnvConfig.getOmlConfig processEnv) campaign creatives
    s blocks commercials s4 ->
  exists r s',
    handleCampaignPublish omlClient now (EnvConfig.getOmlConfig processEnv)
      campaign creatives s = (inr r, s')
    /\ match getMediaplans omlClient (calls (world s4)) 10000 with
       | inr mediaplans =>
           r = completeResult
           /\ In "Заброньовано 1 спотів в OML"
                (map IntegrationProgress.message (progressLog s'))
           /\ exists t,
                Issued s4 s' (KMediaplans :: repeat KAttach t)
                /\ (t <= 1)%nat
                /\ (t = 1%nat
                    <-> firstCommercial
                          (find (fun el => strict_eq (Mediaplan.id el) 42338) mediaplans)
                        <> None)
       | inl e0 =>
           success r = false
           /\ error r = Some ("Помилка при бронюванні спотів: " ++ message e0)
           /\ Issued s4 s' [KMediaplans]
       end.
Proof.
  intros M.
  destruct (getMediaplans omlClient (calls (world s4)) 10000) as [e0 | mediaplans] eqn:G.
  - assert (G' : getMediaplans omlClient
                   (calls (world (afterCommercials now commercials s4))) 10000
                 = inl e0) by exact G.
    pose proof (reserveSpots_listing_fails omlClient (EnvConfig.getOmlConfig processEnv)
                  (nth_error blocks 0) _ e0 G') as R.
    assert (F : StepRaises omlClient now (EnvConfig.getOmlConfig processEnv) campaign
                  creatives s
                  (mkError ("Помилка при бронюванні спотів: " ++ message e0))
                  (issued (GetMediaplans 10000) (afterCommercials now commercials s4)))
      by (eapply raises_spots; [exact M | exact R]).
    eexists _, _. split; [exact (handleCampaignPublish_failed _ _ _ _ _ _ _ _ F) |].
    split; [reflexivity |]. split; [reflexivity |].
    exists [GetMediaplans 10000]. now split.
  - assert (G' : getMediaplans omlClient
                   (calls (world (afterCommercials now commercials s4))) 10000
                 = inr mediaplans) by exact G.
    pose proof (reserveSpots_cases omlClient (EnvConfig.getOmlConfig processEnv)
                  (nth_error blocks 0) _ mediaplans G') as R.
    cbv zeta in R.
    assert (Logged : forall s5,
               In "Заброньовано 1 спотів в OML"
                 (map IntegrationProgress.message
                    (progressLog (afterComplete now (afterSpots now s5))))).
    { intros s5. simpl. rewrite !map_app. apply in_or_app. left. apply in_or_app.
      right. now left. }
    destruct (find (fun el => strict_eq (Mediaplan.id el) 42338) mediaplans) as [mp |];
      [destruct (firstCommercial (Some mp)) as [c |] eqn:C;
       [destruct (addSpotToBlock _ _ _ _ _) |] |].
    1, 2: eexists completeResult, _; split;
      [ eapply handleCampaignPublish_completed; eapply spotsReserved; [exact M | exact R]
      | split; [reflexivity |]; split; [apply Logged |]; exists 1%nat; split;
        [ exists [GetMediaplans 10000;
                  AddSpotToBlock (block_id_of (nth_error blocks 0)) (spotData c mp) None];
          simpl; rewrite <- app_assoc; now split
        | split; [lia | split; [discriminate | reflexivity]] ] ].
    1, 2: eexists completeResult, _; split;
      [ eapply handleCampaignPublish_completed; eapply spotsReserved; [exact M | exact R]
      | split; [reflexivity |]; split; [apply Logged |]; exists 0%nat; split;
        [ exists [GetMediaplans 10000]; now split
        | split; [lia | split; [discriminate | intros N; now destruct N]] ] ].
Qed.

(** Witness of X9: the sample run up to the catalog step. *)
Lemma run_outcome_after_commercials_witness :
  exists s',
    handleCampaignPublish Sample.refusingSpots Sample.now
      (EnvConfig.getOmlConfig Sample.processEnv) Sample.campaign Sample.creatives
      (constructor Sample.world0) = (inr completeResult, s')
    /\ In "Заброньовано 1 спотів в OML" (map IntegrationProgress.message (progressLog s')).
Proof.
  assert (M : exists blocks s4,
             CommercialsMapped Sample.refusingSpots Sample.now
               (EnvConfig.getOmlConfig Sample.processEnv) Sample.campaign Sample.creatives
               (constructor Sample.world0) blocks
               [Sample.commercial 201 "Summer Promo 30s"] s4).
  { eexists _, _. run_chain. }
  destruct M as (blocks & s4 & M).
  destruct (run_outcome_after_commercials _ _ _ _ _ _ _ _ _ M) as (r & s' & H & O).
  change (getMediaplans Sample.refusingSpots (calls (world s4)) 10000)
    with (@inr Error _ [Sample.mediaplan 42338 [Sample.commercial 201 "Summer Promo 30s"]])
    in O.
  destruct O as (-> & L & _). exists s'. split; [exact H | exact L].
Defined.

(** ** The earlier trigger: the search for a commercial *)

Section TriggerSearch.
Variable omlClient : OpenMediaLogicClient.

Lemma considerMediaplan_cases mediaplan vars s r s' :
  LightboxCampaignTrigger.considerMediaplan omlClient mediaplan vars s = (r, s') ->
  (firstCommercial (Some mediaplan) = None -> r = inr vars /\ s' = s)
  /\ (forall vars', r = inr vars' ->
        vars' = vars
        \/ (exists b, vars' = (Some b, Some mediaplan))
           /\ firstCommercial (Some mediaplan) <> None)
  /\ (forall e, r = inl e ->
        exists m, message e = "Помилка при пошуку блоків для розміщення: " ++ m).
Proof.
  unfold LightboxCampaignTrigger.considerMediaplan, firstCommercial.
  destruct (Mediaplan.commercials mediaplan) as [[| c cs] |].
  1, 3: intros [= <- <-]; split; [now split |]; split;
    [intros vars' [= <-]; now left | discriminate].
  unfold bind, LightboxCampaignTrigger.findBlocksForPlacement.
  destruct (findBlocksForPlacement omlClient _ _ s) as [[e | blocks] s1] eqn:F.
  - intros [= <- <-]. split; [discriminate |]. split; [discriminate |].
    intros e0 [= <-]. exact (wrapped_prefix _ _ _ _ _ F).
  - destruct blocks as [| first rest]; intros [= <- <-].
    + split; [discriminate |]. split; [intros vars' [= <-]; now left | discriminate].
    + split; [discriminate |]. split; [| discriminate].
      intros vars' [= <-]. right. split; [now exists first | discriminate].
Qed.

Lemma considerMediaplan_loop pool mediaplans :
  incl mediaplans pool ->
  forall vars s r s',
    for_of_with mediaplans (LightboxCampaignTrigger.considerMediaplan omlClient) vars s
    = (r, s') ->
    selection pool vars ->
    (forall vars', r = inr vars' -> selection pool vars')
    /\ (forall e, r = inl e ->
          exists m, message e = "Помилка при пошуку блоків для розміщення: " ++ m)
    /\ (Forall (fun mp => firstCommercial (Some mp) = None) mediaplans ->
        r = inr vars /\ s' = s).
Proof.
  induction mediaplans as [| mp rest IH]; intros Sub vars s r s' H Inv; simpl in H.
  - injection H as <- <-. split; [now intros vars' [= <-] |]. split; [discriminate |].
    now split.
  - unfold bind in H.
    destruct (LightboxCampaignTrigger.considerMediaplan omlClient mp vars s)
      as [[e | vars1] s1] eqn:C.
    + injection H as <- <-.
      destruct (considerMediaplan_cases _ _ _ _ _ C) as (C0 & _ & C2).
      split; [discriminate |]. split; [intros e0 [= <-]; now apply C2 |].
      intros F. inversion F as [| ? ? F1 F2]; subst.
      now destruct (C0 F1).
    + destruct (considerMediaplan_cases _ _ _ _ _ C) as (C0 & C1 & _).
      assert (Inv1 : selection pool vars1).
      { destruct (C1 vars1 eq_refl) as [-> | [[b ->] N]]; [exact Inv |].
        unfold selection. simpl. split; [apply Sub; now left |]. split; [exact N |].
        discriminate. }
      assert (Sub' : incl rest pool) by (intros x Hx; apply Sub; now right).
      destruct (IH Sub' _ _ _ _ H Inv1) as (I1 & I2 & I3).
      split; [exact I1 |]. split; [exact I2 |].
      intros F. inversion F as [| ? ? F1 F2]; subst.
      destruct (C0 F1) as [[= ->] ->]. now apply I3.
Qed.

End TriggerSearch.

(** X10: the search of the earlier trigger.  When
    [findCommercialForPlacement] returns, the commercial is the first
    commercial of the returned media plan; a returned media plan is one of
    the listing, has a first commercial and comes with a block, and without a
    media plan there is no block and no commercial.  It throws only what a
    block search threw.  Media plans without commercials cost no request:
    when no media plan of the listing has a commercial, nothing is returned
    and the state is as before. *)
Theorem trigger_findCommercialForPlacement_selects
  (omlClient : OpenMediaLogicClient) (mediaplans : list Mediaplan.t)
  (s s' : State)
  (r : Error + (option Commercial.t * option Mediaplan.t * option Block.t)) :
  LightboxCampaignTrigger.findCommercialForPlacement omlClient mediaplans s = (r, s') ->
  (forall commercial mediaplan block,
      r = inr (commercial, mediaplan, block) ->
      commercial = firstCommercial mediaplan
      /\ match mediaplan with
         | Some mp => In mp mediaplans /\ commercial <> None /\ block <> None
         | None => block = None
         end)
  /\ (forall e, r = inl e ->
        exists m, message e = "Помилка при пошуку блоків для розміщення: " ++ m)
  /\ (Forall (fun mp => firstCommercial (Some mp) = None) mediaplans ->
      r = inr (None, None, None) /\ s' = s).
Proof.
  unfold LightboxCampaignTrigger.findCommercialForPlacement, bind. intros H.
  destruct (for_of_with mediaplans (LightboxCampaignTrigger.considerMediaplan omlClient)
              (None, None) s) as [[e | vars] s1] eqn:L;
    injection H as <- <-;
    destruct (considerMediaplan_loop omlClient mediaplans mediaplans
                (fun x Hx => Hx) _ _ _ _ L eq_refl) as (I1 & I2 & I3).
  - split; [discriminate |]. split; [intros e0 [= <-]; now apply I2 |].
    intros F. now destruct (I3 F).
  - split.
    + intros commercial mediaplan block [= <- <- <-]. split; [reflexivity |].
      pose proof (I1 vars eq_refl) as Inv. unfold selection in Inv.
      destruct (snd vars) as [mp |]; [| exact Inv].
      destruct Inv as (A & B & C). now repeat split.
    + split; [discriminate |]. intros F. destruct (I3 F) as [[= ->] ->]. now split.
Qed.

(** Witness of X10: the listing of the sample platform, after the sample
    dictionary step. *)
Lemma trigger_findCommercialForPlacement_selects_witness :
  exists commercial mediaplan block s',
    LightboxCampaignTrigger.findCommercialForPlacement Sample.omlClient
      [Sample.mediaplan 42338 [Sample.commercial 201 "Summer Promo 30s"]]
      (snd (syncReferenceDictionaries Sample.omlClient Sample.campaign Sample.creatives
              (constructor Sample.world0)))
    = (inr (commercial, mediaplan, block), s')
    /\ commercial = firstCommercial mediaplan.
Proof.
  destruct (LightboxCampaignTrigger.findCommercialForPlacement Sample.omlClient
              [Sample.mediaplan 42338 [Sample.commercial 201 "Summer Promo 30s"]]
              (snd (syncReferenceDictionaries Sample.omlClient Sample.campaign
                      Sample.creatives (constructor Sample.world0))))
    as [r s'] eqn:H.
  destruct (trigger_findCommercialForPlacement_selects _ _ _ _ _ H) as (A & _).
  assert (R : exists found, r = inr found)
    by (vm_compute in H; injection H as <- _; eexists; reflexivity).
  destruct R as [[[commercial mediaplan] block] ->].
  exists commercial, mediaplan, block, s'. split; [reflexivity |].
  exact (proj1 (A commercial mediaplan block eq_refl)).
Defined.

(** ** The earlier trigger: the reservation *)

Lemma strict_eq_opt_true a b : strict_eq_opt a b = true -> a = b.
Proof.
  destruct a as [x |], b as [y |]; simpl; try discriminate; [| reflexivity].
  intros H. apply Z.eqb_eq in H. now subst.
Qed.

Lemma findBlocksForPlacement_console omlClient start_date end_date s r s' :
  findBlocksForPlacement omlClient start_date end_date s = (r, s') ->
  console (world s') = console (world s).
Proof.
  intros H.
  assert (K : Preserves (fun s0 => console (world s0) = console (world s))
                (findBlocksForPlacement omlClient start_date end_date)).
  { apply keep_findBlocksForPlacement with (allowed := fun _ => true);
      first [ reflexivity
            | exact (fun _ _ _ H0 => H0)
            | intros s0 s1 W _ H0; now rewrite W ]. }
  exact (K s r s' eq_refl H).
Qed.

Lemma findCommercialForPlacement_console omlClient mediaplans s r s' :
  LightboxCampaignTrigger.findCommercialForPlacement omlClient mediaplans s = (r, s') ->
  console (world s') = console (world s).
Proof.
  intros H.
  assert (K : Preserves (fun s0 => console (world s0) = console (world s))
                (LightboxCampaignTrigger.findCommercialForPlacement omlClient mediaplans)).
  { apply preserves_bind; [| intros vars; apply preserves_ret].
    apply preserves_for_of_with. intros mp vars.
    unfold LightboxCampaignTrigger.considerMediaplan.
    destruct (Mediaplan.commercials mp) as [[| c cs] |]; try apply preserves_ret.
    apply preserves_bind; [| intros [| first rest]; apply preserves_ret].
    intros s0 r0 s1 H0 F. rewrite <- H0.
    exact (findBlocksForPlacement_console _ _ _ _ _ _ F). }
  exact (K s r s' eq_refl H).
Qed.

Lemma findCommercialForPlacement_selection omlClient mediaplans s commercial mediaplan
  block s' :
  LightboxCampaignTrigger.findCommercialForPlacement omlClient mediaplans s
  = (inr (commercial, mediaplan, block), s') ->
  commercial = firstCommercial mediaplan /\ selection mediaplans (block, mediaplan).
Proof.
  unfold LightboxCampaignTrigger.findCommercialForPlacement, bind. intros H.
  destruct (for_of_with mediaplans (LightboxCampaignTrigger.considerMediaplan omlClient)
              (None, None) s) as [[e | vars] s1] eqn:L; [discriminate |].
  injection H as <- <- <- <-.
  destruct (considerMediaplan_loop omlClient mediaplans mediaplans
              (fun x Hx => Hx) _ _ _ _ L eq_refl) as (I1 & _).
  split; [reflexivity |]. specialize (I1 vars eq_refl). now destruct vars.
Qed.

(** X11: the reservation of the earlier trigger.  When [reserveSpots]
    returns, it returns at most one spot, and the spot carries the id of the
    first commercial of a media plan of the listing; when it throws, the
    message carries the prefix of the step.  The console never gains the line
    "not found mediaplan": the search returns a commercial only together with
    its media plan, so that branch is dead. *)
Theorem trigger_reserveSpots_at_most_one
  (omlClient : OpenMediaLogicClient) (config : IntegrationConfig)
  (s s' : State) (r : Error + list Spot.t) :
  LightboxCampaignTrigger.reserveSpots omlClient config s = (r, s') ->
  (forall spots, r = inr spots ->
     (List.length spots <= 1)%nat
     /\ forall spot, In spot spots ->
          exists mediaplans mp c,
            getMediaplans omlClient (calls (world s)) 1000 = inr mediaplans
            /\ In mp mediaplans
            /\ firstCommercial (Some mp) = Some c
            /\ Spot.commercial_id spot = Commercial.id c)
  /\ (forall e, r = inl e ->
        exists m, message e = "Помилка при бронюванні спотів: " ++ m)
  /\ exists lines,
       console (world s') = (console (world s) ++ lines)%list
       /\ ~ In (console_log "not found mediaplan") lines.
Proof.
  intros H.
  assert (E : forall e, r = inl e ->
                exists m, message e = "Помилка при бронюванні спотів: " ++ m)
    by (intros e ->; exact (wrapped_prefix _ _ _ _ _ H)).
  apply wrapped_state in H as (r0 & H & R). cbv zeta in H.
  unfold bind at 1, request at 1 in H.
  destruct (getMediaplans omlClient (calls (world s)) 1000) as [e0 | mediaplans].
  { injection H as <- <-. split; [intros spots Hr; discriminate (R _ Hr) |].
    split; [exact E |]. exists []. split; [now rewrite app_nil_r | intros []]. }
  unfold bind at 1 in H.
  destruct (LightboxCampaignTrigger.findCommercialForPlacement omlClient mediaplans
              (issued (GetMediaplans 1000) s))
    as [[e1 | [[commercial mediaplan] block]] s1] eqn:F.
  { injection H as <- <-. split; [intros spots Hr; discriminate (R _ Hr) |].
    split; [exact E |]. exists [].
    rewrite (findCommercialForPlacement_console _ _ _ _ _ F).
    split; [now rewrite app_nil_r | intros []]. }
  pose proof (findCommercialForPlacement_console _ _ _ _ _ F) as Cs.
  apply findCommercialForPlacement_selection in F as [Fc Fs].
  cbn [fst snd] in H.
  destruct commercial as [c |].
  2: { injection H as <- <-. split.
       { intros spots Hr. injection (R _ Hr) as <-. split; [simpl; lia | intros ? []]. }
       split; [exact E |]. exists [console_log "not found commercial"]. split.
       - simpl. now rewrite Cs.
       - intros [N | []]. discriminate. }
  destruct mediaplan as [mp |]; [| discriminate].
  destruct Fs as (Fin & _ & _). cbn [fst snd] in Fin.
  unfold bind, print, request, try_catch, ret, tokenOrDefault in H.
  cbn [calls world printed issued set_world] in H.
  destruct (addSpotToBlock omlClient _ _ _ _) as [err | updatedBlock].
  - injection H as <- <-. split.
    { intros spots Hr. injection (R _ Hr) as <-. split; [simpl; lia | intros ? []]. }
    split; [exact E |]. eexists. split.
    + cbn [console world printed issued set_world]. rewrite Cs.
      cbn [console world printed issued set_world]. rewrite <- !app_assoc. reflexivity.
    + cbn [app In]. intros [N | [N | [N | [N | []]]]]; discriminate.
  - destruct (LightboxCampaignTrigger.addedSpot updatedBlock c) as [spot |] eqn:A;
      injection H as <- <-.
    + split.
      { intros spots Hr. injection (R _ Hr) as <-. split; [simpl; lia |].
        intros spot' [<- | []]. exists mediaplans, mp, c.
        split; [reflexivity |]. split; [exact Fin |]. split; [now symmetry |].
        unfold LightboxCampaignTrigger.addedSpot in A.
        destruct (Block.spots updatedBlock) as [found |]; [| discriminate].
        apply find_some in A as [_ A]. now apply strict_eq_opt_true. }
      split; [exact E |]. eexists. split.
      * cbn [console world printed issued set_world]. rewrite Cs.
        cbn [console world printed issued set_world]. rewrite <- !app_assoc.
        reflexivity.
      * cbn [app In]. intros [N | [N | [N | [N | []]]]]; discriminate.
    + split.
      { intros spots Hr. injection (R _ Hr) as <-. split; [simpl; lia | intros ? []]. }
      split; [exact E |]. eexists. split.
      * cbn [console world printed issued set_world]. rewrite Cs.
        cbn [console world printed issued set_world]. rewrite <- !app_assoc.
        reflexivity.
      * cbn [app In]. intros [N | [N | [N | [N | []]]]]; discriminate.
Qed.

(** Witness of X11: the sample platform, after the sample dictionary step. *)
Lemma trigger_reserveSpots_at_most_one_witness :
  exists spots s',
    LightboxCampaignTrigger.reserveSpots Sample.omlClient Sample.exampleConfig
      (snd (syncReferenceDictionaries Sample.omlClient Sample.campaign Sample.creatives
              (constructor Sample.world0)))
    = (inr spots, s')
    /\ (List.length spots <= 1)%nat.
Proof.
  destruct (LightboxCampaignTrigger.reserveSpots Sample.omlClient Sample.exampleConfig
              (snd (syncReferenceDictionaries Sample.omlClient Sample.campaign
                      Sample.creatives (constructor Sample.world0))))
    as [r s'] eqn:H.
  destruct (trigger_reserveSpots_at_most_one _ _ _ _ _ H) as (A & _).
  assert (R : exists spots, r = inr spots)
    by (vm_compute in H; injection H as <- _; eexists; reflexivity).
  destruct R as [spots ->]. exists spots, s'. split; [reflexivity |].
  exact (proj1 (A spots eq_refl)).
Defined.

(** ** The cache across a run *)

Lemma step_keeps_cache {A : Type} (c : M A) :
  (forall C, Preserves (fun s => mappingCache s = C) c) ->
  forall s r s', c s = (r, s') -> mappingCache s' = mappingCache s.
Proof. intros H s r s' E. now apply (H (mappingCache s) s r s'). Qed.

Ltac cache_side :=
  first [ reflexivity | exact (fun _ _ _ H => H) | exact (fun _ _ H => H) ].

Lemma findBlocksForPlacement_cache omlClient start_date end_date s r s' :
  findBlocksForPlacement omlClient start_date end_date s = (r, s') ->
  mappingCache s' = mappingCache s.
Proof.
  apply step_keeps_cache. intros C.
  apply keep_findBlocksForPlacement with (allowed := fun _ => true); cache_side.
Qed.

Lemma findAndMapCommercials_cache omlClient creatives s r s' :
  findAndMapCommercials omlClient creatives s = (r, s') ->
  mappingCache s' = mappingCache s.
Proof.
  apply step_keeps_cache. intros C.
  apply keep_findAndMapCommercials with (allowed := fun _ => true); cache_side.
Qed.

Lemma reserveSpots_cache omlClient config block s r s' :
  reserveSpots omlClient config block s = (r, s') ->
  mappingCache s' = mappingCache s.
Proof.
  apply step_keeps_cache. intros C.
  apply keep_reserveSpots with (allowed := fun _ => true); cache_side.
Qed.

(** The dictionary step keeps what is set and the tables. *)
Lemma syncReferenceDictionaries_keeps omlClient campaign creatives s r s' :
  syncReferenceDictionaries omlClient campaign creatives s = (r, s') ->
  (forall key l v, cache_get key l s = Some v -> cache_get key l s' = Some v)
  /\ (forall key, table_exists key s -> table_exists key s').
Proof.
  intros H. apply wrapped_state in H as (r0 & H & _). cbv zeta in H.
  change (syncAdvertisers omlClient [Campaign.advertiser_id campaign])
    with (sync omlClient advertisers (referenced campaign creatives advertisers)) in H.
  change (syncBrands omlClient (collectBrandIds campaign creatives))
    with (sync omlClient brands (referenced campaign creatives brands)) in H.
  change (syncChannels omlClient (map Placement.channel_id (Campaign.placements campaign)))
    with (sync omlClient channels (referenced campaign creatives channels)) in H.
  change (syncTargetAudiences omlClient
            (map Placement.target_audience_id (Campaign.placements campaign)))
    with (sync omlClient targetAudiences
            (referenced campaign creatives targetAudiences)) in H.
  unfold bind in H.
  destruct (sync omlClient advertisers _ s) as [r1 s1] eqn:H1.
  destruct (sync_facts _ _ _ _ _ _ H1) as (K1 & T1 & _).
  destruct r1 as [e | []]; [injection H as _ <-; now split |].
  destruct (sync omlClient brands _ s1) as [r2 s2] eqn:H2.
  destruct (sync_facts _ _ _ _ _ _ H2) as (K2 & T2 & _).
  destruct r2 as [e | []]; [injection H as _ <-; split; auto |].
  destruct (sync omlClient channels _ s2) as [r3 s3] eqn:H3.
  destruct (sync_facts _ _ _ _ _ _ H3) as (K3 & T3 & _).
  destruct r3 as [e | []]; [injection H as _ <-; split; auto |].
  destruct (sync_facts _ _ _ _ _ _ H) as (K4 & T4 & _).
  split; auto.
Qed.

Lemma Grown_same campaign creatives s s' s'' :
  Grown campaign creatives s s' -> mappingCache s'' = mappingCache s' ->
  Grown campaign creatives s s''.
Proof.
  intros (G1 & G2 & G3) E. unfold Grown, cache_get, table_exists in *.
  rewrite E. now repeat split.
Qed.

Lemma Grown_refl campaign creatives s : Grown campaign creatives s s.
Proof. now repeat split. Qed.

Section CacheOfARun.
Variable omlClient : OpenMediaLogicClient.
Variable now : nat -> string.
Variable config : IntegrationConfig.
Variables (campaign : Campaign.t) (creatives : list Creative.t).

Lemma Authenticated_grown s s1 :
  Authenticated omlClient now config s s1 -> Grown campaign creatives s s1.
Proof.
  intros [H]. apply authenticate_effect in H as (_ & _ & _ & H & _).
  apply (Grown_same _ _ s s); [apply Grown_refl | exact H].
Qed.

Lemma sync_step_grown s s1 r s2 :
  Grown campaign creatives s s1 ->
  syncReferenceDictionaries omlClient campaign creatives s1 = (r, s2) ->
  Grown campaign creatives s s2.
Proof.
  intros (G1 & G2 & G3) H.
  destruct (syncReferenceDictionaries_keeps _ _ _ _ _ _ H) as [K T].
  pose proof (syncReferenceDictionaries_frame _ _ _ _ _ _ H) as F.
  split; [auto |]. split; [auto |]. intros t l N. rewrite (F t l N). now apply G3.
Qed.

Lemma Synced_grown s s2 :
  Synced omlClient now config campaign creatives s s2 -> Grown campaign creatives s s2.
Proof.
  intros [s1 A H]. apply Authenticated_grown in A.
  apply (sync_step_grown s (afterAuthentication now s1) (inr tt)); [| exact H].
  now apply (Grown_same _ _ s s1).
Qed.

Lemma BlocksFound_grown s blocks s3 :
  BlocksFound omlClient now config campaign creatives s blocks s3 ->
  Grown campaign creatives s s3.
Proof.
  intros [s2 A H]. apply Synced_grown in A.
  apply (Grown_same _ _ s s2); [exact A |].
  now apply findBlocksForPlacement_cache in H.
Qed.

Lemma CommercialsMapped_grown s blocks commercials s4 :
  CommercialsMapped omlClient now config campaign creatives s blocks commercials s4 ->
  Grown campaign creatives s s4.
Proof.
  intros [s3 A H]. apply BlocksFound_grown in A.
  apply (Grown_same _ _ s s3); [exact A |].
  now apply findAndMapCommercials_cache in H.
Qed.

Lemma SpotsReserved_grown s blocks commercials spots s5 :
  SpotsReserved omlClient now config campaign creatives s blocks commercials spots s5 ->
  Grown campaign creatives s s5.
Proof.
  intros [s4 A H]. apply CommercialsMapped_grown in A.
  apply (Grown_same _ _ s s4); [exact A |].
  now apply reserveSpots_cache in H.
Qed.

Lemma StepRaises_grown s e s' :
  StepRaises omlClient now config campaign creatives s e s' ->
  Grown campaign creatives s s'.
Proof.
  intros [H | s1 A H | s2 A H | blocks s3 A H | blocks commercials s4 A H].
  - apply authenticate_effect in H as (_ & _ & _ & H & _).
    apply (Grown_same _ _ s s); [apply Grown_refl | exact H].
  - apply Authenticated_grown in A.
    apply (sync_step_grown s (afterAuthentication now s1) (inl e)); [| exact H].
    now apply (Grown_same _ _ s s1).
  - apply Synced_grown in A. apply (Grown_same _ _ s s2); [exact A |].
    now apply findBlocksForPlacement_cache in H.
  - apply BlocksFound_grown in A. apply (Grown_same _ _ s s3); [exact A |].
    now apply findAndMapCommercials_cache in H.
  - apply CommercialsMapped_grown in A. apply (Grown_same _ _ s s4); [exact A |].
    now apply reserveSpots_cache in H.
Qed.

End CacheOfARun.

(** X12: the cache across a run.  Whatever its outcome, a run never removes a
    table and never changes or removes an entry that was set: an id mapped
    once keeps its remote id in every later run on the instance.  The only
    entries a run adds are those of the advertiser, brand, channel and
    target-audience ids its campaign and creatives refer to. *)
Theorem cache_across_a_run
  (omlClient : OpenMediaLogicClient) (now : nat -> string)
  (processEnv : string -> option string)
  (campaign : Campaign.t) (creatives : list Creative.t) (s s' : State)
  (r : Error + IntegrationResult) :
  handleCampaignPublish omlClient now (EnvConfig.getOmlConfig processEnv)
    campaign creatives s = (r, s') ->
  (forall key l v, cache_get key l s = Some v -> cache_get key l s' = Some v)
  /\ (forall key, table_exists key s -> table_exists key s')
  /\ (forall t l, ~ In l (referenced campaign creatives t) ->
                  cache_get (entityKey t) l s' = cache_get (entityKey t) l s).
Proof.
  intros H.
  destruct (pipeline_cases omlClient now processEnv campaign creatives s)
    as [(blocks & commercials & spots & s5 & R) | (e & s1 & R)].
  - rewrite (handleCampaignPublish_completed _ _ _ _ _ _ _ _ _ _ R) in H.
    injection H as _ <-. apply SpotsReserved_grown in R.
    exact (Grown_same _ _ s s5 _ R eq_refl).
  - rewrite (handleCampaignPublish_failed _ _ _ _ _ _ _ _ R) in H.
    injection H as _ <-. apply StepRaises_grown in R.
    exact (Grown_same _ _ s s1 _ R eq_refl).
Qed.

(** Witness of X12: the sample run gives no entry to the channel 10, which
    the sample campaign does not refer to. *)
Lemma cache_across_a_run_witness :
  let s' := snd (handleCampaignPublish Sample.omlClient Sample.now
                   (EnvConfig.getOmlConfig Sample.processEnv) Sample.campaign
                   Sample.creatives (constructor Sample.world0)) in
  cache_get "channels" 10 s' = None.
Proof.
  intros s'.
  destruct (cache_across_a_run Sample.omlClient Sample.now Sample.processEnv
              Sample.campaign Sample.creatives (constructor Sample.world0) s'
              (fst (handleCampaignPublish Sample.omlClient Sample.now
                      (EnvConfig.getOmlConfig Sample.processEnv) Sample.campaign
                      Sample.creatives (constructor Sample.world0))))
    as (_ & _ & F).
  - apply surjective_pairing.
  - assert (N : ~ In 10 (referenced Sample.campaign Sample.creatives channels))
      by (simpl; intros [N | [N | []]]; discriminate).
    exact (F channels 10 N).
Defined.

(** ** What the trigger can throw *)



(** ** The login of a run *)

Lemma get_empty_default processEnv key :
  EnvConfig.get processEnv key EmptyString
  = match processEnv key with
    | Some value => value
    | None => EmptyString
    end.
Proof.
  unfold EnvConfig.get, or_default. destruct (processEnv key) as [v |]; [| reflexivity].
  destruct (String.eqb v EmptyString) eqn:E; [| reflexivity].
  apply String.eqb_eq in E. now subst.
Qed.

Lemma Issued_prefix (first : Call) s s1 s2 kinds :
  (exists more, calls (world s1) = (calls (world s) ++ first :: more)%list) ->
  Issued s1 s2 kinds ->
  exists more, calls (world s2) = (calls (world s) ++ first :: more)%list.
Proof.
  intros [more H] (new & C & _). exists (more ++ new)%list.
  rewrite C, H, <- app_assoc. reflexivity.
Qed.

Lemma no_login_after a k b c m t :
  ~ In KLogin (repeat KLookup a ++ repeat KBooking k ++ repeat KBlockDetail b
               ++ repeat KCommercials c ++ repeat KMediaplans m ++ repeat KAttach t).
Proof.
  intros H. repeat (apply in_app_or in H as [H | H]);
    apply repeat_spec in H; discriminate.
Qed.

Section Login.
Variable omlClient : OpenMediaLogicClient.
Variable now : nat -> string.
Variable config : IntegrationConfig.
Variables (campaign : Campaign.t) (creatives : list Creative.t).

Lemma authenticate_first s r s1 :
  authenticate omlClient config (afterStart now s) = (r, s1) ->
  exists more,
    calls (world s1)
    = (calls (world s) ++ Login (omlUsername config) (omlPassword config) :: more)%list.
Proof. intros H. apply authenticate_effect in H as (C & _). now exists []. Qed.

Lemma Synced_first s s2 :
  Synced omlClient now config campaign creatives s s2 ->
  exists more,
    calls (world s2)
    = (calls (world s) ++ Login (omlUsername config) (omlPassword config) :: more)%list.
Proof.
  intros [s1 [A] H]. apply authenticate_first in A.
  apply syncReferenceDictionaries_issues in H as [a H].
  exact (Issued_prefix _ s s1 s2 _ A H).
Qed.

Lemma BlocksFound_first s blocks s3 :
  BlocksFound omlClient now config campaign creatives s blocks s3 ->
  exists more,
    calls (world s3)
    = (calls (world s) ++ Login (omlUsername config) (omlPassword config) :: more)%list.
Proof.
  intros [s2 A H]. apply Synced_first in A.
  apply findBlocksForPlacement_issues in H as (k & b & H & _).
  exact (Issued_prefix _ s s2 s3 _ A H).
Qed.

Lemma CommercialsMapped_first s blocks commercials s4 :
  CommercialsMapped omlClient now config campaign creatives s blocks commercials s4 ->
  exists more,
    calls (world s4)
    = (calls (world s) ++ Login (omlUsername config) (omlPassword config) :: more)%list.
Proof.
  intros [s3 A H]. apply BlocksFound_first in A.
  apply findAndMapCommercials_issues in H.
  exact (Issued_prefix _ s s3 s4 _ A H).
Qed.

Lemma SpotsReserved_first s blocks commercials spots s5 :
  SpotsReserved omlClient now config campaign creatives s blocks commercials spots s5 ->
  exists more,
    calls (world s5)
    = (calls (world s) ++ Login (omlUsername config) (omlPassword config) :: more)%list.
Proof.
  intros [s4 A H]. apply CommercialsMapped_first in A.
  apply reserveSpots_issues in H as (t & H & _).
  exact (Issued_prefix _ s s4 s5 _ A H).
Qed.

Lemma StepRaises_first s e s' :
  StepRaises omlClient now config campaign creatives s e s' ->
  exists more,
    calls (world s')
    = (calls (world s) ++ Login (omlUsername config) (omlPassword config) :: more)%list.
Proof.
  intros [H | s1 [A] H | s2 A H | blocks s3 A H | blocks commercials s4 A H].
  - now apply authenticate_first in H.
  - apply authenticate_first in A.
    apply syncReferenceDictionaries_issues in H as [a H].
    exact (Issued_prefix _ s s1 s' _ A H).
  - apply Synced_first in A.
    apply findBlocksForPlacement_issues in H as (k & b & H & _).
    exact (Issued_prefix _ s s2 s' _ A H).
  - apply BlocksFound_first in A. apply findAndMapCommercials_issues in H.
    exact (Issued_prefix _ s s3 s' _ A H).
  - apply CommercialsMapped_first in A. apply reserveSpots_issues in H as (t & H & _).
    exact (Issued_prefix _ s s4 s' _ A H).
Qed.

End Login.

(** X14: the login of a run.  The first request of every run is the login,
    with the values of OML_USERNAME and OML_PASSWORD of the environment; a
    variable that is unset counts as the empty string, and nothing checks the
    credentials before they are sent, so with neither set the run logs in
    with two empty strings.  No other login follows in the run. *)
Theorem run_logs_in_with_env
  (omlClient : OpenMediaLogicClient) (now : nat -> string)
  (processEnv : string -> option string)
  (campaign : Campaign.t) (creatives : list Creative.t) (s s' : State)
  (r : Error + IntegrationResult) :
  handleCampaignPublish omlClient now (EnvConfig.getOmlConfig processEnv)
    campaign creatives s = (r, s') ->
  let credential key :=
    match processEnv key with
    | Some value => value
    | None => EmptyString
    end in
  exists rest,
    calls (world s')
    = (calls (world s)
       ++ Login (credential "OML_USERNAME") (credential "OML_PASSWORD") :: rest)%list
    /\ ~ In KLogin (map kindOf rest).
Proof.
  intros H credential.
  assert (First : exists more,
             calls (world s')
             = (calls (world s)
                ++ Login (credential "OML_USERNAME") (credential "OML_PASSWORD")
                   :: more)%list
             /\ exists a k b c m t, Issued s s' (requestKinds a k b c m t)).
  { unfold credential. rewrite <- !get_empty_default.
    destruct (pipeline_cases omlClient now processEnv campaign creatives s)
      as [(blocks & commercials & spots & s5 & R) | (e & s1 & R)].
    - rewrite (handleCampaignPublish_completed _ _ _ _ _ _ _ _ _ _ R) in H.
      injection H as _ <-.
      destruct (SpotsReserved_first _ _ _ _ _ _ _ _ _ _ R) as [more F].
      apply SpotsReserved_issued in R as (a & b & t & R & _).
      exists more. split; [exact F |]. now exists a, 1%nat, b, 1%nat, 1%nat, t.
    - rewrite (handleCampaignPublish_failed _ _ _ _ _ _ _ _ R) in H.
      injection H as _ <-.
      destruct (StepRaises_first _ _ _ _ _ _ _ _ R) as [more F].
      apply StepRaises_issued in R as (a & k & b & c & m & t & R & _).
      exists more. split; [exact F |]. now exists a, k, b, c, m, t. }
  destruct First as (more & F & a & k & b & c & m & t & new & C & K).
  exists more. split; [exact F |].
  rewrite F in C. apply app_inv_head in C. subst new.
  unfold requestKinds in K. simpl in K. injection K as K. rewrite K.
  apply no_login_after.
Qed.

(** Witness of X14: the sample run against an environment that sets
    nothing. *)
Lemma run_logs_in_with_env_witness :
  exists rest,
    calls (world (snd (handleCampaignPublish Sample.omlClient Sample.now
                         (EnvConfig.getOmlConfig (fun _ => None)) Sample.campaign
                         Sample.creatives (constructor Sample.world0))))
    = Login EmptyString EmptyString :: rest.
Proof.
  destruct (run_logs_in_with_env Sample.omlClient Sample.now (fun _ => None)
              Sample.campaign Sample.creatives (constructor Sample.world0)
              (snd (handleCampaignPublish Sample.omlClient Sample.now
                      (EnvConfig.getOmlConfig (fun _ => None)) Sample.campaign
                      Sample.creatives (constructor Sample.world0)))
              (fst (handleCampaignPublish Sample.omlClient Sample.now
                      (EnvConfig.getOmlConfig (fun _ => None)) Sample.campaign
                      Sample.creatives (constructor Sample.world0))))
    as (rest & C & _).
  - apply surjective_pairing.
  - exists rest. exact C.
Defined.

(** ** The earlier trigger: which media plan is taken *)

Lemma for_of_with_app {A B : Type} (xs ys : list A) (body : A -> B -> M B) acc s :
  for_of_with (xs ++ ys) body acc s
  = bind (for_of_with xs body acc) (for_of_with ys body) s.
Proof.
  revert acc s. induction xs as [| x xs IH]; intros acc s; simpl; [reflexivity |].
  unfold bind. destruct (body x acc s) as [[e | acc'] s1]; [reflexivity |].
  rewrite IH. reflexivity.
Qed.

Lemma considerMediaplan_skips omlClient mediaplans vars s :
  Forall (fun mp => firstCommercial (Some mp) = None) mediaplans ->
  for_of_with mediaplans (LightboxCampaignTrigger.considerMediaplan omlClient) vars s
  = (inr vars, s).
Proof.
  induction 1 as [| mp rest N _ IH]; simpl; [reflexivity |].
  assert (Step : LightboxCampaignTrigger.considerMediaplan omlClient mp vars s
                 = (inr vars, s)).
  { unfold LightboxCampaignTrigger.considerMediaplan. unfold firstCommercial in N.
    now destruct (Mediaplan.commercials mp) as [[| c cs] |]. }
  now rewrite (bind_ok _ Step).
Qed.

(** X15: the search takes the last media plan that has blocks, not the first.
    Whatever the search over the earlier media plans of the listing returned,
    a media plan with a first commercial whose block search returns a
    non-empty list replaces it, with the first block of that list, unless a
    later media plan does the same; media plans without commercials after it
    change nothing. *)
Theorem trigger_findCommercialForPlacement_last_wins
  (omlClient : OpenMediaLogicClient)
  (earlier later : list Mediaplan.t) (mediaplan : Mediaplan.t)
  (s s1 s2 : State)
  (found : option Commercial.t * option Mediaplan.t * option Block.t)
  (commercial : Commercial.t) (first : Block.t) (rest : list Block.t) :
  LightboxCampaignTrigger.findCommercialForPlacement omlClient earlier s
  = (inr found, s1) ->
  firstCommercial (Some mediaplan) = Some commercial ->
  findBlocksForPlacement omlClient (Mediaplan.date_from mediaplan)
    (Mediaplan.date_to mediaplan) s1 = (inr (first :: rest), s2) ->
  Forall (fun mp => firstCommercial (Some mp) = None) later ->
  LightboxCampaignTrigger.findCommercialForPlacement omlClient
    (earlier ++ mediaplan :: later) s
  = (inr (Some commercial, Some mediaplan, Some first), s2).
Proof.
  unfold LightboxCampaignTrigger.findCommercialForPlacement. intros E C F L.
  unfold bind at 1 in E.
  destruct (for_of_with earlier (LightboxCampaignTrigger.considerMediaplan omlClient)
              (None, None) s) as [[e | vars] s0] eqn:Loop; [discriminate |].
  injection E as _ <-.
  unfold bind at 1. rewrite for_of_with_app, (bind_ok _ Loop). simpl.
  assert (Step : LightboxCampaignTrigger.considerMediaplan omlClient mediaplan vars s0
                 = (inr (Some first, Some mediaplan), s2)).
  { unfold LightboxCampaignTrigger.considerMediaplan.
    unfold firstCommercial in C.
    destruct (Mediaplan.commercials mediaplan) as [[| c cs] |]; try discriminate.
    unfold LightboxCampaignTrigger.findBlocksForPlacement.
    now rewrite (bind_ok _ F). }
  rewrite (bind_ok _ Step), (considerMediaplan_skips _ _ _ _ L).
  unfold ret. cbn [fst snd]. now rewrite C.
Qed.

(** Witness of X15: a listing of two media plans with blocks, after the
    sample dictionary step; the second is taken. *)
Lemma trigger_findCommercialForPlacement_last_wins_witness :
  exists s2,
    LightboxCampaignTrigger.findCommercialForPlacement Sample.omlClient
      ([Sample.mediaplan 1 [Sample.commercial 5 "Spring Promo"]]
       ++ Sample.mediaplan 42338 [Sample.commercial 201 "Summer Promo 30s"] :: [])
      (snd (syncReferenceDictionaries Sample.omlClient Sample.campaign Sample.creatives
              (constructor Sample.world0)))
    = (inr (Some (Sample.commercial 201 "Summer Promo 30s"),
            Some (Sample.mediaplan 42338 [Sample.commercial 201 "Summer Promo 30s"]),
            Some (Sample.fullBlock (Some 965745))), s2).
Proof.
  eexists.
  eapply trigger_findCommercialForPlacement_last_wins.
  - vm_compute. reflexivity.
  - reflexivity.
  - vm_compute. reflexivity.
  - constructor.
Defined.

(** ** A block search that throws *)

Section BlockSearchStops.
Variable omlClient : OpenMediaLogicClient.

Lemma StoppedAt_after before slots s s1 e s' :
  calls (world s1) = (calls (world s) ++ slotCalls before)%list ->
  StoppedAt omlClient slots s1 e s' ->
  StoppedAt omlClient (before ++ slots) s e s'.
Proof.
  intros C (asked & slot & rest & -> & G & C').
  exists (before ++ asked)%list, slot, rest.
  unfold slotCalls in *. rewrite C, <- app_assoc, <- map_app in G, C'.
  rewrite <- !app_assoc. split; [reflexivity |]. split; [exact G | exact C'].
Qed.

Lemma StoppedAt_before slots later s e s' :
  StoppedAt omlClient slots s e s' ->
  StoppedAt omlClient (slots ++ later) s e s'.
Proof.
  intros (asked & slot & rest & -> & G & C').
  exists asked, slot, (rest ++ later)%list. rewrite <- app_assoc. now repeat split.
Qed.

Lemma fetchSlot_stops slots acc s e s' :
  for_of_with slots (fetchSlot omlClient) acc s = (inl e, s') ->
  StoppedAt omlClient slots s e s'.
Proof.
  revert acc s. induction slots as [| slot rest IH]; intros acc s H; simpl in H;
    [discriminate |].
  unfold bind at 1, fetchSlot at 1, bind at 1, request at 1 in H.
  destruct (getBlockById omlClient (calls (world s)) (BlockWithGrps.block_id slot))
    as [e0 | fullBlock] eqn:G.
  - injection H as <- <-. exists [], slot, rest. simpl. rewrite app_nil_r.
    now repeat split.
  - unfold ret at 1 in H. apply IH in H.
    apply (StoppedAt_after [slot] rest s (issued (GetBlockById (BlockWithGrps.block_id slot)) s));
      [reflexivity | exact H].
Qed.

Lemma scanProgramRelease_stops programRelease acc s e s' :
  scanProgramRelease omlClient programRelease acc s = (inl e, s') ->
  StoppedAt omlClient (availableSlots programRelease) s e s'.
Proof.
  unfold scanProgramRelease, availableSlots, slice_first.
  destruct (ProgramRelease.blocks programRelease) as [[| b bs] |]; try discriminate.
  apply fetchSlot_stops.
Qed.

Lemma for_of_with_stops {A : Type} (items : A -> list BlockWithGrps.t)
  (body : A -> list Block.t -> M (list Block.t)) :
  (forall x acc s blocks s',
      body x acc s = (inr blocks, s') ->
      calls (world s') = (calls (world s) ++ slotCalls (items x))%list) ->
  (forall x acc s e s',
      body x acc s = (inl e, s') -> StoppedAt omlClient (items x) s e s') ->
  forall xs acc s e s',
    for_of_with xs body acc s = (inl e, s') ->
    StoppedAt omlClient (flat_map items xs) s e s'.
Proof.
  intros Ok Err. induction xs as [| x xs IH]; intros acc s e s' H; simpl in H;
    [discriminate |].
  unfold bind in H. destruct (body x acc s) as [[e0 | acc'] s1] eqn:B.
  - injection H as <- <-. simpl. apply StoppedAt_before. exact (Err _ _ _ _ _ B).
  - simpl. apply (StoppedAt_after _ _ s s1); [exact (Ok _ _ _ _ _ B) |].
    exact (IH _ _ _ _ H).
Qed.

Lemma scanDate_stops grid date acc s e s' :
  scanDate omlClient grid date acc s = (inl e, s') ->
  StoppedAt omlClient (flat_map availableSlots (releasesOn grid date)) s e s'.
Proof.
  apply (for_of_with_stops availableSlots (scanProgramRelease omlClient)).
  - intros x acc0 s0 blocks s0' H.
    destruct (scanProgramRelease_fetched omlClient _ _ _ _ _ H) as (_ & _ & _ & C & _).
    simpl in C. now rewrite app_nil_r in C.
  - intros x acc0 s0 e0 s0'. apply scanProgramRelease_stops.
Qed.

Lemma flat_map_flat_map {A B C : Type} (f : B -> list C) (g : A -> list B) xs :
  flat_map f (flat_map g xs) = flat_map (fun x => flat_map f (g x)) xs.
Proof.
  induction xs as [| x xs IH]; simpl; [reflexivity |].
  now rewrite flat_map_app, IH.
Qed.

Lemma scan_stops grid acc s e s' :
  for_of_with (map fst grid) (scanDate omlClient grid) acc s = (inl e, s') ->
  StoppedAt omlClient (gridSlots grid) s e s'.
Proof.
  unfold gridSlots, gridReleases. rewrite flat_map_flat_map.
  apply (for_of_with_stops (fun date => flat_map availableSlots (releasesOn grid date))
           (scanDate omlClient grid)).
  - intros x acc0 s0 blocks s0' H.
    now destruct (scanDate_fetched omlClient _ _ _ _ _ _ H) as (_ & _ & _ & C & _).
  - intros x acc0 s0 e0 s0'. apply scanDate_stops.
Qed.

End BlockSearchStops.

(** X16: a block search that throws.  [findBlocksForPlacement] throws in
    three ways, always with the prefix of the step before the message it
    caught: the local channel 9 has no entry, and nothing was requested; the
    booking request was refused, and nothing else was requested; or a
    block-detail request was refused.  In the last case the search stops at
    that slot: the slots of the grid before it were asked about, in grid
    order, the slots after it never are, and the blocks fetched so far are
    dropped with the error. *)
Theorem findBlocksForPlacement_throws
  (omlClient : OpenMediaLogicClient) (start_date end_date : string)
  (s s' : State) (e : Error) :
  findBlocksForPlacement omlClient start_date end_date s = (inl e, s') ->
  (cache_get "channels" 9 s = None
   /\ s' = s
   /\ message e = "Помилка при пошуку блоків для розміщення: "
                  ++ "Не знайдено маппінг для channels з ID 9")
  \/ exists omlChannelId,
       cache_get "channels" 9 s = Some omlChannelId
       /\ ((exists refusal,
              getChannelBooking omlClient (calls (world s)) omlChannelId start_date
                end_date = inl refusal
              /\ message e = "Помилка при пошуку блоків для розміщення: "
                             ++ message refusal
              /\ calls (world s')
                 = (calls (world s)
                    ++ [GetChannelBooking omlChannelId start_date end_date])%list)
           \/ (exists grid refusal,
                 getChannelBooking omlClient (calls (world s)) omlChannelId start_date
                   end_date = inr grid
                 /\ message e = "Помилка при пошуку блоків для розміщення: "
                                ++ message refusal
                 /\ StoppedAt omlClient (gridSlots grid)
                      (issued (GetChannelBooking omlChannelId start_date end_date) s)
                      refusal s')).
Proof.
  intros H.
  destruct (cache_get "channels" 9 s) as [omlChannelId |] eqn:G.
  - right. exists omlChannelId. split; [reflexivity |].
    assert (M : getMappedIdOrThrow "channels" 9 s = (inr omlChannelId, s)).
    { unfold getMappedIdOrThrow. unfold cache_get in G.
      destruct (JsMap.get String.eqb (mappingCache s) "channels") as [mapping |];
        [| discriminate].
      now rewrite G. }
    unfold findBlocksForPlacement, try_catch in H. rewrite (bind_ok _ M) in H.
    unfold bind at 1, request at 1 in H.
    destruct (getChannelBooking omlClient (calls (world s)) omlChannelId start_date
                end_date) as [refusal | grid].
    + left. exists refusal. injection H as <- <-. now repeat split.
    + right.
      destruct (for_of_with (map fst grid) (scanDate omlClient grid) []
                  (issued (GetChannelBooking omlChannelId start_date end_date) s))
        as [[refusal | blocks] s1] eqn:L; [| discriminate].
      injection H as <- <-. exists grid, refusal. split; [reflexivity |].
      split; [reflexivity |]. exact (scan_stops omlClient _ _ _ _ _ L).
  - left. rewrite (findBlocksForPlacement_unmapped _ _ _ _ G) in H.
    injection H as <- <-. now repeat split.
Qed.

(** Witness of X16: the sample search against a platform that refuses the
    second slot of the grid. *)
Lemma findBlocksForPlacement_throws_witness :
  exists e s',
    findBlocksForPlacement refusingDetail "2025-04-24" "2025-04-30"
      (snd (syncReferenceDictionaries Sample.omlClient Sample.campaign Sample.creatives
              (constructor Sample.world0)))
    = (inl e, s')
    /\ message e = "Помилка при пошуку блоків для розміщення: 404 Not Found"
    /\ exists refusal, StoppedAt refusingDetail (gridSlots Sample.grid)
                         (issued (GetChannelBooking (Some 3) "2025-04-24" "2025-04-30")
                            (snd (syncReferenceDictionaries Sample.omlClient
                                    Sample.campaign Sample.creatives
                                    (constructor Sample.world0))))
                         refusal s'.
Proof.
  destruct (findBlocksForPlacement refusingDetail "2025-04-24" "2025-04-30"
              (snd (syncReferenceDictionaries Sample.omlClient Sample.campaign
                      Sample.creatives (constructor Sample.world0))))
    as [r s'] eqn:H.
  assert (R : r = inl (mkError "Помилка при пошуку блоків для розміщення: 404 Not Found"))
    by (vm_compute in H; now injection H as <- _).
  subst r. eexists _, s'. split; [reflexivity |]. split; [reflexivity |].
  destruct (findBlocksForPlacement_throws _ _ _ _ _ _ H)
    as [(N & _) | (id & G & [(refusal & B & _) | (grid & refusal & B & _ & S)])].
  - discriminate N.
  - discriminate B.
  - injection G as <-. injection B as <-. now exists refusal.
Defined.

(** ** The earlier trigger: the count in the log *)


